(** * The OCDB scraper (scrape_ocdb.py): a shallow embedding and its properties

    The development follows the layout of the Python module:
    - [PyStr]: Python [str] as a sequence of Unicode code points, with the
      string methods and the handful of regular expressions the scraper uses;
    - [Soup]: the BeautifulSoup tree the scraper navigates, with the
      classes of string the parser makes;
    - [RateLimiter]: the adaptive delay, on IEEE binary64 floats;
    - [Scraper]: [OCDBScraper], its fetch loop, its extractors and [run],
      as a state monad over the scraper object, the files and the HTTP log.

    A call that can raise returns an [outcome]: [int] on a string of
    digits beyond the limit of the interpreter and [urljoin] raise
    [ValueError].

    Definitions come first, the theory follows. *)

From Stdlib Require Import String Ascii DecimalString.
From Stdlib Require Import List NArith ZArith Bool PeanoNat Lia Floats.
From Stdlib Require Import Permutation.
Import ListNotations.

Set Implicit Arguments.

(* ===================================================================== *)
(** * Python strings *)
(* ===================================================================== *)

Module PyStr.

Local Open Scope N_scope.

(** A Python [str] is a sequence of Unicode code points. *)
Definition str := list N.

(** A literal of the source, written as a Rocq string of ASCII characters. *)
Definition py (s : string) : str := map N_of_ascii (list_ascii_of_string s).

Fixpoint str_eqb (a b : str) : bool :=
  match a, b with
  | [], [] => true
  | x :: a', y :: b' => (x =? y) && str_eqb a' b'
  | _, _ => false
  end.

(** [x in l] for a list of strings. *)
Definition str_in (x : str) (l : list str) : bool := existsb (str_eqb x) l.

(** Truth value of a string or a list: [if text:], [if items:]. *)
Definition nonempty {A} (s : list A) : bool :=
  match s with [] => false | _ :: _ => true end.

(** [Py_UNICODE_ISSPACE]: the characters [str.strip], [str.split] and the
    regular expression class [\s] treat as whitespace. *)
Definition is_space (c : N) : bool :=
  ((9 <=? c) && (c <=? 13)) || ((28 <=? c) && (c <=? 32))
  || (c =? 133) || (c =? 160) || (c =? 5760)
  || ((8192 <=? c) && (c <=? 8202))
  || (c =? 8232) || (c =? 8233) || (c =? 8239) || (c =? 8287) || (c =? 12288).

Fixpoint lstrip (s : str) : str :=
  match s with
  | [] => []
  | c :: t => if is_space c then lstrip t else s
  end.

Definition rstrip (s : str) : str := rev (lstrip (rev s)).

(** [s.strip()] *)
Definition strip (s : str) : str := rstrip (lstrip s).

(** [s.split()]: the maximal runs of non-whitespace characters. [word] is
    the run being read. *)
Fixpoint split_from (word : str) (s : str) : list str :=
  match s with
  | [] => if nonempty word then [word] else []
  | c :: t =>
      if is_space c
      then (if nonempty word then word :: split_from [] t else split_from [] t)
      else split_from (word ++ [c]) t
  end.

Definition split (s : str) : list str := split_from [] s.

(** [sep.join(parts)] *)
Fixpoint join (sep : str) (parts : list str) : str :=
  match parts with
  | [] => []
  | [p] => p
  | p :: rest => p ++ sep ++ join sep rest
  end.

(** [s.startswith(p)] *)
Fixpoint startswith (p s : str) : bool :=
  match p, s with
  | [], _ => true
  | x :: p', y :: s' => (x =? y) && startswith p' s'
  | _ :: _, [] => false
  end.

(** [sub in s] *)
Fixpoint contains (sub s : str) : bool :=
  startswith sub s ||
  match s with
  | [] => false
  | _ :: t => contains sub t
  end.

(** [re.sub(r'\s+', ' ', s)]: every maximal whitespace run becomes one
    space. [in_run] tells that the previous character was whitespace. *)
Fixpoint collapse_from (in_run : bool) (s : str) : str :=
  match s with
  | [] => []
  | c :: t =>
      if is_space c
      then (if in_run then collapse_from true t else 32 :: collapse_from true t)
      else c :: collapse_from false t
  end.

Definition collapse_ws (s : str) : str := collapse_from false s.

(** The regular expression [lit$] searched in [s], for a literal [lit]
    without newline: [$] matches at the end of the string and just before a
    final newline. *)
Definition search_at_end (lit s : str) : bool :=
  let r := rev s in
  startswith (rev lit) r ||
  match r with
  | 10 :: r' => startswith (rev lit) r'
  | _ => false
  end.

Definition ascii_upper (c : N) : bool := (65 <=? c) && (c <=? 90).
Definition ascii_lower_of (c : N) : N := if ascii_upper c then c + 32 else c.
Definition is_ascii (s : str) : bool := forallb (fun c => c <? 128) s.

Definition ascii_vowel (c : N) : bool :=
  existsb (N.eqb c) [97; 101; 105; 111; 117; 65; 69; 73; 79; 85].

(** [re.search(r'[aeiouAEIOU]', w)] *)
Definition has_vowels (w : str) : bool := existsb ascii_vowel w.

(** The class [[B-DF-HJ-NP-TV-Zb-df-hj-np-tv-z\s]]. *)
Definition consonant_or_space (c : N) : bool :=
  let up := fun c => ((66 <=? c) && (c <=? 68)) || ((70 <=? c) && (c <=? 72))
                     || ((74 <=? c) && (c <=? 78)) || ((80 <=? c) && (c <=? 84))
                     || ((86 <=? c) && (c <=? 90)) in
  up c || ((97 <=? c) && up (c - 32)) || is_space c.

(** [re.match(r'^[B-DF-HJ-NP-TV-Zb-df-hj-np-tv-z\s]+$', w)]: since a newline
    belongs to the class, the optional final newline of [$] adds nothing. *)
Definition is_consonant_clue (w : str) : bool :=
  nonempty w && forallb consonant_or_space w.

(** [str(n)] for a natural number, as used by the f-strings. *)
Definition str_of_N (n : N) : str := py (NilZero.string_of_uint (N.to_uint n)).

(** [l[:m]] for a Python integer [m]. *)
Definition slice_to {A} (m : Z) (l : list A) : list A :=
  if (0 <=? m)%Z then firstn (Z.to_nat m) l
  else firstn (length l - Z.to_nat (- m)) l.

(** [l[k:]] for a natural [k]. *)
Definition slice_from {A} (k : nat) (l : list A) : list A := skipn k l.

(** What a call gives: the value it returns, or the exception it raises.
    The two calls of the scraper that raise, [int] and [urljoin], raise
    [ValueError]. *)
Inductive outcome (A : Type) : Type :=
| Returned (a : A)
| Raised.
Arguments Returned {A} a.
Arguments Raised {A}.

(** The statements after a call: they are not reached when it raises. *)
Definition and_then {A B} (o : outcome A) (k : A -> outcome B) : outcome B :=
  match o with
  | Returned a => k a
  | Raised => Raised
  end.

(** [try: x = body] followed by [except ValueError: pass]: when the body
    raises, the assignment has not happened and the program goes on. *)
Definition try_pass {A} (body : outcome A) : outcome (option A) :=
  match body with
  | Returned a => Returned (Some a)
  | Raised => Returned None
  end.

(** The value of an outcome for a caller that has nothing to read when
    the call raised. *)
Definition returned_or {A} (default : A) (o : outcome A) : A :=
  match o with
  | Returned a => a
  | Raised => default
  end.

(** What the scraper takes from the Python runtime and its libraries and
    this development leaves open: the Unicode tables beyond ASCII, the HTML
    character references, URL resolution and the limit on the digits of
    an integer. *)
Class Platform := {
  (** [str.lower] on a string that is not pure ASCII *)
  unicode_lower : str -> str;
  (** decimal value of a non-ASCII character of category Nd, as [\d] and
      [int] read it *)
  unicode_digit : N -> option N;
  (** [html.unescape] on a string that contains an ampersand *)
  replace_charrefs : str -> str;
  (** [urllib.parse.urljoin], which raises [ValueError] on an address it
      cannot split (an unclosed bracket in the host, say) *)
  urljoin : str -> str -> outcome str;
  (** [sys.get_int_max_str_digits()]: 4300 unless configured, 0 when the
      interpreter has no limit *)
  max_str_digits : N
}.

Section WithPlatform.
Context {P : Platform}.

(** [s.lower()] *)
Definition lower (s : str) : str :=
  if is_ascii s then map ascii_lower_of s else unicode_lower s.

(** Decimal value of a character matched by [\d]. *)
Definition digit_value (c : N) : option N :=
  if (48 <=? c) && (c <=? 57) then Some (c - 48)
  else if c <? 128 then None
  else unicode_digit c.

Definition is_digit (c : N) : bool :=
  match digit_value c with Some _ => true | None => false end.

(** The longest prefix of digits and what follows it: a greedy [\d*]. *)
Fixpoint span_digits (s : str) : str * str :=
  match s with
  | [] => ([], [])
  | c :: t =>
      if is_digit c
      then let '(ds, rest) := span_digits t in (c :: ds, rest)
      else ([], s)
  end.

(** The number a string of digits denotes. *)
Definition digits_value (ds : str) : N :=
  fold_left (fun acc c => 10 * acc + match digit_value c with Some d => d | None => 0 end)
            ds 0.

(** [int(ds)] for a string of digits, leading zeros counted: above 640
    digits the interpreter compares their number with its limit, when it
    has one, and raises [ValueError] beyond it. *)
Definition int_of_digits (ds : str) : outcome N :=
  let digits := N.of_nat (length ds) in
  if (640 <? digits) && (0 <? max_str_digits) && (max_str_digits <? digits)
  then Raised
  else Returned (digits_value ds).

(** [re.search(word + r'\s*(\d+)', s)]: group 1 of the leftmost match. After
    the word the greedy [\s*] takes the whole whitespace run (a shorter run
    would leave a space where a digit is required). *)
Fixpoint search_number (word s : str) : option str :=
  let here :=
    if startswith word s
    then match fst (span_digits (lstrip (skipn (length word) s))) with
         | [] => None
         | ds => Some ds
         end
    else None in
  match here with
  | Some ds => Some ds
  | None => match s with
            | [] => None
            | _ :: t => search_number word t
            end
  end.

(** [re.sub(r'^Episode\s*\d+:\s*', '', s)] *)
Definition strip_episode_prefix (s : str) : str :=
  if startswith (py "Episode") s
  then let '(ds, rest) := span_digits (lstrip (skipn 7 s)) in
       match ds, rest with
       | _ :: _, 58 :: rest' => lstrip rest'
       | _, _ => s
       end
  else s.

(** [html.unescape]: the standard library returns the argument itself when
    it holds no ampersand. *)
Definition unescape (s : str) : str :=
  if existsb (N.eqb 38) s then replace_charrefs s else s.

End WithPlatform.

End PyStr.

(* ===================================================================== *)
(** * The parsed document *)
(* ===================================================================== *)

Module Soup.
Import PyStr.
Local Open Scope N_scope.

(** The classes of string the parser makes besides [NavigableString] (and
    [CData], which the scraper cannot tell from it): markup that is no
    text, [Comment] here standing for [Declaration], [Doctype] and
    [ProcessingInstruction] too, and the text inside a [script], [style],
    [template], [rt] or [rp] tag. *)
Inductive special :=
| Comment
| Script
| Stylesheet
| TemplateString
| RubyTextString
| RubyParenthesisString.

(** A BeautifulSoup tree: strings and tags. The [BeautifulSoup] object
    itself is the root tag. Attributes are kept as the parser read them; a
    key occurs once. A string of a special class is a child like any
    other, and [tag.string] counts it; [get_text] reads it only for a tag
    whose text has that class. *)
#[warnings="-register-all"] Inductive node : Type :=
| NavigableString (text : str)
| SpecialString (cls : special) (text : str)
| Tag (name : str) (attrs : list (str * str)) (contents : list node).

(** An element found in the tree, with the siblings that follow it under
    its parent: what [find_next_sibling] walks through. *)
Record located := Located { here : node; after : list node }.

Definition is_tag (n : node) : bool :=
  match n with Tag _ _ _ => true | _ => false end.

(** [tag.name == nm] *)
Definition named (nm : str) (n : node) : bool :=
  match n with
  | Tag name _ _ => str_eqb name nm
  | _ => false
  end.

Fixpoint lookup (key : str) (attrs : list (str * str)) : option str :=
  match attrs with
  | [] => None
  | (k, v) :: rest => if str_eqb k key then Some v else lookup key rest
  end.

(** [tag.get(key)] *)
Definition get (key : str) (n : node) : option str :=
  match n with
  | Tag _ attrs _ => lookup key attrs
  | _ => None
  end.

(** [tag.get(key, '')] *)
Definition get_or_empty (key : str) (n : node) : str :=
  match get key n with Some v => v | None => [] end.

(** [tag.get('class', [])]: the parser splits the attribute on whitespace. *)
Definition classes (n : node) : list str :=
  match get (py "class") n with
  | Some v => split v
  | None => []
  end.

(** The filter [class_=c] for a string [c]: one of the classes is [c], or the
    classes joined by a space are. A tag without the attribute never
    matches. *)
Definition has_class (c : str) (n : node) : bool :=
  match get (py "class") n with
  | Some _ => existsb (fun k => str_eqb k c) (classes n)
              || str_eqb (join (py " ") (classes n)) c
  | None => false
  end.

(** The filter [class_=re.compile(lit)] for a literal [lit]: the pattern is
    searched in each class, then in the classes joined by a space. *)
Definition class_search (lit : str) (n : node) : bool :=
  match get (py "class") n with
  | Some _ => existsb (contains lit) (classes n)
              || contains lit (join (py " ") (classes n))
  | None => false
  end.

(** The filter [key=value] on a single-valued attribute. *)
Definition attr_is (key value : str) (n : node) : bool :=
  match get key n with
  | Some v => str_eqb v value
  | None => false
  end.

(** The descendants of a tag in document order, each with its following
    siblings: the generator [find] and [find_all] run over. *)
Fixpoint descendants (n : node) : list located :=
  match n with
  | NavigableString _ | SpecialString _ _ => []
  | Tag _ _ cs =>
      (fix walk (l : list node) : list located :=
         match l with
         | [] => []
         | c :: rest => Located c rest :: descendants c ++ walk rest
         end) cs
  end.

(** [tag.find(...)] with the filter [p]: the first match in document order. *)
Definition find (p : node -> bool) (n : node) : option located :=
  List.find (fun l => p (here l)) (descendants n).

(** [tag.find_all(...)] with the filter [p]. *)
Definition find_all (p : node -> bool) (n : node) : list located :=
  filter (fun l => p (here l)) (descendants n).

(** [el.find_next_sibling(...)] with the filter [p], from the siblings that
    follow [el]. Without arguments the filter is [is_tag]: text nodes are
    passed over. *)
Fixpoint next_sibling (p : node -> bool) (sibs : list node) : option located :=
  match sibs with
  | [] => None
  | s :: rest => if p s then Some (Located s rest) else next_sibling p rest
  end.

(** [a or b] on two lookups: a tag is always true. *)
Definition or_else {A} (a b : option A) : option A :=
  match a with Some _ => a | None => b end.

(** [builder.string_containers] of the HTML builders: the tags whose text
    has a class of its own. *)
Definition string_container (name : str) : option special :=
  if str_eqb name (py "script") then Some Script
  else if str_eqb name (py "style") then Some Stylesheet
  else if str_eqb name (py "template") then Some TemplateString
  else if str_eqb name (py "rt") then Some RubyTextString
  else if str_eqb name (py "rp") then Some RubyParenthesisString
  else None.

Definition special_eqb (a b : special) : bool :=
  match a, b with
  | Comment, Comment | Script, Script | Stylesheet, Stylesheet
  | TemplateString, TemplateString | RubyTextString, RubyTextString
  | RubyParenthesisString, RubyParenthesisString => true
  | _, _ => false
  end.

(** The strings under a node that a tag reads whose interesting class is
    [wanted]: [None] for the default, [NavigableString] and [CData]. *)
Fixpoint strings_for (wanted : option special) (n : node) : list str :=
  match n with
  | NavigableString s =>
      match wanted with None => [s] | Some _ => [] end
  | SpecialString cls s =>
      match wanted with
      | Some c => if special_eqb cls c then [s] else []
      | None => []
      end
  | Tag _ _ cs => flat_map (strings_for wanted) cs
  end.

(** The strings [get_text] of a tag joins ([_all_strings]), in document
    order: the descendants of the tag's interesting class. *)
Definition all_strings (n : node) : list str :=
  match n with
  | Tag name _ cs => flat_map (strings_for (string_container name)) cs
  | NavigableString s => [s]
  | SpecialString _ _ => []
  end.

(** [tag.get_text()] *)
Definition get_text (n : node) : str := concat (all_strings n).

(** The strings [get_text(strip=True)] joins: each stripped, the empty ones
    dropped. *)
Definition stripped_strings (n : node) : list str :=
  filter nonempty (map strip (all_strings n)).

(** [tag.get_text(strip=True)] *)
Definition get_text_strip (n : node) : str := concat (stripped_strings n).

(** [tag.get_text(separator=' ', strip=True)] *)
Definition get_text_sep (n : node) : str := join (py " ") (stripped_strings n).

(** [tag.string]: the single string under a chain of only children, of
    whatever class: a comment is a string here. *)
Fixpoint tag_string (n : node) : option str :=
  match n with
  | NavigableString s => Some s
  | SpecialString _ s => Some s
  | Tag _ _ [c] => tag_string c
  | Tag _ _ _ => None
  end.

(** The filter [string=re.compile(lit)] on a tag, for a literal [lit]. *)
Definition string_search (lit : str) (n : node) : bool :=
  match n with
  | Tag _ _ _ =>
      match tag_string n with
      | Some s => contains lit s
      | None => false
      end
  | _ => false
  end.

(** [tag.children] *)
Definition children (n : node) : list node :=
  match n with
  | Tag _ _ cs => cs
  | _ => []
  end.

End Soup.

(* ===================================================================== *)
(** * Configuration and the rate limiter *)
(* ===================================================================== *)

Module RateLimiter.
Local Open Scope float_scope.

(** Minimum and maximum seconds between requests, the backoff multiplier
    (the integer 2, which Python converts to [2.0] when it multiplies a
    float) and the number of attempts. *)
Definition MIN_DELAY : float := 1.5.
Definition MAX_DELAY : float := 3.0.
Definition BACKOFF_FACTOR : float := 2.
Definition MAX_RETRIES : nat := 5.

(** The literal [0.9] of [success]: the binary64 number nearest to 9/10. *)
Definition DECAY : float := 0x1.ccccccccccccdp-1.

(** Python's [max(a, b)] and [min(a, b)] on two arguments: the first one is
    kept unless the second is strictly greater (smaller). *)
Definition py_max (a b : float) : float := if a <? b then b else a.
Definition py_min (a b : float) : float := if b <? a then b else a.

(** The ceiling [MAX_DELAY * 10] and the floor of the delay. *)
Definition CEILING : float := MAX_DELAY * 10.
Definition FLOOR : float := MIN_DELAY.

(** [RateLimiter.__init__]: the initial delay. *)
Definition init : float := MIN_DELAY.

(** [RateLimiter.success]: [self.delay = max(MIN_DELAY, self.delay * 0.9)] *)
Definition success (delay : float) : float := py_max MIN_DELAY (delay * DECAY).

(** [RateLimiter.failure]:
    [self.delay = min(MAX_DELAY * 10, self.delay * BACKOFF_FACTOR)] *)
Definition failure (delay : float) : float :=
  py_min (MAX_DELAY * 10) (delay * BACKOFF_FACTOR).

(** The two calls a client can make. *)
Inductive call := OnSuccess | OnFailure.

Definition apply_call (delay : float) (c : call) : float :=
  match c with
  | OnSuccess => success delay
  | OnFailure => failure delay
  end.

(** The delay after a sequence of calls. *)
Definition after_calls (calls : list call) (delay : float) : float :=
  fold_left apply_call calls delay.

(** A delay between floor and ceiling. *)
Definition in_range (delay : float) : Prop :=
  (FLOOR <=? delay) = true /\ (delay <=? CEILING) = true.

(** The constants as the IEEE specification of the standard library reads
    them (mantissa and exponent): 1.5, 30, the binary64 number next to
    0.9, and 2. *)
Definition floor_sf : spec_float := S754_finite false 6755399441055744 (-52).
Definition ceiling_sf : spec_float := S754_finite false 8444249301319680 (-48).
Definition decay_sf : spec_float := S754_finite false 8106479329266893 (-53).
Definition two_sf : spec_float := S754_finite false 4503599627370496 (-51).

(** The exponent of a finite delay in the IEEE specification. *)
Definition exponent (delay : float) : Z :=
  match Prim2SF delay with
  | S754_finite _ _ e => e
  | _ => 0%Z
  end.

(** The value of a finite delay in units of [2 ^ -53]: an integer for a
    delay from 1 on. *)
Definition scaled (delay : float) : Z :=
  match Prim2SF delay with
  | S754_finite _ m e => (Zpos m * 2 ^ (e + 53))%Z
  | _ => 0%Z
  end.

(** Mantissa and exponent of a normal binary64 number between 1.5 and 30. *)
Definition between (m : positive) (e : Z) : Prop :=
  (2 ^ 52 <= Zpos m < 2 ^ 53
   /\ (-52 < e \/ (e = -52 /\ 6755399441055744 <= Zpos m))
   /\ (e < -48 \/ (e = -48 /\ Zpos m <= 8444249301319680)))%Z.

End RateLimiter.

(* ===================================================================== *)
(** * The records the scraper produces *)
(* ===================================================================== *)

Module Records.
Import PyStr.

(** A clue: plain text, or the dictionaries
    [{'type': 'image', 'url': .., 'alt': ..}] and
    [{'type': 'audio', 'url': ..}]. *)
Inductive clue :=
| ClueText (text : str)
| ClueImage (url alt : str)
| ClueAudio (url : str).

(** [{'label': .., 'clues': .., 'answer': ..}] *)
Record question := Question {
  q_label : str;
  q_clues : list clue;
  q_answer : str
}.

(** A group of a wall: [{'items': .., 'connection': ..}], or
    [{'raw_text': ..}] from the raw-text fallback. *)
Inductive wall_group :=
| Group (items : list str) (connection : str)
| RawGroup (raw_text : str).

(** [{'label': .., 'groups': ..}] *)
Record wall := Wall {
  w_label : str;
  w_groups : list wall_group
}.

(** A missing-vowels clue: [{'clue': .., 'answer': ..}]; the raw-text
    fallback can produce [{'answer': ..}] without the clue. *)
Record vowel_clue := VowelClue {
  vc_clue : option str;
  vc_answer : str
}.

(** [{'category': .., 'clues': ..}], or [{'raw_text': ..}]. *)
Inductive vowel_category :=
| Category (category : str) (clues : list vowel_clue)
| RawCategory (raw_text : str).

(** An entry of the episode list built by [get_episode_urls]. *)
Record stub := Stub {
  s_url : str;
  s_series : str;
  s_episode_number : option N;
  s_title : str
}.

(** The dictionary [parse_episode] returns. [series_number] is a key that
    may be missing. *)
Record episode := Episode {
  url : str;
  series : str;
  episode_number : option N;
  title : str;
  scraped_at : str;
  series_number : option N;
  round1 : list question;
  round2 : list question;
  round3 : list wall;
  round4 : list vowel_category
}.

(** [self.progress]: [{'completed': [..], 'failed': [..]}], two lists of
    URLs. *)
Record progress := Progress {
  completed : list str;
  failed : list str
}.

End Records.

(* ===================================================================== *)
(** * The extractors of [OCDBScraper] *)
(* ===================================================================== *)

Module Extract.
Import PyStr Soup Records.
Local Open Scope N_scope.

(** Greek letter indices (early episodes), with the symbols
    U+1D770 .. U+1D775, and Egyptian hieroglyph indices (later episodes). *)
Definition GREEK_LETTERS : list str :=
  map py ["Alpha"; "Beta"; "Gamma"; "Delta"; "Epsilon"; "Zeta"]%string.
Definition GREEK_SYMBOLS : list str :=
  [[120688]; [120689]; [120690]; [120691]; [120692]; [120693]].
Definition EGYPTIAN_GLYPHS : list str :=
  map py ["Two Reeds"; "Horned Viper"; "Lion"; "Water"; "Twisted Flax";
          "Eye of Horus"]%string.

(** The texts [extract_clues] skips in a plain clue cell. *)
Definition PLACEHOLDERS : list str :=
  map py ["Clue 2"; "Clue 3"; "Clue 4"; "?"]%string.

(** The filters of the [find] calls. *)
Definition div_class (c : string) (n : node) : bool :=
  named (py "div") n && has_class (py c) n.
Definition mp3_link (n : node) : bool :=
  named (py "a") n &&
  match get (py "href") n with
  | Some href => search_at_end (py ".mp3") href
  | None => false
  end.
Definition round_by_id (round_id : str) (n : node) : bool :=
  named (py "h2") n && attr_is (py "id") round_id n.
Definition round_by_text (lit : str) (n : node) : bool :=
  named (py "h2") n && string_search lit n.

(** [soup.find('h2', id=round_id) or soup.find('h2', string=re.compile(lit))] *)
Definition find_round_header (round_id lit : str) (soup : node) : option located :=
  or_else (find (round_by_id round_id) soup) (find (round_by_text lit) soup).

(** [current.name == 'h2' and 'Round' in current.get_text()] *)
Definition next_round (current : node) : bool :=
  named (py "h2") current && contains (py "Round") (get_text current).

Section WithPlatform.
Context {P : Platform}.

(** [clean_text] of an element. *)
Definition clean_text (element : node) : str :=
  strip (collapse_ws (unescape (get_text_sep element))).

(** What one clue cell adds to the list of [extract_clues]: the body of
    its loop, where [continue] ends the cell. *)
Definition clue_of_cell (clue_div : node) : list clue :=
  match find mp3_link clue_div with
  | Some audio_link => [ClueAudio (get_or_empty (py "href") (here audio_link))]
  | None =>
  match find (named (py "img")) clue_div with
  | Some img =>
      [ClueImage (get_or_empty (py "src") (here img))
                 (get_or_empty (py "alt") (here img))]
  | None =>
  match find (div_class "card") clue_div with
  | Some card =>
      match find (div_class "back") (here card) with
      | Some back =>
          let text := clean_text (here back) in
          if nonempty text then [ClueText text] else []
      | None => []
      end
  | None =>
      let text := clean_text clue_div in
      if nonempty text && negb (str_in text PLACEHOLDERS)
      then [ClueText text] else []
  end end end.

(** [extract_clues] *)
Definition extract_clues (container : node) : list clue :=
  flat_map (fun clue_div => clue_of_cell (here clue_div))
           (find_all (div_class "clue") container).

(** [extract_answer] *)
Definition extract_answer (container : node) : str :=
  match find (div_class "answer") container with
  | Some answer_div =>
      match find (div_class "back") (here answer_div) with
      | Some back => clean_text (here back)
      | None => clean_text (here answer_div)
      end
  | None => []
  end.

(** The first loop of the label resolution: the first Greek letter whose
    name or symbol occurs in the heading. *)
Fixpoint greek_match (pairs : list (str * str)) (label_text : str) : option str :=
  match pairs with
  | [] => None
  | (greek, symbol) :: rest =>
      if contains greek label_text || contains symbol label_text
      then Some greek
      else greek_match rest label_text
  end.

(** The second loop: the first glyph whose lowered name occurs in the
    lowered heading. *)
Fixpoint glyph_match (glyphs : list str) (label_text : str) : option str :=
  match glyphs with
  | [] => None
  | glyph :: rest =>
      if contains (lower glyph) (lower label_text)
      then Some glyph
      else glyph_match rest label_text
  end.

(** [index_label] after the two loops: the second assigns over the first. *)
Definition index_label (label_text : str) : option str :=
  let index_label := None in
  let index_label :=
    match greek_match (combine GREEK_LETTERS GREEK_SYMBOLS) label_text with
    | Some greek => Some greek
    | None => index_label
    end in
  match glyph_match EGYPTIAN_GLYPHS label_text with
  | Some glyph => Some glyph
  | None => index_label
  end.

(** [index_label or label_text] *)
Definition resolve_label (label_text : str) : str :=
  match index_label label_text with
  | Some l => if nonempty l then l else label_text
  | None => label_text
  end.

(** The [while current:] loop of [parse_connection_round], over the tag
    [current] and the siblings after it. *)
Fixpoint connection_questions (sibs : list node) : list question :=
  match sibs with
  | [] => []
  | current :: rest =>
      if negb (is_tag current) then connection_questions rest
      else if next_round current then []
      else if named (py "h3") current then
        let label_text := get_text_strip current in
        let grid := or_else (next_sibling (div_class "round") rest)
                            (next_sibling (div_class "grid-container") rest) in
        match grid with
        | Some grid =>
            Question (resolve_label label_text)
                     (extract_clues (here grid))
                     (extract_answer (here grid))
            :: connection_questions rest
        | None => connection_questions rest
        end
      else connection_questions rest
  end.

(** [parse_connection_round] *)
Definition parse_connection_round (soup : node) (round_num : N) : list question :=
  let round_id := py "round" ++ str_of_N round_num in
  match find_round_header round_id (py "Round " ++ str_of_N round_num) soup with
  | None => []
  | Some round_header => connection_questions (after round_header)
  end.

(** A match of [\s+Answer\s*] that starts at the head of [s]: its length. *)
Definition answer_marker (s : str) : option nat :=
  match s with
  | c :: _ =>
      if is_space c then
        let s1 := lstrip s in
        if startswith (py "Answer") s1
        then Some (length s - length (lstrip (skipn 6 s1)))%nat
        else None
      else None
  | [] => None
  end.

(** [re.split(r'\s+Answer\s*', text)]: [skip] characters of a match are
    still to be passed over, [part] is the piece being read. *)
Fixpoint split_on_answer (skip : nat) (part : str) (s : str) : list str :=
  match s with
  | [] => [part]
  | c :: t =>
      match skip with
      | S k => split_on_answer k part t
      | O =>
          match answer_marker s with
          | Some len => part :: split_on_answer (len - 1) [] t
          | None => split_on_answer 0 (part ++ [c]) t
          end
      end
  end.

(** The body of the loop of [parse_wall_raw_text] for one part. *)
Definition raw_group (part : str) : list wall_group :=
  let part := strip part in
  if negb (nonempty part) then []
  else
    let words := split part in
    if (5 <=? length words)%nat
    then [Group (firstn 4 words) (join (py " ") (skipn 4 words))]
    else match words with
         | [] => []
         | _ :: _ => [RawGroup part]
         end.

(** [parse_wall_raw_text] *)
Definition parse_wall_raw_text (text : str) : list wall_group :=
  flat_map raw_group (split_on_answer 0 [] text).

(** The items of group [group_num] of a wall: the texts of the clue cells
    marked with the group. *)
Definition group_items (wall_container : node) (group_num : N) : list str :=
  let group_class := py "group" ++ str_of_N group_num in
  flat_map
    (fun clue_cell =>
       match find (div_class "clue") (here clue_cell) with
       | Some clue_div =>
           let text := clean_text (here clue_div) in
           if nonempty text then [text] else []
       | None => []
       end)
    (find_all (fun n => named (py "div") n
                        && class_search (group_class ++ py "-clue") n)
              wall_container).

(** The connection of group [group_num]: the back of its answer label. *)
Definition group_connection (wall_container : node) (group_num : N) : str :=
  let group_class := py "group" ++ str_of_N group_num in
  match find (fun n => named (py "label") n
                       && has_class (group_class ++ py "-answer") n)
             wall_container with
  | Some answer_label =>
      match find (div_class "back") (here answer_label) with
      | Some back => clean_text (here back)
      | None => []
      end
  | None => []
  end.

(** The body of the loop over [group_num] in [parse_wall_round]: what the
    group adds to [groups]. *)
Definition wall_group_of (wall_container : node) (group_num : N) : list wall_group :=
  let items := group_items wall_container group_num in
  let connection := group_connection wall_container group_num in
  if nonempty items || nonempty connection
  then [Group items connection] else [].

(** The [while current:] loop of [parse_wall_round]. *)
Fixpoint wall_questions (sibs : list node) : list wall :=
  match sibs with
  | [] => []
  | current :: rest =>
      if negb (is_tag current) then wall_questions rest
      else if next_round current then []
      else if named (py "h3") current then
        let label_text := get_text_strip current in
        match next_sibling (div_class "question") rest with
        | Some question_div =>
            let groups :=
              match find (div_class "wall-container") (here question_div) with
              | Some wall_container =>
                  flat_map (wall_group_of (here wall_container)) [1; 2; 3; 4]
              | None =>
                  let text := clean_text (here question_div) in
                  if nonempty text then parse_wall_raw_text text else []
              end in
            Wall label_text groups :: wall_questions rest
        | None => wall_questions rest
        end
      else wall_questions rest
  end.

(** [parse_wall_round] *)
Definition parse_wall_round (soup : node) : list wall :=
  match find_round_header (py "round3") (py "Round 3") soup with
  | None => []
  | Some round_header => wall_questions (after round_header)
  end.

(** The variables of the category loops: [categories], [current_category]
    and [current_clues]. *)
Record vowel_acc := VowelAcc {
  categories : list vowel_category;
  current_category : str;
  current_clues : list vowel_clue
}.

(** "Save previous category if exists" / "Save last category". *)
Definition flush (a : vowel_acc) : list vowel_category :=
  if nonempty (current_category a) || nonempty (current_clues a)
  then categories a ++ [Category (current_category a) (current_clues a)]
  else categories a.

(** The body of the loop over [vowel_div.children]. *)
Definition vowel_child (a : vowel_acc) (child : node) : vowel_acc :=
  if negb (is_tag child) then a
  else if str_in (py "category") (classes child) then
    VowelAcc (flush a) (clean_text child) []
  else if str_in (py "missing-vowels") (classes child) then
    match find (div_class "card") child with
    | Some card =>
        let clue :=
          match find (div_class "front") (here card) with
          | Some front => clean_text (here front)
          | None => []
          end in
        let answer :=
          match find (div_class "back") (here card) with
          | Some back => clean_text (here back)
          | None => []
          end in
        if nonempty clue || nonempty answer
        then VowelAcc (categories a) (current_category a)
                      (current_clues a ++ [VowelClue (Some clue) answer])
        else a
    | None => a
    end
  else a.

(** The longest prefix of words that satisfy [p], and the rest: the inner
    [while j < len(words)] loops. *)
Fixpoint span_words (p : str -> bool) (ws : list str) : list str * list str :=
  match ws with
  | [] => ([], [])
  | w :: t =>
      if p w then let '(run, rest) := span_words p t in (w :: run, rest)
      else ([], ws)
  end.

(** [current_clues[-1]['answer'] = phrase] *)
Fixpoint set_last_answer (phrase : str) (clues : list vowel_clue) : list vowel_clue :=
  match clues with
  | [] => []
  | [c] => [VowelClue (vc_clue c) phrase]
  | c :: rest => c :: set_last_answer phrase rest
  end.

(** The [while i < len(words)] loop of [parse_vowels_raw_text] on the words
    from index [i] on. Each round passes over at least one word; [fuel]
    bounds the number of rounds. *)
Fixpoint vowel_words (fuel : nat) (words : list str) (a : vowel_acc) : vowel_acc :=
  match fuel, words with
  | O, _ => a
  | _, [] => a
  | S fuel', word :: rest =>
      if has_vowels word && negb (is_consonant_clue word) then
        let '(more, rest') := span_words has_vowels rest in
        let phrase := join (py " ") (word :: more) in
        let followed_by_clue :=
          match rest' with
          | next :: _ => negb (has_vowels next)
          | [] => false
          end in
        if followed_by_clue
        then vowel_words fuel' rest' (VowelAcc (flush a) phrase [])
        else vowel_words fuel' rest'
               (VowelAcc (categories a) (current_category a)
                  (if nonempty (current_clues a)
                   then set_last_answer phrase (current_clues a)
                   else current_clues a ++ [VowelClue None phrase]))
      else
        let '(more, rest') :=
          span_words (fun w => negb (has_vowels w) && is_consonant_clue w) rest in
        let clue := join (py " ") (word :: more) in
        vowel_words fuel' rest'
          (VowelAcc (categories a) (current_category a)
             (current_clues a ++ [VowelClue (Some clue) []]))
  end.

(** [parse_vowels_raw_text] *)
Definition parse_vowels_raw_text (text : str) : list vowel_category :=
  let words := split text in
  let cats := flush (vowel_words (length words) words (VowelAcc [] [] [])) in
  if nonempty cats then cats else [RawCategory text].

(** [parse_vowels_round] *)
Definition parse_vowels_round (soup : node) : list vowel_category :=
  match find_round_header (py "round4") (py "Round 4") soup with
  | None => []
  | Some round_header =>
      match find (div_class "vowel-round") soup with
      | Some vowel_div =>
          flush (fold_left vowel_child (children (here vowel_div))
                           (VowelAcc [] [] []))
      | None =>
          match next_sibling is_tag (after round_header) with
          | Some content_after_header =>
              let text := clean_text (here content_after_header) in
              if nonempty text then parse_vowels_raw_text text else []
          | None => []
          end
      end
  end.

(** The part of [parse_episode] that follows the fetch: the record built
    from the parsed page, the listing entry and the time of the scrape.
    Each of the two calls of [int] sits in a [try] whose handler is
    [pass]: when [int] raises, the key [series_number] stays absent and the
    episode number stays as the listing gave it. A number of the listing
    that is 0 counts as missing, as [None] does. *)
Definition episode_of_page (soup : node) (url : str) (metadata : stub)
    (scraped_at : str) : outcome episode :=
  let title :=
    match find (named (py "h1")) soup with
    | Some h1 => if nonempty (s_title metadata) then s_title metadata
                 else clean_text (here h1)
    | None => s_title metadata
    end in
  let meta_text :=
    match find (fun n => named (py "h2") n && has_class (py "episode_meta") n) soup with
    | Some meta_h2 => Some (clean_text (here meta_h2))
    | None => None
    end in
  let listed_number := s_episode_number metadata in
  and_then
    (match meta_text with
     | Some t =>
         match search_number (py "Series") t with
         | Some ds => try_pass (int_of_digits ds)
         | None => Returned None
         end
     | None => Returned None
     end)
    (fun series_number =>
  and_then
    (match meta_text with
     | Some t =>
         match search_number (py "Episode") t, listed_number with
         | Some ds, None | Some ds, Some 0 =>
             and_then (try_pass (int_of_digits ds))
               (fun assigned =>
                  Returned (match assigned with
                            | Some n => Some n
                            | None => listed_number
                            end))
         | _, n => Returned n
         end
     | None => Returned listed_number
     end)
    (fun episode_number =>
  Returned
    (Episode url (s_series metadata) episode_number title scraped_at
             series_number
             (parse_connection_round soup 1)
             (parse_connection_round soup 2)
             (parse_wall_round soup)
             (parse_vowels_round soup)))).

(** The loop of [get_episode_urls] over [content.find_all(['h2', 'a'])];
    [current_series] is [None] until the first series header. Nothing
    catches what [int] and [urljoin] raise: the loop ends there, and so
    does [get_episode_urls]. *)
Fixpoint listing_entries (BASE_URL : str) (current_series : option str)
    (elements : list located) : outcome (list stub) :=
  match elements with
  | [] => Returned []
  | element :: rest =>
      let el := here element in
      if named (py "h2") el then
        let text := get_text_strip el in
        if startswith (py "Series") text
        then listing_entries BASE_URL (Some text) rest
        else listing_entries BASE_URL current_series rest
      else
        match current_series with
        | Some series_text =>
            if named (py "a") el && nonempty series_text then
              let href := get_or_empty (py "href") el in
              if contains (py "/episode/") href then
                let title := get_text_strip el in
                and_then
                  (match search_number (py "Episode") title with
                   | Some ds =>
                       and_then (int_of_digits ds) (fun n => Returned (Some n))
                   | None => Returned None
                   end)
                  (fun ep_num =>
                and_then (urljoin BASE_URL href) (fun url =>
                and_then (listing_entries BASE_URL current_series rest)
                  (fun episodes =>
                Returned (Stub url series_text ep_num
                               (strip (strip_episode_prefix title))
                          :: episodes))))
              else listing_entries BASE_URL current_series rest
            else listing_entries BASE_URL current_series rest
        | None => listing_entries BASE_URL current_series rest
        end
  end.

(** The part of [get_episode_urls] that follows the fetch. *)
Definition episodes_of_listing (BASE_URL : str) (soup : node) : outcome (list stub) :=
  let content :=
    match or_else (find (div_class "episode-list") soup)
                  (find (div_class "content") soup) with
    | Some c => here c
    | None => soup
    end in
  listing_entries BASE_URL None
    (find_all (fun n => named (py "h2") n || named (py "a") n) content).

End WithPlatform.
End Extract.

(* ===================================================================== *)
(** * The scraper object, the files and the network *)
(* ===================================================================== *)

Module Scraper.
Import PyStr Soup Records Extract.

Definition BASE_URL : str := py "https://ocdb.cc".
Definition EPISODES_URL : str := BASE_URL ++ py "/episodes/".

(** What [session.get] can do: answer with a status code and a body, which
    the HTML parser turns into a tree, or raise [Timeout] or another
    [RequestException]. *)
Inductive response :=
| Http (status_code : Z) (document : node)
| Timeout
| RequestException.

(** The outside of the program during one run: the answer to the [k]-th
    request (counted from 0) for a URL, and the clock read after [k]
    requests. *)
Record world := World {
  server : nat -> str -> response;
  now : nat -> str
}.

(** The scraper object ([delay] of its rate limiter, [episodes],
    [progress]), the two files, which exist or not, and a log of what the
    program did to the outside: the URLs requested and the snapshots
    written by [save_progress], in the order of time. The time stamps of the rate
    limiter and the console output are left out. *)
Record state := State {
  delay : float;
  episodes : list episode;
  progress_now : progress;
  progress_file : option progress;
  output_file : option (list episode);
  requests : list str;
  saves : list (progress * list episode)
}.

(** A computation on the state. *)
Definition M (A : Type) : Type := state -> A * state.

Definition ret {A} (a : A) : M A := fun st => (a, st).
Definition bind {A B} (m : M A) (k : A -> M B) : M B :=
  fun st => let '(a, st') := m st in k a st'.
Definition gets {A} (f : state -> A) : M A := fun st => (f st, st).
Definition modify (f : state -> state) : M unit := fun st => (tt, f st).

Notation "x <- m ;; k" := (bind m (fun x => k))
  (at level 61, m at next level, right associativity).
Notation "m ;; k" := (bind m (fun _ => k))
  (at level 61, right associativity).

Definition set_delay (d : float) (st : state) : state :=
  State d (episodes st) (progress_now st) (progress_file st) (output_file st)
        (requests st) (saves st).

(** [OCDBScraper.__init__], in front of the files as they are. *)
Definition new_scraper (pf : option progress) (outf : option (list episode)) : state :=
  State RateLimiter.init [] (Progress [] []) pf outf [] [].

(** [RateLimiter.wait] sleeps and notes the time: nothing of the state
    kept here changes. *)
Definition wait : M unit := ret tt.

Definition rate_success : M unit :=
  modify (fun st => set_delay (RateLimiter.success (delay st)) st).
Definition rate_failure : M unit :=
  modify (fun st => set_delay (RateLimiter.failure (delay st)) st).

(** [load_progress]: each file is read if it exists. *)
Definition load_progress : M unit :=
  modify (fun st =>
    State (delay st)
          (match output_file st with Some eps => eps | None => episodes st end)
          (match progress_file st with Some p => p | None => progress_now st end)
          (progress_file st) (output_file st) (requests st) (saves st)).

(** The two writes of [save_progress]: the progress file first, then the
    output file. The log gets the snapshot when both are written. A write
    is one step: a file cut short by a stop in the middle of [json.dump]
    is not modelled. *)
Definition write_progress_file : M unit :=
  modify (fun st =>
    State (delay st) (episodes st) (progress_now st)
          (Some (progress_now st)) (output_file st)
          (requests st) (saves st)).
Definition write_output_file : M unit :=
  modify (fun st =>
    State (delay st) (episodes st) (progress_now st)
          (progress_file st) (Some (episodes st))
          (requests st) (saves st ++ [(progress_now st, episodes st)])).

(** [save_progress] *)
Definition save_progress : M unit :=
  write_progress_file ;; write_output_file.

(** [self.episodes.append(episode)] and
    [self.progress['completed'].append(url)] *)
Definition record_completed (e : episode) (u : str) : M unit :=
  modify (fun st =>
    State (delay st) (episodes st ++ [e])
          (Progress (completed (progress_now st) ++ [u]) (failed (progress_now st)))
          (progress_file st) (output_file st) (requests st) (saves st)).

(** [self.progress['failed'].append(url)] *)
Definition record_failed (u : str) : M unit :=
  modify (fun st =>
    State (delay st) (episodes st)
          (Progress (completed (progress_now st)) (failed (progress_now st) ++ [u]))
          (progress_file st) (output_file st) (requests st) (saves st)).

Section WithWorld.
Context {P : Platform}.
Variable W : world.

(** [self.session.get(url, timeout=30)] *)
Definition http_get (u : str) : M response :=
  fun st =>
    (server W (length (requests st)) u,
     State (delay st) (episodes st) (progress_now st) (progress_file st)
           (output_file st) (requests st ++ [u]) (saves st)).

(** The loop of [fetch_page] with [attempts] attempts left. *)
Fixpoint fetch_attempts (attempts : nat) (u : str) : M (option node) :=
  match attempts with
  | O => ret None
  | S remaining =>
      wait ;;
      response <- http_get u ;;
      match response with
      | Http status_code document =>
          if (status_code =? 200)%Z then
            rate_success ;; ret (Some document)
          else if (status_code =? 429)%Z then
            rate_failure ;; fetch_attempts remaining u
          else if (status_code >=? 500)%Z then
            rate_failure ;; fetch_attempts remaining u
          else ret None
      | Timeout => rate_failure ;; fetch_attempts remaining u
      | RequestException => rate_failure ;; fetch_attempts remaining u
      end
  end.

(** [fetch_page] *)
Definition fetch_page (u : str) : M (option node) :=
  fetch_attempts RateLimiter.MAX_RETRIES u.

(** [get_episode_urls]: what building the list raises goes to the
    caller. *)
Definition get_episode_urls : M (outcome (list stub)) :=
  soup <- fetch_page EPISODES_URL ;;
  match soup with
  | None => ret (Returned [])
  | Some soup => ret (episodes_of_listing BASE_URL soup)
  end.

(** [parse_episode]. The test [if not soup] holds for [None] only: a parsed
    document is true whatever it contains. *)
Definition parse_episode (u : str) (metadata : stub) : M (outcome (option episode)) :=
  soup <- fetch_page u ;;
  match soup with
  | None => ret (Returned None)
  | Some soup =>
      scraped_at <- gets (fun st => now W (length (requests st))) ;;
      ret (and_then (episode_of_page soup u metadata scraped_at)
                    (fun episode => Returned (Some episode)))
  end.

(** The body of the loop of [run] for the entry at index [i]: the [try]
    around [parse_episode] with its handler [except Exception], which
    records the URL as failed too, and the periodic save. *)
Definition scrape_one (i : nat) (ep_info : stub) : M unit :=
  episode <- parse_episode (s_url ep_info) ep_info ;;
  match episode with
  | Returned (Some episode) => record_completed episode (s_url ep_info)
  | Returned None => record_failed (s_url ep_info)
  | Raised => record_failed (s_url ep_info)
  end ;;
  if ((i + 1) mod 10 =? 0)%nat then save_progress else ret tt.

(** [for i, ep_info in enumerate(to_scrape)], from index [i]. *)
Fixpoint scrape_from (i : nat) (to_scrape : list stub) : M unit :=
  match to_scrape with
  | [] => ret tt
  | ep_info :: rest => scrape_one i ep_info ;; scrape_from (S i) rest
  end.

(** The work list of [run]: the listing without the completed URLs when
    resuming, then cut to [max_episodes] when that is given and not 0. *)
Definition work_list (max_episodes : option Z) (resume : bool)
    (completed_urls : list str) (episode_list : list stub) : list stub :=
  let to_scrape :=
    if resume
    then filter (fun ep => negb (str_in (s_url ep) completed_urls)) episode_list
    else episode_list in
  match max_episodes with
  | Some m => if (m =? 0)%Z then to_scrape else slice_to m to_scrape
  | None => to_scrape
  end.

(** [run], with its last statement, the final save, as a parameter. The
    call of [get_episode_urls] is outside the [try] of the loop: what it
    raises ends [run], and [main] with it, before any episode is asked
    for and before any save. *)
Definition run_ending (final_save : M unit) (max_episodes : option Z)
    (resume : bool) : M (outcome unit) :=
  (if resume then load_progress else ret tt) ;;
  episode_list <- get_episode_urls ;;
  match episode_list with
  | Raised => ret Raised
  | Returned episode_list =>
      if negb (nonempty episode_list) then ret (Returned tt)
      else
        completed_urls <- gets (fun st => completed (progress_now st)) ;;
        scrape_from 0 (work_list max_episodes resume completed_urls episode_list) ;;
        final_save ;;
        ret (Returned tt)
  end.

(** [run] *)
Definition run : option Z -> bool -> M (outcome unit) :=
  run_ending save_progress.

(** What [get_episode_urls] gives at the start of an execution. *)
Definition listed : outcome (list stub) :=
  fst (get_episode_urls (new_scraper None None)).

(** The episode list [run] goes on with: none when building it raised. *)
Definition listing : list stub := returned_or [] listed.

(** One execution of the program ([main]): a new scraper in front of the
    files left by the previous executions, and one [run]. *)
Definition session (max_episodes : option Z) (resume : bool)
    (pf : option progress) (outf : option (list episode)) : state :=
  snd (run max_episodes resume (new_scraper pf outf)).

(** An execution that is stopped inside its final save, when the progress
    file is written and the output file is not yet: nothing catches the
    interrupt. *)
Definition torn_session (max_episodes : option Z) (resume : bool)
    (pf : option progress) (outf : option (list episode)) : state :=
  snd (run_ending write_progress_file max_episodes resume (new_scraper pf outf)).

(** [main] after the command line is read: [--test] sets the cap to 3
    whatever [--max] says, [--no-resume] turns resuming off. The check that
    the libraries can be imported is left out. *)
Definition main (arg_max : option Z) (no_resume test : bool)
    (pf : option progress) (outf : option (list episode)) : state :=
  session (if test then Some 3%Z else arg_max) (negb no_resume) pf outf.

End WithWorld.
End Scraper.

(* ===================================================================== *)
(** * Pages, servers and a platform for the examples *)
(* ===================================================================== *)

Module Fixtures.
Import PyStr Soup Records Extract Scraper.
Local Open Scope string_scope.

(** The examples use ASCII texts without ampersand and links that are
    absolute paths, which [urljoin] appends to the base URL: the open part
    of the platform is not exercised. The limit on the digits of an
    integer is the default one. *)
Definition example_platform : Platform :=
  {| unicode_lower := fun s => s;
     unicode_digit := fun _ => None;
     replace_charrefs := fun s => s;
     urljoin := fun base href => Returned (base ++ href)%list;
     max_str_digits := 4300 |}.

Definition el (name : string) (attrs : list (string * string)) (cs : list node) : node :=
  Tag (py name) (map (fun kv => (py (fst kv), py (snd kv))) attrs) cs.
Definition txt (s : string) : node := NavigableString (py s).
Definition page (cs : list node) : node := Tag (py "[document]") [] cs.

(** A server that answers the [k]-th request with the [k]-th entry of a
    script, whatever the URL, and with 404 once the script is over. *)
Definition scripted (answers : list response) : world :=
  World (fun k _ => nth k answers (Http 404 (page []))) (fun _ => py "2024-01-01T00:00:00").

(** An episode URL, and a parsed page without content. *)
Definition episode_1 : str := py "https://ocdb.cc/episode/1".
Definition blank : node := page [].

(** A listing with one series header and the given episode links. *)
Definition link (href title : string) : node :=
  el "a" [("href", href)] [txt title].
Definition listing_page (links : list node) : node :=
  page [el "div" [("class", "episode-list")]
          (el "h2" [] [txt "Series 1"] :: links)].
Definition one_link : node := listing_page [link "/episode/1" "Episode 1: Pilot"].

(** The entry of the listing [one_link]. *)
Definition pilot : stub :=
  Stub episode_1 (py "Series 1") (Some 1%N) (py "Pilot").

(** Three servers: one fails twice and then answers, one rejects with
    404, one answers 500 to every request. *)
Definition flaky : world :=
  scripted [Http 429 blank; Http 500 blank; Http 200 one_link].
Definition missing : world := scripted [Http 404 blank].
Definition broken : world := World (fun _ _ => Http 500 blank) (now missing).

(** Two servers that give the same listing and then fail the episode page,
    the first by a 404, the second by answering 503 to every attempt. *)
Definition episode_rejected : world :=
  scripted [Http 200 one_link; Http 404 blank].
Definition episode_exhausted : world :=
  scripted [Http 200 one_link; Http 503 blank; Http 503 blank; Http 503 blank;
            Http 503 blank; Http 503 blank].

(** A clue cell with an audio link only, a plain cell with a placeholder,
    and a cell whose card shows the same placeholder on its back. *)
Definition audio_cell : node :=
  el "div" [("class", "clue")] [el "a" [("href", "/audio/q1.mp3")] []].
Definition placeholder_cell : node :=
  el "div" [("class", "clue")] [txt "Clue 3"].
Definition card_cell : node :=
  el "div" [("class", "clue")]
     [el "div" [("class", "card")]
         [el "div" [("class", "back")] [txt "Clue 3"]]].

(** A wall whose container holds three groups with four items and a
    connection each, and a fourth group with no item cell and an empty
    connection. *)
Definition wall_cell (group item : string) : node :=
  el "div" [("class", group ++ "-clue")] [el "div" [("class", "clue")] [txt item]].
Definition wall_answer (group connection : string) : node :=
  el "label" [("class", group ++ "-answer")]
     [el "div" [("class", "back")] [txt connection]].
Definition full_group (group connection : string) (items : list string) : list node :=
  map (wall_cell group) items ++ [wall_answer group connection].
Definition malformed_container : node :=
  el "div" [("class", "wall-container")]
     (full_group "group1" "Rivers" ["Thames"; "Severn"; "Trent"; "Tyne"]
      ++ full_group "group2" "Planets" ["Mars"; "Venus"; "Saturn"; "Neptune"]
      ++ full_group "group3" "Metals" ["Iron"; "Zinc"; "Gold"; "Lead"]
      ++ [wall_answer "group4" ""])%list.
Definition malformed_wall : node :=
  page [el "h2" [("id", "round3")] [txt "Round 3"];
        el "h3" [] [txt "Lion"];
        el "div" [("class", "question")] [malformed_container]].

(** A server that answers with a page without content. *)
Definition serving_blank : world := scripted [Http 200 blank].

Definition twice_linked : node :=
  listing_page [link "/episode/1" "Episode 1: Pilot";
                link "/episode/1" "Episode 1: Pilot"].
Definition duplicated : world :=
  scripted [Http 200 twice_linked; Http 200 blank; Http 200 blank].

(** A listing of twelve episodes on a server that rejects the first
    episode page and answers the eleven others. *)
Definition numbered_link (n : nat) : node :=
  let k := NilZero.string_of_uint (Nat.to_uint n) in
  link ("/episode/" ++ k) ("Episode " ++ k ++ ": Quiz").
Definition twelve_links : node := listing_page (map numbered_link (seq 1 12)).
Definition first_rejected : world :=
  scripted (Http 200 twelve_links :: Http 404 blank :: repeat (Http 200 blank) 11).

(** The progress file after both episodes of [two_links] are completed. *)
Definition both_done : progress :=
  Progress [episode_1; py "https://ocdb.cc/episode/2"] [].


(** A listing of two episodes, the first of which is already completed in
    the progress file. *)
Definition two_links : node := listing_page (map numbered_link (seq 1 2)).
Definition second_only : world := scripted [Http 200 two_links; Http 200 blank].
Definition first_done : progress := Progress [episode_1] [].

(** A server that gives the listing of two episodes and answers both
    episode pages. *)
Definition both_served : world :=
  scripted [Http 200 two_links; Http 200 blank; Http 200 blank].

(** A number of 4301 digits, one more than [int] converts. *)
Definition overlong : str := repeat 49%N 4301.


(** A listing whose second link carries such a number in its title, on a
    server that would answer every episode page. *)
Definition overlong_links : node :=
  listing_page
    [link "/episode/1" "Episode 1: Pilot";
     Tag (py "a") [(py "href", py "/episode/2")]
         [NavigableString (py "Episode " ++ overlong ++ py ": Quiz")%list]].
Definition overlong_listing : world :=
  scripted [Http 200 overlong_links; Http 200 blank; Http 200 blank].

(** A page with the heading of round 1 and a question under it, and the
    same page with a comment after the text of the heading. *)
Definition plain_heading : node :=
  page [Tag (py "h2") [] [NavigableString (py "Round 1")];
        el "h3" [] [txt "Alpha"];
        el "div" [("class", "round")] []].
Definition commented_heading : node :=
  page [Tag (py "h2") []
            [NavigableString (py "Round 1"); SpecialString Comment (py " quiz ")];
        el "h3" [] [txt "Alpha"];
        el "div" [("class", "round")] []].

End Fixtures.

(* ===================================================================== *)
(** * Notions the statements use *)
(* ===================================================================== *)

Module Notions.
Import PyStr Soup Records Extract Scraper.

(** How [fetch_page] classifies an answer that is not a success: it tries
    again, or it gives up at once. *)
Definition retried (r : response) : bool :=
  match r with
  | Http c _ => negb (c =? 200)%Z && ((c =? 429)%Z || (c >=? 500)%Z)
  | Timeout | RequestException => true
  end.

Definition rejected (r : response) : bool :=
  match r with
  | Http c _ => negb (c =? 200)%Z && negb (c =? 429)%Z && negb (c >=? 500)%Z
  | Timeout | RequestException => false
  end.

(** The two tags the specification gives to a failed fetch. *)
Inductive failure_tag := FetchExhausted | FetchRejected.

(** A computation that touched nothing but the delay, and requested the
    URLs [extra]. *)
Definition only_fetched (before after : state) (extra : list str) : Prop :=
  episodes after = episodes before /\
  progress_now after = progress_now before /\
  progress_file after = progress_file before /\
  output_file after = output_file before /\
  saves after = saves before /\
  requests after = requests before ++ extra.


(** The stored progress and records, read as [load_progress] reads them
    into a new scraper. *)
Definition stored_completed (pf : option progress) : list str :=
  match pf with Some p => completed p | None => [] end.
Definition stored_episodes (outf : option (list episode)) : list episode :=
  match outf with Some eps => eps | None => [] end.

(** No two records share their source URL. *)
Definition unique_urls (eps : list episode) : Prop := NoDup (map url eps).

(** The files hold records with distinct URLs, all marked completed. *)
Definition store_ok (pf : option progress) (outf : option (list episode)) : Prop :=
  unique_urls (stored_episodes outf) /\
  incl (map url (stored_episodes outf)) (stored_completed pf).

(** The files a sequence of executions can leave, when every listing
    names each episode URL once and no execution is stopped inside a save.
    An execution runs to its end (or ends where [get_episode_urls]
    raises), or it is stopped outside [save_progress] and leaves the files
    as the last of its saves wrote them. *)
Inductive reachable {P : Platform} : option progress -> option (list episode) -> Prop :=
| reach_start : reachable None None
| reach_session : forall pf outf W max_episodes resume,
    reachable pf outf ->
    NoDup (map s_url (listing W)) ->
    reachable (progress_file (session W max_episodes resume pf outf))
              (output_file (session W max_episodes resume pf outf))
| reach_interrupted : forall pf outf W max_episodes resume snap,
    reachable pf outf ->
    NoDup (map s_url (listing W)) ->
    In snap (saves (session W max_episodes resume pf outf)) ->
    reachable (Some (fst snap)) (Some (snd snap)).



(** A group of a wall with an item or a connection. *)
Definition populated {P : Platform} (wall_container : node) (group_num : N) : bool :=
  nonempty (group_items wall_container group_num)
  || nonempty (group_connection wall_container group_num).

(** The scraper as [run] finds it after the optional [load_progress]. *)
Definition loaded (resume : bool) (pf : option progress)
    (outf : option (list episode)) : state :=
  if resume then snd (load_progress (new_scraper pf outf))
  else new_scraper pf outf.

(** The records in memory have distinct URLs, all marked completed. *)
Definition memory_ok (st : state) : Prop :=
  unique_urls (episodes st) /\
  incl (map url (episodes st)) (completed (progress_now st)).

(** The invariant of a crawl: the records in memory, every snapshot
    written so far and the files are free of duplicates. *)
Definition crawl_ok (st : state) : Prop :=
  memory_ok st /\
  Forall (fun snap => store_ok (Some (fst snap)) (Some (snd snap))) (saves st) /\
  store_ok (progress_file st) (output_file st).

(** The state after the fetch and the bookkeeping of one entry of the work
    list, before the periodic save. *)
Definition booked {P : Platform} (W : world) (ep_info : stub) (st : state) : state :=
  let st1 := snd (fetch_page W (s_url ep_info) st) in
  match fst (parse_episode W (s_url ep_info) ep_info st) with
  | Returned (Some e) => snd (record_completed e (s_url ep_info) st1)
  | Returned None | Raised => snd (record_failed (s_url ep_info) st1)
  end.

End Notions.

(* ===================================================================== *)
(** * Further notions *)
(* ===================================================================== *)

Module MoreNotions.
Import PyStr Soup Records Extract Scraper Notions.
Local Open Scope N_scope.

(** A word as [str.split] gives it: not empty, without whitespace. *)
Definition is_word (w : str) : Prop :=
  w <> [] /\ forallb (fun c => negb (is_space c)) w = true.

(** Every whitespace character is a single space between two characters
    that are not whitespace, or at an end of the string. *)
Fixpoint single_spaced (s : str) : bool :=
  match s with
  | [] => true
  | c :: t =>
      (if is_space c
       then (c =? 32) && match t with
                         | c' :: _ => negb (is_space c')
                         | [] => true
                         end
       else true)
      && single_spaced t
  end.

(** No whitespace at the start. *)
Definition starts_clean (s : str) : bool :=
  match s with
  | c :: _ => negb (is_space c)
  | [] => true
  end.

(** No whitespace at either end. *)
Definition trimmed (s : str) : bool := starts_clean s && starts_clean (rev s).

(** What a group of the raw-text fallback of the wall looks like. *)
Definition raw_group_ok (g : wall_group) : Prop :=
  match g with
  | Group items connection =>
      length items = 4%nat /\ Forall is_word items /\ connection <> []
  | RawGroup text => text <> [] /\ (length (split text) < 5)%nat
  end.

Definition is_category (g : vowel_category) : bool :=
  match g with
  | Category _ _ => true
  | RawCategory _ => false
  end.

(** The clues of a list of categories, in order. *)
Definition all_clues (cats : list vowel_category) : list vowel_clue :=
  flat_map (fun g => match g with
                     | Category _ clues => clues
                     | RawCategory _ => []
                     end) cats.

(** A clue with its puzzle text and no answer yet. *)
Definition open_clue (c : vowel_clue) : Prop :=
  vc_answer c = [] /\ vc_clue c <> None.

(** A clue that holds some text: a puzzle that is not empty or an answer. *)
Definition clue_filled (c : vowel_clue) : Prop :=
  (exists q, vc_clue c = Some q /\ q <> []) \/ vc_answer c <> [].

(** A category that holds something, with clues that hold something. *)
Definition category_filled (g : vowel_category) : Prop :=
  match g with
  | Category name clues =>
      (name <> [] \/ clues <> []) /\ Forall clue_filled clues
  | RawCategory text => text <> []
  end.

(** The loop of a category parser has recorded or begun something. *)
Definition started (a : vowel_acc) : bool :=
  nonempty (categories a) || nonempty (current_category a)
  || nonempty (current_clues a).

(** One round of the loop of [parse_vowels_raw_text] on the word at index
    [i] and the words after it: the words from the new index on, and the
    variables after the round. *)
Definition vowel_round (word : str) (rest : list str) (a : vowel_acc)
    : list str * vowel_acc :=
  if has_vowels word && negb (is_consonant_clue word) then
    let '(more, rest') := span_words has_vowels rest in
    let phrase := join (py " ") (word :: more) in
    let followed_by_clue :=
      match rest' with
      | next :: _ => negb (has_vowels next)
      | [] => false
      end in
    if followed_by_clue
    then (rest', VowelAcc (flush a) phrase [])
    else (rest',
          VowelAcc (categories a) (current_category a)
            (if nonempty (current_clues a)
             then set_last_answer phrase (current_clues a)
             else current_clues a ++ [VowelClue None phrase]))
  else
    let '(more, rest') :=
      span_words (fun w => negb (has_vowels w) && is_consonant_clue w) rest in
    let clue := join (py " ") (word :: more) in
    (rest',
     VowelAcc (categories a) (current_category a)
       (current_clues a ++ [VowelClue (Some clue) []])).

(** A clue that is not an empty text, and an audio clue whose address
    matches the pattern of the audio link. *)
Definition clue_sound (c : clue) : Prop :=
  match c with
  | ClueText text => text <> []
  | ClueAudio address => search_at_end (py ".mp3") address = true
  | ClueImage _ _ => True
  end.

(** A group of a wall that holds something: no item is empty, and there
    is an item or a connection; a raw group holds text. *)
Definition group_sound (g : wall_group) : Prop :=
  match g with
  | Group items connection =>
      Forall (fun item => item <> []) items /\ (items <> [] \/ connection <> [])
  | RawGroup text => text <> []
  end.

(** All clues are open. *)
Definition all_open (a : vowel_acc) : Prop :=
  Forall open_clue (all_clues (categories a)) /\ Forall open_clue (current_clues a).

(** All clues but the one read last are open. *)
Definition open_but_last (a : vowel_acc) : Prop :=
  Forall open_clue (all_clues (categories a))
  /\ Forall open_clue (removelast (current_clues a)).

(** Every record holds something. *)
Definition all_filled (a : vowel_acc) : Prop :=
  Forall category_filled (categories a) /\ Forall clue_filled (current_clues a).

(** An entry of the episode list as [get_episode_urls] builds it: under a
    series header, from a link to an episode. *)
Definition stub_sound {P : Platform} (s : stub) : Prop :=
  startswith (py "Series") (s_series s) = true
  /\ (exists href, urljoin BASE_URL href = Returned (s_url s)
                   /\ contains (py "/episode/") href = true)
  /\ trimmed (s_title s) = true.

(** The sub-headings among the siblings of a round heading. *)
Definition count_h3 (sibs : list node) : nat :=
  length (filter (named (py "h3")) sibs).

(** The siblings before the heading of the next round. *)
Fixpoint until_next_round (sibs : list node) : list node :=
  match sibs with
  | [] => []
  | current :: rest =>
      if next_round current then [] else current :: until_next_round rest
  end.

(** The log of a loop that asks for each URL a number of times in a row. *)
Definition blocks (urls : list str) (times : list nat) : list str :=
  concat (map (fun ut => repeat (fst ut) (snd ut)) (combine urls times)).

(** The work list of an execution: what [run] computes from the listing,
    the flags and the completed URLs of the progress file. *)
Definition planned {P : Platform} (W : world) (max_episodes : option Z)
    (resume : bool) (pf : option progress) : list stub :=
  work_list max_episodes resume (stored_completed pf) (listing W).


(** The records and the completed URLs go together: the [i]-th record
    has the [i]-th completed URL. *)
Definition aligned (pf : option progress) (outf : option (list episode)) : Prop :=
  map url (stored_episodes outf) = stored_completed pf.

End MoreNotions.

(* ===================================================================== *)
(** * Theory: strings and lists *)
(* ===================================================================== *)

Module PyStrFacts.
Import PyStr.

Lemma str_eqb_eq (a b : str) : str_eqb a b = true <-> a = b.
Proof.
  revert b; induction a as [|x a IH]; intros [|y b]; simpl; split;
    try congruence; try reflexivity.
  - rewrite andb_true_iff, N.eqb_eq, IH. intros [-> ->]; reflexivity.
  - intros H; inversion H; subst. rewrite N.eqb_refl.
    now apply IH.
Qed.

Lemma str_eqb_refl (a : str) : str_eqb a a = true.
Proof. now apply str_eqb_eq. Qed.

Lemma str_in_In (x : str) (l : list str) : str_in x l = true <-> In x l.
Proof.
  unfold str_in. rewrite existsb_exists. split.
  - intros (y & Hy & E). apply str_eqb_eq in E. now subst.
  - intros H. exists x. split; [assumption | apply str_eqb_refl].
Qed.

Lemma str_in_false (x : str) (l : list str) : str_in x l = false <-> ~ In x l.
Proof.
  rewrite <- str_in_In. destruct (str_in x l); split; congruence.
Qed.

Lemma firstn_In {A} (n : nat) (l : list A) (x : A) : In x (firstn n l) -> In x l.
Proof.
  intros H. rewrite <- (firstn_skipn n l). apply in_or_app. now left.
Qed.

Lemma slice_to_incl {A} (m : Z) (l : list A) : incl (slice_to m l) l.
Proof.
  unfold slice_to. destruct (0 <=? m)%Z; intros x Hx; eapply firstn_In, Hx.
Qed.

Lemma firstn_NoDup {A} (n : nat) (l : list A) : NoDup l -> NoDup (firstn n l).
Proof.
  revert n; induction l as [|a l IH]; intros [|n] H; simpl; try constructor.
  - inversion H; subst. intros Hin. now apply firstn_In in Hin.
  - inversion H; subst. now apply IH.
Qed.

Lemma slice_to_map {A B} (f : A -> B) (m : Z) (l : list A) :
  map f (slice_to m l) = slice_to m (map f l).
Proof.
  unfold slice_to. rewrite length_map. destruct (0 <=? m)%Z; symmetry; apply firstn_map.
Qed.

Lemma slice_to_NoDup {A} (m : Z) (l : list A) : NoDup l -> NoDup (slice_to m l).
Proof.
  unfold slice_to. destruct (0 <=? m)%Z; apply firstn_NoDup.
Qed.

End PyStrFacts.

(* ===================================================================== *)
(** * Theory: the fetch client *)
(* ===================================================================== *)

Module FetchSpec.
Import PyStr Soup Records Scraper Notions Fixtures.

Ltac run_step :=
  unfold bind, ret, modify, gets, http_get, wait, rate_success, rate_failure,
    set_delay; simpl.

Lemma only_fetched_refl (st : state) : only_fetched st st [].
Proof. unfold only_fetched. rewrite app_nil_r. repeat split. Qed.

Lemma only_fetched_set_delay (st : state) (d : float) (extra : list str) :
  only_fetched st
    (State d (episodes st) (progress_now st) (progress_file st)
           (output_file st) (requests st ++ extra) (saves st)) extra.
Proof. unfold only_fetched; simpl; repeat split. Qed.

Lemma only_fetched_trans (a b c : state) (x y : list str) :
  only_fetched a b x -> only_fetched b c y -> only_fetched a c (x ++ y).
Proof.
  unfold only_fetched.
  intros (E1 & E2 & E3 & E4 & E5 & E6) (F1 & F2 & F3 & F4 & F5 & F6).
  rewrite F1, F2, F3, F4, F5, F6, E1, E2, E3, E4, E5, E6, app_assoc.
  repeat split.
Qed.

Section WithWorld.
Variable W : world.

(** One more attempt after an answer that is tried again. *)
Lemma fetch_attempts_retry (n : nat) (u : str) (st : state) :
  retried (server W (length (requests st)) u) = true ->
  fetch_attempts W (S n) u st =
  fetch_attempts W n u
    (State (RateLimiter.failure (delay st)) (episodes st) (progress_now st)
           (progress_file st) (output_file st) (requests st ++ [u]) (saves st)).
Proof.
  intros H. simpl. run_step.
  destruct (server W (length (requests st)) u) as [c d| |]; simpl in H;
    try reflexivity.
  destruct (c =? 200)%Z; [discriminate|].
  destruct (c =? 429)%Z; [reflexivity|].
  destruct (c >=? 500)%Z; [reflexivity|discriminate].
Qed.

(** An answer that is neither a success nor tried again ends the fetch. *)
Lemma fetch_attempts_reject (n : nat) (u : str) (st : state) :
  rejected (server W (length (requests st)) u) = true ->
  fetch_attempts W (S n) u st =
  (None,
   State (delay st) (episodes st) (progress_now st)
         (progress_file st) (output_file st) (requests st ++ [u]) (saves st)).
Proof.
  intros H. simpl. run_step.
  destruct (server W (length (requests st)) u) as [c d| |]; simpl in H;
    try discriminate.
  destruct (c =? 200)%Z; [discriminate|].
  destruct (c =? 429)%Z; [discriminate|].
  destruct (c >=? 500)%Z; [discriminate|reflexivity].
Qed.

(** A 200 ends the fetch with the parsed body. *)
Lemma fetch_attempts_ok (n : nat) (u : str) (st : state) (doc : node) :
  server W (length (requests st)) u = Http 200 doc ->
  fetch_attempts W (S n) u st =
  (Some doc,
   State (RateLimiter.success (delay st)) (episodes st) (progress_now st)
         (progress_file st) (output_file st) (requests st ++ [u]) (saves st)).
Proof. intros H. simpl. run_step. rewrite H. reflexivity. Qed.

(** Every answer falls in exactly one of the three classes. *)
Lemma response_cases (r : response) :
  (exists doc, r = Http 200 doc) \/ retried r = true \/ rejected r = true.
Proof.
  destruct r as [c d| |]; simpl; auto.
  destruct (c =? 200)%Z eqn:E.
  - left. apply Z.eqb_eq in E. subst. now exists d.
  - right. simpl. destruct (c =? 429)%Z; simpl; auto.
    destruct (c >=? 500)%Z; auto.
Qed.

(** The fetch loop asks for its URL at most [n] times and touches nothing
    but the delay. *)
Lemma fetch_attempts_log (n : nat) (u : str) (st : state) :
  exists k, k <= n /\
    only_fetched st (snd (fetch_attempts W n u st)) (repeat u k).
Proof.
  revert st; induction n as [|n IH]; intros st.
  - exists 0. split; [lia | apply only_fetched_refl].
  - destruct (response_cases (server W (length (requests st)) u))
      as [[doc E] | [E | E]].
    + rewrite (fetch_attempts_ok _ _ _ E). exists 1. split; [lia|].
      apply only_fetched_set_delay.
    + rewrite (fetch_attempts_retry _ _ _ E).
      destruct (IH (State (RateLimiter.failure (delay st)) (episodes st)
                          (progress_now st) (progress_file st) (output_file st)
                          (requests st ++ [u]) (saves st))) as (k & Hk & F).
      exists (S k). split; [lia|].
      change (repeat u (S k)) with ([u] ++ repeat u k).
      eapply only_fetched_trans; [apply only_fetched_set_delay | exact F].
    + rewrite (fetch_attempts_reject _ _ _ E). exists 1. split; [lia|].
      apply only_fetched_set_delay.
Qed.

Lemma fetch_page_log (u : str) (st : state) :
  exists k, k <= 5 /\ only_fetched st (snd (fetch_page W u st)) (repeat u k).
Proof. apply (fetch_attempts_log RateLimiter.MAX_RETRIES). Qed.

(** When every answer is tried again, the loop ends empty-handed after all
    its attempts. *)
Lemma fetch_attempts_exhaust (n : nat) (u : str) (st : state) :
  (forall k, k < n -> retried (server W (length (requests st) + k) u) = true) ->
  fst (fetch_attempts W n u st) = None /\
  requests (snd (fetch_attempts W n u st)) = requests st ++ repeat u n.
Proof.
  revert st; induction n as [|n IH]; intros st H.
  - simpl. now rewrite app_nil_r.
  - rewrite fetch_attempts_retry.
    2:{ specialize (H 0). rewrite Nat.add_0_r in H. apply H. lia. }
    match goal with |- context [fetch_attempts W n u ?s] =>
      destruct (IH s) as [R1 R2] end.
    + intros k Hk. simpl. rewrite length_app. simpl.
      replace (length (requests st) + 1 + k) with (length (requests st) + S k) by lia.
      apply H. lia.
    + split; [exact R1|]. rewrite R2. simpl. now rewrite <- app_assoc.
Qed.

End WithWorld.

(** C1. [fetch_page] asks for the URL at most 5 times. When the answers
    are 429, 500 and 200 it asks exactly 3 times and returns the parsed
    document. When the first answer has a status other than 200, 429 and
    500 or more (a 404, say) it asks exactly once and returns [None]
    without trying again. *)
Theorem fetch_page_request_count (W : world) (u : str) (st : state) :
  (exists k, k <= 5 /\
     requests (snd (fetch_page W u st)) = requests st ++ repeat u k)
  /\ (forall d0 d1 doc,
        server W (length (requests st)) u = Http 429 d0 ->
        server W (length (requests st) + 1) u = Http 500 d1 ->
        server W (length (requests st) + 2) u = Http 200 doc ->
        fst (fetch_page W u st) = Some doc /\
        requests (snd (fetch_page W u st)) = requests st ++ [u; u; u])
  /\ (forall c doc,
        server W (length (requests st)) u = Http c doc ->
        c <> 200%Z -> c <> 429%Z -> (c < 500)%Z ->
        fst (fetch_page W u st) = None /\
        requests (snd (fetch_page W u st)) = requests st ++ [u]).
Proof.
  split; [|split].
  - destruct (fetch_page_log W u st) as (k & Hk & F).
    exists k. split; [exact Hk | apply F].
  - intros d0 d1 doc E0 E1 E2. unfold fetch_page, RateLimiter.MAX_RETRIES.
    rewrite fetch_attempts_retry by (rewrite E0; reflexivity).
    rewrite fetch_attempts_retry
      by (simpl; rewrite length_app; simpl; rewrite E1; reflexivity).
    erewrite fetch_attempts_ok.
    2:{ simpl. rewrite !length_app. simpl. rewrite <- Nat.add_assoc. exact E2. }
    simpl. split; [reflexivity|]. now rewrite <- !app_assoc.
  - intros c doc E H200 H429 H500. unfold fetch_page, RateLimiter.MAX_RETRIES.
    rewrite fetch_attempts_reject; [split; reflexivity|].
    rewrite E. simpl.
    apply Z.eqb_neq in H200, H429. rewrite H200, H429. simpl.
    unfold Z.geb. destruct (c ?= 500)%Z eqn:Cmp; try reflexivity.
    + apply Z.compare_eq in Cmp. lia.
    + apply Z.compare_gt_iff in Cmp. lia.
Qed.

(** The two scripts: 429, 500, 200 and a single 404. *)
Lemma fetch_page_request_count_witness :
  (fst (fetch_page flaky episode_1 (new_scraper None None)) = Some one_link /\
   requests (snd (fetch_page flaky episode_1 (new_scraper None None)))
   = [] ++ [episode_1; episode_1; episode_1])
  /\ (fst (fetch_page missing episode_1 (new_scraper None None)) = None /\
      requests (snd (fetch_page missing episode_1 (new_scraper None None)))
      = [] ++ [episode_1]).
Proof.
  split.
  - apply (proj1 (proj2 (fetch_page_request_count flaky episode_1
                           (new_scraper None None))) blank blank one_link);
      reflexivity.
  - apply (proj2 (proj2 (fetch_page_request_count missing episode_1
                           (new_scraper None None))) 404%Z blank);
      [reflexivity | discriminate | discriminate | reflexivity].
Defined.

End FetchSpec.

(* ===================================================================== *)
(** * Theory: the crawl *)
(* ===================================================================== *)

Module RunSpec.
Import PyStr PyStrFacts Soup Records Extract Scraper Notions Fixtures FetchSpec.

Section WithWorld.
Context {P : Platform}.
Variable W : world.

(** The extraction returns a record whatever the page: of its calls only
    [int] can raise, and what [int] raises is caught where it is called. *)
Lemma episode_of_page_returns (soup : node) (u : str) (metadata : stub)
    (scraped_at : str) :
  exists e,
    episode_of_page soup u metadata scraped_at = Returned e
    /\ url e = u
    /\ round1 e = parse_connection_round soup 1
    /\ round2 e = parse_connection_round soup 2
    /\ round3 e = parse_wall_round soup
    /\ round4 e = parse_vowels_round soup.
Proof.
  unfold episode_of_page.
  destruct (find (fun n => named (py "h2") n && has_class (py "episode_meta") n) soup)
    as [meta_h2|]; [|eexists; cbn; repeat split].
  destruct (search_number (py "Series") (clean_text (here meta_h2))) as [ds|];
    [destruct (int_of_digits ds)|];
    (destruct (search_number (py "Episode") (clean_text (here meta_h2))) as [es|];
     [destruct (s_episode_number metadata) as [[|n]|];
      try destruct (int_of_digits es)|]);
    eexists; cbn; repeat split.
Qed.

(** [parse_episode] is [fetch_page] followed by the extraction. *)
Lemma parse_episode_eq (u : str) (metadata : stub) (st : state) :
  parse_episode W u metadata st =
  (match fst (fetch_page W u st) with
   | Some soup =>
       and_then (episode_of_page soup u metadata
                   (now W (length (requests (snd (fetch_page W u st))))))
                (fun e => Returned (Some e))
   | None => Returned None
   end,
   snd (fetch_page W u st)).
Proof.
  unfold parse_episode, bind, ret, gets.
  destruct (fetch_page W u st) as [[soup|] st1]; reflexivity.
Qed.

Lemma save_progress_eq (st : state) :
  snd (save_progress st)
  = State (delay st) (episodes st) (progress_now st)
          (Some (progress_now st)) (Some (episodes st))
          (requests st) (saves st ++ [(progress_now st, episodes st)]).
Proof. reflexivity. Qed.

Lemma scrape_one_eq (i : nat) (ep_info : stub) (st : state) :
  snd (scrape_one W i ep_info st) =
  if ((i + 1) mod 10 =? 0)%nat
  then snd (save_progress (booked W ep_info st))
  else booked W ep_info st.
Proof.
  unfold scrape_one, booked, bind. rewrite parse_episode_eq. cbn [fst snd].
  destruct (fst (fetch_page W (s_url ep_info) st)) as [soup|];
    [destruct (episode_of_page soup (s_url ep_info) ep_info _)|];
    destruct ((i + 1) mod 10 =? 0)%nat; reflexivity.
Qed.

Lemma scrape_from_cons (i : nat) (ep_info : stub) (rest : list stub) (st : state) :
  snd (scrape_from W i (ep_info :: rest) st) =
  snd (scrape_from W (S i) rest (snd (scrape_one W i ep_info st))).
Proof.
  simpl. unfold bind. destruct (scrape_one W i ep_info st). reflexivity.
Qed.

(** What the bookkeeping of one entry changes. *)
Lemma booked_cases (ep_info : stub) (st : state) :
  exists k, k <= 5 /\
    requests (booked W ep_info st) = requests st ++ repeat (s_url ep_info) k /\
    saves (booked W ep_info st) = saves st /\
    progress_file (booked W ep_info st) = progress_file st /\
    output_file (booked W ep_info st) = output_file st /\
    ((exists e, url e = s_url ep_info /\
        fst (fetch_page W (s_url ep_info) st) <> None /\
        episodes (booked W ep_info st) = episodes st ++ [e] /\
        progress_now (booked W ep_info st) =
          Progress (completed (progress_now st) ++ [s_url ep_info])
                   (failed (progress_now st)))
     \/ (fst (fetch_page W (s_url ep_info) st) = None /\
         episodes (booked W ep_info st) = episodes st /\
         progress_now (booked W ep_info st) =
           Progress (completed (progress_now st))
                    (failed (progress_now st) ++ [s_url ep_info]))).
Proof.
  destruct (fetch_page_log W (s_url ep_info) st)
    as (k & Hk & E1 & E2 & E3 & E4 & E5 & E6).
  exists k. split; [exact Hk|].
  unfold booked. rewrite parse_episode_eq. cbn [fst snd].
  destruct (fst (fetch_page W (s_url ep_info) st)) as [soup|].
  - destruct (episode_of_page_returns soup (s_url ep_info) ep_info
                (now W (length (requests (snd (fetch_page W (s_url ep_info) st))))))
      as (e & -> & Ue & _).
    simpl. rewrite E1, E2, E3, E4, E5, E6. repeat split.
    left. exists e. split; [exact Ue|]. split; [discriminate|]. now split.
  - simpl. rewrite E1, E2, E3, E4, E5, E6. repeat split.
    right. repeat split.
Qed.

(** A failed entry is appended to the list of failed URLs, and nothing
    else of the progress changes. *)
Lemma scrape_one_failed (i : nat) (ep_info : stub) (st : state) :
  fst (fetch_page W (s_url ep_info) st) = None ->
  progress_now (snd (scrape_one W i ep_info st)) =
  Progress (completed (progress_now st))
           (failed (progress_now st) ++ [s_url ep_info]).
Proof.
  intros F. rewrite scrape_one_eq.
  destruct (booked_cases ep_info st) as (k & _ & _ & _ & _ & _ & [C | C]).
  - destruct C as (e & _ & N & _). contradiction.
  - destruct C as (_ & _ & Pn).
    destruct ((i + 1) mod 10 =? 0)%nat; simpl; exact Pn.
Qed.

(** What [fetch_page] returns depends on the state only through the
    number of requests made so far. *)
Lemma fetch_attempts_value (n : nat) (u : str) (st1 st2 : state) :
  length (requests st1) = length (requests st2) ->
  fst (fetch_attempts W n u st1) = fst (fetch_attempts W n u st2).
Proof.
  revert st1 st2; induction n as [|n IH]; intros st1 st2 E; [reflexivity|].
  destruct (response_cases (server W (length (requests st1)) u))
    as [[doc R] | [R | R]].
  - rewrite (fetch_attempts_ok W _ _ _ R). rewrite E in R.
    now rewrite (fetch_attempts_ok W _ _ _ R).
  - rewrite (fetch_attempts_retry W _ _ _ R). rewrite E in R.
    rewrite (fetch_attempts_retry W _ _ _ R). apply IH.
    simpl. rewrite !length_app. now rewrite E.
  - rewrite (fetch_attempts_reject W _ _ _ R). rewrite E in R.
    now rewrite (fetch_attempts_reject W _ _ _ R).
Qed.

Lemma get_episode_urls_eq (st : state) :
  get_episode_urls W st =
  (match fst (fetch_page W EPISODES_URL st) with
   | Some soup => episodes_of_listing BASE_URL soup
   | None => Returned []
   end,
   snd (fetch_page W EPISODES_URL st)).
Proof.
  unfold get_episode_urls, bind, ret.
  destruct (fetch_page W EPISODES_URL st) as [[soup|] st1]; reflexivity.
Qed.

(** A scraper that has made no request yet receives the listing. *)
Lemma get_episode_urls_listed (st : state) :
  requests st = [] -> fst (get_episode_urls W st) = listed W.
Proof.
  intros E. unfold listed. rewrite !get_episode_urls_eq. cbn [fst].
  unfold fetch_page.
  rewrite (fetch_attempts_value _ _ st (new_scraper None None));
    [reflexivity | now rewrite E].
Qed.

(** What [run] does with the files, the records and the log is the same
    whatever its last statement, up to that statement. *)
Lemma run_ending_eq (final_save : M unit) (max_episodes : option Z)
    (resume : bool) (pf : option progress) (outf : option (list episode)) :
  snd (run_ending W final_save max_episodes resume (new_scraper pf outf)) =
  let st1 := snd (get_episode_urls W (loaded resume pf outf)) in
  if negb (nonempty (listing W)) then st1
  else snd (final_save
              (snd (scrape_from W 0
                      (work_list max_episodes resume
                                 (completed (progress_now st1)) (listing W))
                      st1))).
Proof.
  unfold run_ending, bind, gets, ret.
  assert (E : fst (get_episode_urls W (loaded resume pf outf)) = listed W).
  { apply get_episode_urls_listed. unfold loaded. now destruct resume. }
  unfold listing. unfold loaded in *.
  destruct resume; cbn [load_progress modify snd] in *;
    destruct (get_episode_urls W _) as [l st1]; cbn [fst snd] in *; subst l;
    (destruct (listed W) as [l|]; [|reflexivity]); cbn [returned_or];
    (destruct (negb (nonempty l)); [reflexivity|]);
    destruct (scrape_from W 0 _ st1) as [[] st2]; cbn [snd];
    destruct (final_save st2); reflexivity.
Qed.

Lemma get_episode_urls_log (st : state) :
  exists k, k <= 5 /\
    only_fetched st (snd (get_episode_urls W st)) (repeat EPISODES_URL k).
Proof. rewrite get_episode_urls_eq. apply fetch_page_log. Qed.

(** [run], step by step. *)
Lemma session_eq (max_episodes : option Z) (resume : bool)
    (pf : option progress) (outf : option (list episode)) :
  session W max_episodes resume pf outf =
  let st1 := snd (get_episode_urls W (loaded resume pf outf)) in
  if negb (nonempty (listing W)) then st1
  else snd (save_progress
              (snd (scrape_from W 0
                      (work_list max_episodes resume
                                 (completed (progress_now st1)) (listing W))
                      st1))).
Proof. apply run_ending_eq. Qed.

(** One entry of the work list asks for its own URL only. *)
Lemma scrape_one_requests (i : nat) (ep_info : stub) (st : state) :
  exists k, k <= 5 /\
    requests (snd (scrape_one W i ep_info st)) =
    requests st ++ repeat (s_url ep_info) k.
Proof.
  rewrite scrape_one_eq.
  destruct (booked_cases ep_info st) as (k & Hk & R & _).
  exists k. split; [exact Hk|].
  destruct ((i + 1) mod 10 =? 0)%nat; simpl; exact R.
Qed.

(** The loop asks for URLs of its work list only. *)
Lemma scrape_from_requests (work : list stub) (i : nat) (st : state) :
  exists extra,
    requests (snd (scrape_from W i work st)) = requests st ++ extra /\
    Forall (fun u => In u (map s_url work)) extra.
Proof.
  revert i st; induction work as [|ep_info rest IH]; intros i st.
  - exists []. simpl. now rewrite app_nil_r.
  - rewrite scrape_from_cons.
    destruct (scrape_one_requests i ep_info st) as (k & _ & R1).
    destruct (IH (S i) (snd (scrape_one W i ep_info st))) as (extra & R2 & F).
    exists (repeat (s_url ep_info) k ++ extra). split.
    + now rewrite R2, R1, app_assoc.
    + apply Forall_app. split.
      * apply Forall_forall. intros u Hu. apply repeat_spec in Hu. subst.
        now left.
      * eapply Forall_impl; [|exact F]. intros u Hu. now right.
Qed.

(** When resuming, no entry of the work list is a completed URL. *)
Lemma work_list_not_completed (max_episodes : option Z)
    (completed_urls : list str) (episode_list : list stub) :
  Forall (fun ep => ~ In (s_url ep) completed_urls)
         (work_list max_episodes true completed_urls episode_list).
Proof.
  assert (F : Forall (fun ep => ~ In (s_url ep) completed_urls)
                (filter (fun ep => negb (str_in (s_url ep) completed_urls))
                        episode_list)).
  { apply Forall_forall. intros ep Hep. apply filter_In in Hep.
    destruct Hep as [_ Hep]. apply negb_true_iff in Hep.
    now apply str_in_false. }
  unfold work_list. destruct max_episodes as [m|]; [|exact F].
  destruct (m =? 0)%Z; [exact F|].
  apply Forall_forall. intros ep Hep. apply slice_to_incl in Hep.
  revert ep Hep. now apply Forall_forall.
Qed.

Lemma filter_keeps_distinct {X Y} (key : X -> Y) (keep : X -> bool)
    (xs : list X) (D : NoDup (map key xs)) :
  NoDup (map key (filter keep xs)).
Proof.
  induction xs as [|x xs IH]; cbn in *; [exact D|].
  apply NoDup_cons_iff in D. destruct D as [Fresh D].
  destruct (keep x); cbn; [|now apply IH].
  apply NoDup_cons; [|now apply IH].
  intros Hin. apply Fresh. apply in_map_iff in Hin.
  destruct Hin as (y & Ey & Hy). apply filter_In in Hy.
  apply in_map_iff. exists y. tauto.
Qed.

(** The work list inherits the distinct URLs of the listing. *)
Lemma work_list_NoDup (max_episodes : option Z) (resume : bool)
    (completed_urls : list str) (episode_list : list stub) :
  NoDup (map s_url episode_list) ->
  NoDup (map s_url (work_list max_episodes resume completed_urls episode_list)).
Proof.
  intros H. unfold work_list.
  assert (F : NoDup (map s_url
                (if resume
                 then filter (fun ep => negb (str_in (s_url ep) completed_urls))
                             episode_list
                 else episode_list))).
  { destruct resume; [now apply filter_keeps_distinct | exact H]. }
  destruct max_episodes as [m|]; [|exact F].
  destruct (m =? 0)%Z; [exact F|].
  rewrite slice_to_map. now apply slice_to_NoDup.
Qed.

(** Saving keeps the invariant: the files now hold what is in memory. *)
Lemma save_progress_ok (st : state) : crawl_ok st -> crawl_ok (snd (save_progress st)).
Proof.
  intros (M & S & F). unfold crawl_ok, memory_ok, store_ok in *. simpl.
  repeat split; try apply M.
  apply Forall_app. split; [exact S|]. constructor; [exact M | constructor].
Qed.

(** One entry whose URL is not completed yet keeps the invariant. *)
Lemma booked_ok (ep_info : stub) (st : state) :
  crawl_ok st ->
  ~ In (s_url ep_info) (completed (progress_now st)) ->
  crawl_ok (booked W ep_info st) /\
  incl (completed (progress_now (booked W ep_info st)))
       (s_url ep_info :: completed (progress_now st)).
Proof.
  intros ((U & I) & S & (FU & FI)) N.
  destruct (booked_cases ep_info st) as (k & _ & _ & Sv & Pf & Of & C).
  unfold crawl_ok, memory_ok. rewrite Sv, Pf, Of.
  destruct C as [(e & Ue & _ & Ee & Pe) | (_ & Ee & Pe)]; rewrite Ee, Pe; simpl.
  - repeat split; try assumption.
    + unfold unique_urls. rewrite map_app. simpl. rewrite Ue.
      apply NoDup_app;
        [exact U | apply NoDup_cons; [intros [] | constructor] |].
      intros a Ha [<- | []]. apply N. now apply I.
    + rewrite map_app. simpl. rewrite Ue. intros a Ha.
      apply in_app_or in Ha. apply in_or_app.
      destruct Ha as [Ha | Ha]; [left; now apply I | now right].
    + intros a Ha. apply in_app_or in Ha.
      destruct Ha as [Ha | [<- | []]]; [now right | now left].
  - repeat split; try assumption. intros a Ha. now right.
Qed.

Lemma scrape_one_ok (i : nat) (ep_info : stub) (st : state) :
  crawl_ok st ->
  ~ In (s_url ep_info) (completed (progress_now st)) ->
  crawl_ok (snd (scrape_one W i ep_info st)) /\
  incl (completed (progress_now (snd (scrape_one W i ep_info st))))
       (s_url ep_info :: completed (progress_now st)).
Proof.
  intros C N. rewrite scrape_one_eq.
  destruct (booked_ok ep_info C N) as [C' I'].
  destruct ((i + 1) mod 10 =? 0)%nat; [|now split].
  split; [now apply save_progress_ok | exact I'].
Qed.

(** The loop keeps the invariant when the work list has distinct URLs,
    none of them completed. *)
Lemma scrape_from_ok (work : list stub) (i : nat) (st : state) :
  crawl_ok st ->
  NoDup (map s_url work) ->
  (forall u, In u (map s_url work) -> ~ In u (completed (progress_now st))) ->
  crawl_ok (snd (scrape_from W i work st)).
Proof.
  revert i st; induction work as [|ep_info rest IH]; intros i st C D N.
  - exact C.
  - rewrite scrape_from_cons. simpl in D. inversion D as [|? ? Hn Hd]; subst.
    destruct (@scrape_one_ok i ep_info st C) as [C' I'].
    { apply N. now left. }
    apply IH; [exact C' | exact Hd |].
    intros u Hu Hc. apply I' in Hc. destruct Hc as [<- | Hc].
    + contradiction.
    + apply (N u); [now right | exact Hc].
Qed.

(** One execution keeps the files free of duplicates, when the listing is. *)
Lemma session_ok (max_episodes : option Z) (resume : bool)
    (pf : option progress) (outf : option (list episode)) :
  store_ok pf outf ->
  NoDup (map s_url (listing W)) ->
  crawl_ok (session W max_episodes resume pf outf).
Proof.
  intros S D. rewrite session_eq. cbv zeta.
  assert (C0 : crawl_ok (loaded resume pf outf)).
  { unfold crawl_ok, memory_ok, loaded. destruct resume; simpl.
    - destruct S as [U I]. unfold stored_episodes, stored_completed in *.
      repeat split; try constructor;
        destruct outf, pf; simpl in *; auto; try constructor.
    - repeat split; try constructor; try apply S. intros a []. }
  destruct (get_episode_urls_log (loaded resume pf outf))
    as (k & _ & E1 & E2 & E3 & E4 & E5 & E6).
  assert (C1 : crawl_ok (snd (get_episode_urls W (loaded resume pf outf)))).
  { unfold crawl_ok, memory_ok. rewrite E1, E2, E3, E4, E5. exact C0. }
  destruct (negb (nonempty (listing W))); [exact C1|].
  apply save_progress_ok. apply scrape_from_ok; [exact C1 | |].
  - now apply work_list_NoDup.
  - intros u Hu. apply in_map_iff in Hu. destruct Hu as (ep & <- & Hep).
    destruct resume.
    + pose proof (work_list_not_completed max_episodes
                    (completed (progress_now
                       (snd (get_episode_urls W (loaded true pf outf)))))
                    (listing W)) as F.
      rewrite Forall_forall in F. now apply F.
    + rewrite E2. unfold loaded. simpl. intros [].
Qed.



End WithWorld.


(** The files a sequence of executions leaves hold no duplicate. *)
Lemma reachable_store_ok {P : Platform} (pf : option progress)
    (outf : option (list episode)) :
  reachable pf outf -> store_ok pf outf.
Proof.
  induction 1 as [|pf outf W max_episodes resume R IH D
                  |pf outf W max_episodes resume snap R IH D I].
  - split; [constructor | intros a []].
  - now apply (session_ok W max_episodes resume IH D).
  - destruct (session_ok W max_episodes resume IH D) as (_ & Sv & _).
    rewrite Forall_forall in Sv. now apply Sv.
Qed.


(** C4, as the code has it. A failed URL is appended to the list [failed]
    of the progress, with no reason beside it; and [fetch_page] returns the
    same [None] when all 5 attempts were answered by something it tries
    again and when the first answer was a status it does not try again. *)
Theorem failed_urls_carry_no_reason {P : Platform} (W : world) (i : nat)
    (ep_info : stub) (st : state) :
  ((forall k, k < 5 ->
      retried (server W (length (requests st) + k) (s_url ep_info)) = true) ->
   fst (fetch_page W (s_url ep_info) st) = None)
  /\ (rejected (server W (length (requests st)) (s_url ep_info)) = true ->
      fst (fetch_page W (s_url ep_info) st) = None)
  /\ (fst (fetch_page W (s_url ep_info) st) = None ->
      progress_now (snd (scrape_one W i ep_info st)) =
      Progress (completed (progress_now st))
               (failed (progress_now st) ++ [s_url ep_info])).
Proof.
  split; [|split].
  - intros H. unfold fetch_page, RateLimiter.MAX_RETRIES.
    now apply fetch_attempts_exhaust.
  - intros H. unfold fetch_page, RateLimiter.MAX_RETRIES.
    now rewrite fetch_attempts_reject.
  - apply scrape_one_failed.
Qed.

(** A server that always answers 500, and one that answers 404. *)
Lemma failed_urls_carry_no_reason_witness :
  fst (fetch_page broken episode_1 (new_scraper None None)) = None
  /\ fst (fetch_page missing episode_1 (new_scraper None None)) = None
  /\ progress_now (snd (scrape_one (P := example_platform) missing 0 pilot
                          (new_scraper None None)))
     = Progress [] ([] ++ [episode_1]).
Proof.
  split; [|split].
  - apply (proj1 (failed_urls_carry_no_reason (P := example_platform)
                    broken 0 pilot (new_scraper None None))).
    intros k _. reflexivity.
  - apply (proj1 (proj2 (failed_urls_carry_no_reason (P := example_platform)
                           missing 0 pilot (new_scraper None None)))).
    reflexivity.
  - apply (proj2 (proj2 (failed_urls_carry_no_reason (P := example_platform)
                           missing 0 pilot (new_scraper None None)))).
    reflexivity.
Defined.

(** C4 as stated fails. One server exhausts the retries on the episode
    page and one rejects it with 404: no tag can be read from what
    [fetch_page] returns, nor a reason from the progress file, since both
    are the same in the two cases. *)
Lemma failure_tag_cannot_be_read :
  (~ exists tag_of : option node -> failure_tag,
       tag_of (fst (fetch_page broken episode_1 (new_scraper None None)))
       = FetchExhausted /\
       tag_of (fst (fetch_page missing episode_1 (new_scraper None None)))
       = FetchRejected)
  /\ (~ exists reason_of : option progress -> str -> failure_tag,
         reason_of (progress_file (session (P := example_platform)
                                    episode_exhausted None true None None))
                   episode_1 = FetchExhausted /\
         reason_of (progress_file (session (P := example_platform)
                                    episode_rejected None true None None))
                   episode_1 = FetchRejected).
Proof.
  split.
  - intros (tag_of & E & R).
    change (fst (fetch_page missing episode_1 (new_scraper None None)))
      with (fst (fetch_page broken episode_1 (new_scraper None None))) in R.
    congruence.
  - intros (reason_of & E & R).
    replace (progress_file (session (P := example_platform)
                              episode_rejected None true None None))
      with (progress_file (session (P := example_platform)
                              episode_exhausted None true None None)) in R
      by (vm_compute; reflexivity).
    congruence.
Qed.

(** A run that resumes with the first of two listed episodes completed
    asks for the listing and for the second episode only. *)
Example resume_requests_second_only :
  requests (session (P := example_platform) second_only None true
                    (Some first_done) None)
  = [EPISODES_URL; py "https://ocdb.cc/episode/2"].
Proof. vm_compute. reflexivity. Qed.

(** C7 as stated fails. A listing that links the same episode twice makes
    one run record the episode twice. *)
Lemma duplicate_link_duplicates_record :
  ~ unique_urls (episodes (session (P := example_platform) duplicated
                                   None true None None)).
Proof.
  unfold unique_urls.
  replace (map url (episodes (session (P := example_platform) duplicated
                                      None true None None)))
    with [episode_1; episode_1] by (vm_compute; reflexivity).
  intros H. inversion H as [|? ? N _]. apply N. now left.
Qed.

(** C7, as the code has it. Take any sequence of executions in each of
    which the listing names every episode URL once, and each of which runs
    to its end (or to where [get_episode_urls] raises) or is stopped
    outside [save_progress], each write of a file being whole. Then the
    records in the output file have distinct source URLs; and one more
    such execution keeps the records in memory and in every snapshot it
    saves free of duplicates. *)
Theorem records_unique_when_listing_is {P : Platform}
    (pf : option progress) (outf : option (list episode)) :
  reachable pf outf ->
  unique_urls (stored_episodes outf)
  /\ forall W max_episodes resume,
       NoDup (map s_url (listing W)) ->
       unique_urls (episodes (session W max_episodes resume pf outf))
       /\ Forall (fun snap => unique_urls (snd snap))
                 (saves (session W max_episodes resume pf outf)).
Proof.
  intros R. pose proof (reachable_store_ok R) as S. split; [apply S|].
  intros W max_episodes resume D.
  destruct (session_ok W max_episodes resume S D) as ((U & _) & Sv & _).
  split; [exact U|]. eapply Forall_impl; [|exact Sv].
  intros snap Hs. apply Hs.
Qed.

(** The files left by one execution against a server with two links, which
    hold two records, and a second execution against the same server. *)
Lemma records_unique_when_listing_is_witness :
  length (stored_episodes
            (output_file (session (P := example_platform) both_served
                                  None true None None))) = 2
  /\ unique_urls
       (stored_episodes
          (output_file (session (P := example_platform) both_served None true None None)))
  /\ unique_urls
       (episodes
          (session (P := example_platform) both_served (Some 1%Z) false
             (progress_file (session (P := example_platform) both_served None true None None))
             (output_file (session (P := example_platform) both_served None true None None)))).
Proof.
  assert (D : NoDup (map s_url (listing (P := example_platform) both_served))).
  { replace (map s_url (listing (P := example_platform) both_served))
      with [episode_1; py "https://ocdb.cc/episode/2"] by (vm_compute; reflexivity).
    apply NoDup_cons; [intros [H | []]; discriminate|].
    apply NoDup_cons; [intros [] | constructor]. }
  split; [vm_compute; reflexivity|].
  pose proof (records_unique_when_listing_is
                (reach_session both_served None true reach_start D)) as [U F].
  split; [exact U | apply (F both_served (Some 1%Z) false D)].
Defined.

(** The two writes of [save_progress] are not one step, and the theorem
    above does not reach past an execution stopped between them. A first
    execution records both listed episodes. A second one, with
    [--no-resume --max 1], is stopped in its last save after the progress
    file and before the output file: the progress file names episode 1
    alone, the output file still holds both records. A third, resumed, on
    the same listing, in which no URL is twice, then scrapes episode 2
    again and holds its record twice, in memory and in the output file. *)
Lemma torn_save_duplicates_record :
  let first := session (P := example_platform) both_served None true None None in
  let second := torn_session (P := example_platform) both_served (Some 1%Z) false
                  (progress_file first) (output_file first) in
  let third := session (P := example_platform) both_served None true
                 (progress_file second) (output_file second) in
  NoDup (map s_url (listing (P := example_platform) both_served))
  /\ stored_completed (progress_file second) = [episode_1]
  /\ map url (stored_episodes (output_file second))
     = [episode_1; py "https://ocdb.cc/episode/2"]
  /\ map url (episodes third)
     = [episode_1; py "https://ocdb.cc/episode/2"; py "https://ocdb.cc/episode/2"]
  /\ ~ unique_urls (episodes third)
  /\ ~ unique_urls (stored_episodes (output_file third)).
Proof.
  cbv zeta.
  split.
  { replace (map s_url (listing (P := example_platform) both_served))
      with [episode_1; py "https://ocdb.cc/episode/2"] by (vm_compute; reflexivity).
    apply NoDup_cons; [intros [H | []]; discriminate|].
    apply NoDup_cons; [intros [] | constructor]. }
  split; [vm_compute; reflexivity|].
  split; [vm_compute; reflexivity|].
  split; [vm_compute; reflexivity|].
  assert (N : ~ NoDup [episode_1; py "https://ocdb.cc/episode/2";
                       py "https://ocdb.cc/episode/2"]).
  { intros H. inversion H as [|? ? _ H1]. inversion H1 as [|? ? N1 _].
    apply N1. now left. }
  split; unfold unique_urls; intros H; apply N; revert H;
    match goal with |- NoDup ?l -> _ =>
      replace l with [episode_1; py "https://ocdb.cc/episode/2";
                      py "https://ocdb.cc/episode/2"]
        by (vm_compute; reflexivity) end; exact (fun H => H).
Qed.



End RunSpec.

(* ===================================================================== *)
(** * Theory: the extractors *)
(* ===================================================================== *)

Module ExtractSpec.
Import PyStr PyStrFacts Soup Records Extract Scraper Notions Fixtures.

Section WithPlatform.
Context {P : Platform}.

Lemma glyph_match_In (glyphs : list str) (label_text glyph : str) :
  glyph_match glyphs label_text = Some glyph -> In glyph glyphs.
Proof.
  induction glyphs as [|g rest IH]; simpl; [discriminate|].
  destruct (contains (lower g) (lower label_text)).
  - intros E; inversion E; now left.
  - intros E; right; now apply IH.
Qed.



End WithPlatform.



(** Headings of the source's site: a Greek name, its symbol, a glyph in
    capitals, and a heading outside both vocabularies. *)
Example label_examples :
  resolve_label (P := example_platform) (py "Question Gamma") = py "Gamma"
  /\ resolve_label (P := example_platform) (120690%N :: py " question") = py "Gamma"
  /\ resolve_label (P := example_platform) (py "EYE OF HORUS") = py "Eye of Horus"
  /\ resolve_label (P := example_platform) (py "gamma") = py "gamma"
  /\ resolve_label (P := example_platform) (py "Question 1") = py "Question 1".
Proof. repeat split; reflexivity. Qed.

(** C8 as stated fails. The only text of this clue cell is the
    placeholder [Clue 3], on the back of a card: the cell is not left out,
    the placeholder becomes a clue. *)
Lemma placeholder_on_card_is_kept :
  clean_text (P := example_platform) card_cell = py "Clue 3"
  /\ In (py "Clue 3") PLACEHOLDERS
  /\ clue_of_cell (P := example_platform) card_cell = [ClueText (py "Clue 3")]
  /\ extract_clues (P := example_platform) (page [card_cell])
     = [ClueText (py "Clue 3")].
Proof.
  repeat split; try reflexivity. right; left; reflexivity.
Qed.

(** C8, as the code has it. A clue cell is classified by the first of:
    a link whose address ends in [.mp3] (an audio clue with that address),
    an image, a card (its back text when that is not empty, placeholder or
    not), plain text. The placeholders [Clue 2], [Clue 3], [Clue 4] and [?]
    are left out in the last case only. A cell that holds nothing but an
    audio link gives the audio clue with the address of the link. *)
Theorem clue_classification {P : Platform} (clue_div : node) :
  (forall audio_link,
     find mp3_link clue_div = Some audio_link ->
     clue_of_cell clue_div
     = [ClueAudio (get_or_empty (py "href") (here audio_link))])
  /\ (forall img,
        find mp3_link clue_div = None ->
        find (named (py "img")) clue_div = Some img ->
        clue_of_cell clue_div
        = [ClueImage (get_or_empty (py "src") (here img))
                     (get_or_empty (py "alt") (here img))])
  /\ (forall card,
        find mp3_link clue_div = None ->
        find (named (py "img")) clue_div = None ->
        find (div_class "card") clue_div = Some card ->
        clue_of_cell clue_div
        = match find (div_class "back") (here card) with
          | Some back =>
              if nonempty (clean_text (here back))
              then [ClueText (clean_text (here back))] else []
          | None => []
          end)
  /\ (find mp3_link clue_div = None ->
      find (named (py "img")) clue_div = None ->
      find (div_class "card") clue_div = None ->
      (In (clean_text clue_div) PLACEHOLDERS -> clue_of_cell clue_div = [])
      /\ (clean_text clue_div = [] -> clue_of_cell clue_div = [])
      /\ (~ In (clean_text clue_div) PLACEHOLDERS -> clean_text clue_div <> [] ->
          clue_of_cell clue_div = [ClueText (clean_text clue_div)]))
  /\ (forall name attrs address inside,
        clue_div = Tag name attrs [Tag (py "a") [(py "href", address)] inside] ->
        search_at_end (py ".mp3") address = true ->
        clue_of_cell clue_div = [ClueAudio address]).
Proof.
  split; [|split; [|split; [|split]]].
  - intros audio_link A. unfold clue_of_cell. now rewrite A.
  - intros img A I. unfold clue_of_cell. now rewrite A, I.
  - intros card A I C. unfold clue_of_cell. now rewrite A, I, C.
  - intros A I C. unfold clue_of_cell. rewrite A, I, C.
    split; [|split].
    + intros Hp. apply str_in_In in Hp. rewrite Hp. now rewrite andb_false_r.
    + intros Hp. now rewrite Hp.
    + intros Hp Hn. apply str_in_false in Hp. rewrite Hp.
      destruct (clean_text clue_div); [contradiction | reflexivity].
  - intros name attrs address inside -> E. unfold clue_of_cell.
    assert (F : find mp3_link (Tag name attrs
                  [Tag (py "a") [(py "href", address)] inside])
                = Some (Located (Tag (py "a") [(py "href", address)] inside) [])).
    { unfold find. cbn [descendants List.find here].
      replace (mp3_link (Tag (py "a") [(py "href", address)] inside))
        with (search_at_end (py ".mp3") address) by reflexivity.
      now rewrite E. }
    rewrite F. reflexivity.
Qed.

(** The audio cell and the plain placeholder cell of the specification. *)
Lemma clue_classification_witness :
  clue_of_cell (P := example_platform) audio_cell
  = [ClueAudio (py "/audio/q1.mp3")]
  /\ clue_of_cell (P := example_platform) placeholder_cell = [].
Proof.
  split.
  - apply (proj2 (proj2 (proj2 (proj2
             (clue_classification (P := example_platform) audio_cell))))
             (py "div") [(py "class", py "clue")] (py "/audio/q1.mp3") []);
      reflexivity.
  - apply (proj1 (proj1 (proj2 (proj2 (proj2
             (clue_classification (P := example_platform) placeholder_cell))))
             eq_refl eq_refl eq_refl)).
    right; left; reflexivity.
Defined.

(** A group is recorded exactly when it has an item or a connection. *)
Lemma wall_group_of_populated {P : Platform} (wall_container : node) (n : N) :
  wall_group_of wall_container n
  = if populated wall_container n
    then [Group (group_items wall_container n)
                (group_connection wall_container n)]
    else [].
Proof. reflexivity. Qed.

(** C3 as stated fails. The container of this wall is present, its fourth
    group has no item cell and an empty connection: the wall recorded has
    3 groups, not 4. *)
Lemma malformed_wall_has_three_groups :
  map (fun w => length (w_groups w))
      (parse_wall_round (P := example_platform) malformed_wall) = [3]
  /\ group_items (P := example_platform) malformed_container 4 = []
  /\ group_connection (P := example_platform) malformed_container 4 = []
  /\ (forall w, In w (parse_wall_round (P := example_platform) malformed_wall) ->
               length (w_groups w) <> 4).
Proof.
  repeat split; try reflexivity.
  intros w Hw.
  assert (E : In (length (w_groups w))
                 (map (fun w => length (w_groups w))
                      (parse_wall_round (P := example_platform) malformed_wall))).
  { apply in_map_iff. now exists w. }
  replace (map (fun w => length (w_groups w))
               (parse_wall_round (P := example_platform) malformed_wall))
    with [3] in E by reflexivity.
  destruct E as [<- | []]. discriminate.
Qed.

(** C3, as the code has it. The groups recorded for a wall with a
    container are the populated ones among the four, in order: a group with
    no item and an empty connection is left out, so that three populated
    groups and one empty group give a wall of 3 groups. The wall itself is
    recorded whatever its groups are: the page does not fail. *)
Theorem empty_wall_group_is_left_out {P : Platform} (wall_container : node) :
  flat_map (wall_group_of wall_container) [1; 2; 3; 4]%N
  = map (fun n => Group (group_items wall_container n)
                        (group_connection wall_container n))
        (filter (populated wall_container) [1; 2; 3; 4]%N)
  /\ (populated wall_container 1 = true ->
      populated wall_container 2 = true ->
      populated wall_container 3 = true ->
      group_items wall_container 4 = [] ->
      group_connection wall_container 4 = [] ->
      length (flat_map (wall_group_of wall_container) [1; 2; 3; 4]%N) = 3
      /\ ~ In (Group [] []) (flat_map (wall_group_of wall_container) [1; 2; 3; 4]%N))
  /\ (forall attrs inside rest question_div others,
        next_sibling (div_class "question") rest = Some question_div ->
        find (div_class "wall-container") (here question_div)
        = Some (Located wall_container others) ->
        wall_questions (Tag (py "h3") attrs inside :: rest)
        = Wall (get_text_strip (Tag (py "h3") attrs inside))
               (flat_map (wall_group_of wall_container) [1; 2; 3; 4]%N)
          :: wall_questions rest).
Proof.
  assert (E : flat_map (wall_group_of wall_container) [1; 2; 3; 4]%N
              = map (fun n => Group (group_items wall_container n)
                                    (group_connection wall_container n))
                    (filter (populated wall_container) [1; 2; 3; 4]%N)).
  { cbn [flat_map filter]. rewrite !wall_group_of_populated.
    destruct (populated wall_container 1), (populated wall_container 2),
      (populated wall_container 3), (populated wall_container 4); reflexivity. }
  split; [exact E | split].
  - intros P1 P2 P3 I4 C4. rewrite E. cbn [filter]. rewrite P1, P2, P3.
    assert (P4 : populated wall_container 4 = false).
    { unfold populated. now rewrite I4, C4. }
    rewrite P4. split; [reflexivity|].
    unfold populated in P1, P2, P3.
    intros [H | [H | [H | []]]]; inversion H as [[Hi Hc]];
      [rewrite Hi, Hc in P1 | rewrite Hi, Hc in P2 | rewrite Hi, Hc in P3];
      discriminate.
  - intros attrs inside rest question_div others Q C.
    cbn [wall_questions is_tag negb]. 
    replace (next_round (Tag (py "h3") attrs inside)) with false by reflexivity.
    replace (named (py "h3") (Tag (py "h3") attrs inside)) with true by reflexivity.
    rewrite Q, C. reflexivity.
Qed.

(** The wall with three full groups and an empty fourth one. *)
Lemma empty_wall_group_is_left_out_witness :
  length (flat_map (wall_group_of (P := example_platform) malformed_container)
                   [1; 2; 3; 4]%N) = 3
  /\ ~ In (Group [] [])
          (flat_map (wall_group_of (P := example_platform) malformed_container)
                    [1; 2; 3; 4]%N).
Proof.
  apply (proj1 (proj2 (empty_wall_group_is_left_out (P := example_platform)
                         malformed_container)));
    reflexivity.
Defined.

Section WithPlatform.
Context {P : Platform}.







End WithPlatform.



(** The lookup of a heading by its text goes by [.string], which a
    heading with two strings does not have, a comment counting as one:
    the round under such a heading is not found. *)
Example heading_with_comment_is_not_found :
  length (parse_connection_round (P := example_platform) plain_heading 1) = 1
  /\ find_round_header (py "round1") (py "Round 1") commented_heading = None
  /\ parse_connection_round (P := example_platform) commented_heading 1 = [].
Proof. repeat split; vm_compute; reflexivity. Qed.

End ExtractSpec.

(* ===================================================================== *)
(** * Theory: the rate limiter *)
(* ===================================================================== *)

Module RateLimiterSpec.
Import RateLimiter.
Local Open Scope Z_scope.
Local Unset Implicit Arguments.

(** The number of binary digits of a positive number. *)
Lemma digits2_pos_bounds (p : positive) :
  2 ^ (Zpos (digits2_pos p) - 1) <= Zpos p < 2 ^ Zpos (digits2_pos p).
Proof.
  induction p as [p IH | p IH |]; cbn [digits2_pos].
  - rewrite Pos2Z.inj_succ. replace (Z.succ (Zpos (digits2_pos p)) - 1) with (Zpos (digits2_pos p)) by lia.
    rewrite Z.pow_succ_r by lia.
    assert (2 ^ Zpos (digits2_pos p) = 2 * 2 ^ (Zpos (digits2_pos p) - 1)).
    { rewrite <- Z.pow_succ_r by lia. f_equal. lia. }
    lia.
  - rewrite Pos2Z.inj_succ. replace (Z.succ (Zpos (digits2_pos p)) - 1) with (Zpos (digits2_pos p)) by lia.
    rewrite Z.pow_succ_r by lia.
    assert (2 ^ Zpos (digits2_pos p) = 2 * 2 ^ (Zpos (digits2_pos p) - 1)).
    { rewrite <- Z.pow_succ_r by lia. f_equal. lia. }
    lia.
  - cbn. lia.
Qed.

Lemma digits2_pos_unique (p : positive) (k : Z) :
  2 ^ (k - 1) <= Zpos p < 2 ^ k -> Zpos (digits2_pos p) = k.
Proof.
  intros [Lo Hi]. pose proof (digits2_pos_bounds p) as [Lo' Hi'].
  assert (0 < k).
  { destruct (Z.ltb_spec 0 k); [assumption|]. exfalso.
    destruct (Z.eqb_spec k 0) as [->|]; [cbn in Hi; lia|].
    rewrite Z.pow_neg_r in Hi by lia. lia. }
  destruct (Z.lt_trichotomy (Zpos (digits2_pos p)) k) as [L | [E | G]]; [|exact E|].
  - exfalso. assert (2 ^ Zpos (digits2_pos p) <= 2 ^ (k - 1)) by (apply Z.pow_le_mono_r; lia). lia.
  - exfalso. assert (2 ^ k <= 2 ^ (Zpos (digits2_pos p) - 1)) by (apply Z.pow_le_mono_r; lia). lia.
Qed.

Lemma shr_1_m (mrs : shr_record) :
  0 <= shr_m mrs -> shr_m (shr_1 mrs) = shr_m mrs / 2 /\ 0 <= shr_m (shr_1 mrs).
Proof.
  destruct mrs as [m r s]. cbn [shr_m]. intros H.
  destruct m as [|p|p]; [cbn; lia | | lia].
  destruct p as [p|p|]; cbn [shr_1 shr_m].
  - split; [|lia]. apply Z.div_unique with 1; lia.
  - split; [|lia]. apply Z.div_unique with 0; lia.
  - split; [|lia]. reflexivity.
Qed.

Lemma pow2_double (n : positive) : 2 ^ Zpos n~0 = 2 ^ Zpos n * 2 ^ Zpos n.
Proof.
  replace (Zpos n~0) with (Zpos n + Zpos n) by lia.
  apply Z.pow_add_r; lia.
Qed.

Lemma pow2_double_succ (n : positive) : 2 ^ Zpos n~1 = 2 * (2 ^ Zpos n * 2 ^ Zpos n).
Proof.
  replace (Zpos n~1) with (Z.succ (Zpos n + Zpos n)) by lia.
  rewrite Z.pow_succ_r by lia. f_equal. apply Z.pow_add_r; lia.
Qed.

Lemma iter_shr_m (n : positive) (mrs : shr_record) :
  0 <= shr_m mrs ->
  shr_m (iter_pos shr_1 n mrs) = shr_m mrs / 2 ^ Zpos n
  /\ 0 <= shr_m (iter_pos shr_1 n mrs).
Proof.
  revert mrs; induction n as [n IH | n IH |]; intros mrs H; cbn [iter_pos].
  - destruct (shr_1_m mrs H) as [E1 N1].
    destruct (IH _ N1) as [E2 N2]. destruct (IH _ N2) as [E3 N3].
    split; [|exact N3]. rewrite E3, E2, E1.
    assert (0 < 2 ^ Zpos n) by (apply Z.pow_pos_nonneg; lia).
    rewrite !Z.div_div by lia. now rewrite pow2_double_succ, Z.mul_assoc.
  - destruct (IH _ H) as [E2 N2]. destruct (IH _ N2) as [E3 N3].
    split; [|exact N3]. rewrite E3, E2.
    assert (0 < 2 ^ Zpos n) by (apply Z.pow_pos_nonneg; lia).
    rewrite !Z.div_div by lia. now rewrite pow2_double.
  - destruct (shr_1_m mrs H) as [E1 N1]. split; [|exact N1].
    now rewrite E1, Z.pow_1_r.
Qed.

Lemma round_nearest_even_bounds (q : Z) (l : location) :
  q <= round_nearest_even q l <= q + 1.
Proof.
  destruct l as [|[| |]]; cbn; try lia. destruct (Z.even q); lia.
Qed.

Lemma fexp64 (z : Z) : -1021 <= z -> fexp prec emax z = z - 53.
Proof. intros H. unfold fexp, SpecFloat.emin, prec, emax. lia. Qed.

Lemma Zdigits2_unique (z k : Z) :
  0 < z -> 2 ^ (k - 1) <= z < 2 ^ k -> Zdigits2 z = k.
Proof.
  intros Hz B. destruct z as [|p|p]; try lia. cbn [Zdigits2].
  now apply digits2_pos_unique.
Qed.

(** The second shift of [binary_round_aux], on a mantissa of 53 or 54 bits. *)
Lemma renormalize (m' e' : Z) :
  2 ^ 52 <= m' <= 2 ^ 53 -> -1074 <= e' <= 900 ->
  exists m'' e'',
    (let '(mrs'', e'') := shr_fexp prec emax m' e' loc_Exact in
     match shr_m mrs'' with
     | Z0 => S754_zero false
     | Zpos m => if e'' <=? emax - prec then S754_finite false m e'' else S754_infinity false
     | Zneg _ => S754_nan
     end) = S754_finite false m'' e''
    /\ 2 ^ 52 <= Zpos m'' < 2 ^ 53
    /\ ((e'' = e' /\ Zpos m'' = m') \/ (e'' = e' + 1 /\ Zpos m'' = 2 ^ 52 /\ m' = 2 ^ 53)).
Proof.
  intros Bm Be. unfold shr_fexp.
  destruct (Z.eq_dec m' (2 ^ 53)) as [-> | Ne].
  - exists (4503599627370496%positive), (e' + 1).
    replace (fexp prec emax (Zdigits2 (2 ^ 53) + e') - e') with 1.
    2:{ change (Zdigits2 (2 ^ 53)) with 54. rewrite fexp64 by lia. lia. }
    cbn [shr shr_record_of_loc iter_pos]. cbn [shr_1 shr_m Z.pow Z.pow_pos Pos.iter Z.mul Pos.mul].
    replace (e' + 1 <=? emax - prec) with true
      by (symmetry; apply Z.leb_le; unfold emax, prec; lia).
    split; [reflexivity|]. split; [cbn; lia|]. right. repeat split.
  - assert (D : Zdigits2 m' = 53).
    { apply Zdigits2_unique; [lia|]. change (53 - 1) with 52. lia. }
    rewrite D. rewrite fexp64 by lia.
    replace (53 + e' - 53 - e') with 0 by lia.
    cbn [shr shr_record_of_loc shr_m].
    destruct m' as [|pm|pm]; try lia.
    exists pm, e'.
    replace (e' <=? emax - prec) with true
      by (symmetry; apply Z.leb_le; unfold emax, prec; lia).
    split; [reflexivity|]. split; [lia|]. left. now split.
Qed.

Lemma round_product (p : positive) (ex : Z) (n : positive) :
  2 ^ (52 + Zpos n) <= Zpos p < 2 ^ (53 + Zpos n) ->
  -1000 <= ex -> ex + Zpos n <= 900 ->
  exists m'' e'',
    binary_round_aux prec emax false (Zpos p) ex loc_Exact = S754_finite false m'' e''
    /\ 2 ^ 52 <= Zpos m'' < 2 ^ 53
    /\ ((e'' = ex + Zpos n
         /\ Zpos p / 2 ^ Zpos n <= Zpos m'' <= Zpos p / 2 ^ Zpos n + 1)
        \/ (e'' = ex + Zpos n + 1 /\ Zpos m'' = 2 ^ 52
            /\ Zpos p / 2 ^ Zpos n + 1 = 2 ^ 53)).
Proof.
  intros Bp Lo Hi. unfold binary_round_aux.
  assert (S1 : shr_fexp prec emax (Zpos p) ex loc_Exact
               = (iter_pos shr_1 n (Build_shr_record (Zpos p) false false), ex + Zpos n)).
  { unfold shr_fexp.
    rewrite (Zdigits2_unique (Zpos p) (53 + Zpos n)); [|lia|].
    2:{ replace (53 + Zpos n - 1) with (52 + Zpos n) by lia. exact Bp. }
    rewrite fexp64 by lia.
    replace (53 + Zpos n + ex - 53 - ex) with (Zpos n) by lia.
    reflexivity. }
  rewrite S1.
  destruct (iter_shr_m n (Build_shr_record (Zpos p) false false)) as [Q _];
    [cbn; lia|]. cbn [shr_m] in Q.
  set (mrs := iter_pos shr_1 n (Build_shr_record (Zpos p) false false)) in *.
  pose proof (round_nearest_even_bounds (shr_m mrs) (loc_of_shr_record mrs)) as R.
  set (m' := round_nearest_even (shr_m mrs) (loc_of_shr_record mrs)) in *.
  rewrite Q in R.
  assert (P2 : 0 < 2 ^ Zpos n) by (apply Z.pow_pos_nonneg; lia).
  assert (Bq : 2 ^ 52 <= Zpos p / 2 ^ Zpos n < 2 ^ 53).
  { rewrite !Z.pow_add_r in Bp by lia. split.
    - apply Z.div_le_lower_bound; lia.
    - apply Z.div_lt_upper_bound; lia. }
  destruct (renormalize m' (ex + Zpos n)) as (m'' & e'' & E & Bm & C); [lia | lia |].
  exists m'', e''. split; [exact E|]. split; [exact Bm|].
  destruct C as [[-> ->] | (-> & -> & E53)].
  - left. split; [reflexivity | lia].
  - right. repeat split. lia.
Qed.

Lemma SFltb_finite (m1 : positive) (e1 : Z) (m2 : positive) (e2 : Z) :
  SFltb (S754_finite false m1 e1) (S754_finite false m2 e2) = true
  <-> e1 < e2 \/ (e1 = e2 /\ Zpos m1 < Zpos m2).
Proof.
  unfold SFltb, SFcompare. change (Pos.compare_cont Eq m1 m2) with (Pos.compare m1 m2).
  destruct (Z.compare_spec e1 e2); [destruct (Pos.compare_spec m1 m2)| |];
    split; intros H'; try discriminate; try reflexivity; lia.
Qed.

Lemma SFleb_finite (m1 : positive) (e1 : Z) (m2 : positive) (e2 : Z) :
  SFleb (S754_finite false m1 e1) (S754_finite false m2 e2) = true
  <-> e1 < e2 \/ (e1 = e2 /\ Zpos m1 <= Zpos m2).
Proof.
  unfold SFleb, SFcompare. change (Pos.compare_cont Eq m1 m2) with (Pos.compare m1 m2).
  destruct (Z.compare_spec e1 e2); [destruct (Pos.compare_spec m1 m2)| |];
    split; intros H'; try discriminate; try reflexivity; lia.
Qed.

Lemma Prim2SF_FLOOR : Prim2SF FLOOR = floor_sf. Proof. vm_compute. reflexivity. Qed.
Lemma Prim2SF_CEILING : Prim2SF CEILING = ceiling_sf. Proof. vm_compute. reflexivity. Qed.
Lemma Prim2SF_DECAY : Prim2SF DECAY = decay_sf. Proof. vm_compute. reflexivity. Qed.
Lemma Prim2SF_BACKOFF : Prim2SF BACKOFF_FACTOR = two_sf. Proof. vm_compute. reflexivity. Qed.

Lemma in_range_between (d : float) :
  in_range d -> exists m e, Prim2SF d = S754_finite false m e /\ between m e.
Proof.
  unfold in_range. rewrite !leb_spec, Prim2SF_FLOOR, Prim2SF_CEILING.
  pose proof (Prim2SF_valid d) as V.
  destruct (Prim2SF d) as [s | s | | s m e]; intros [Lo Hi].
  - destruct s; discriminate.
  - destruct s; discriminate.
  - discriminate.
  - destruct s; [discriminate|]. exists m, e. split; [reflexivity|].
    apply SFleb_finite in Lo, Hi.
    cbn [valid_binary] in V. unfold bounded, canonical_mantissa in V.
    apply andb_true_iff in V. destruct V as [V _]. apply Z.eqb_eq in V.
    pose proof (digits2_pos_bounds m) as D.
    unfold fexp, SpecFloat.emin, prec, emax in V.
    assert (Dg : Zpos (digits2_pos m) = 53) by lia.
    rewrite Dg in D. change (53 - 1) with 52 in D.
    unfold between. repeat split; lia.
Qed.

(** [d * 0.9], rounded, is a normal number below [d]. *)
Lemma decay_product (m : positive) (e : Z) :
  2 ^ 52 <= Zpos m < 2 ^ 53 -> -52 <= e <= -48 ->
  exists m' e',
    SF64mul (S754_finite false m e) decay_sf = S754_finite false m' e'
    /\ 2 ^ 52 <= Zpos m' < 2 ^ 53
    /\ e - 1 <= e'
    /\ (e' < e \/ (e' = e /\ Zpos m' < Zpos m)).
Proof.
  intros Bm Be. unfold SF64mul, SFmul, decay_sf. cbn [xorb].
  change (2 ^ 52) with 4503599627370496 in *.
  change (2 ^ 53) with 9007199254740992 in *.
  destruct (Z_lt_le_dec (Zpos (m * 8106479329266893)) (2 ^ 105)) as [Small | Large].
  - destruct (round_product (m * 8106479329266893) (e + -53) 52)
      as (m' & e' & E & Bm' & C).
    + change (2 ^ (52 + 52)) with 20282409603651670423947251286016.
      change (2 ^ (53 + 52)) with (2 ^ 105). lia.
    + lia.
    + lia.
    + exists m', e'. split; [exact E|]. split; [exact Bm'|].
      change (2 ^ 52) with 4503599627370496 in *.
      change (2 ^ 53) with 9007199254740992 in *.
      destruct C as [[-> _] | (-> & -> & Top)]; [split; lia|].
      split; [lia|]. right. split; [lia|].
      destruct (Z.eq_dec (Zpos m) 4503599627370496) as [Em | Nm]; [|lia].
      exfalso. rewrite Pos2Z.inj_mul, Em in Top.
      vm_compute in Top. discriminate.
  - destruct (round_product (m * 8106479329266893) (e + -53) 53)
      as (m' & e' & E & Bm' & C).
    + change (2 ^ (52 + 53)) with (2 ^ 105).
      change (2 ^ (53 + 53)) with 81129638414606681695789005144064. lia.
    + lia.
    + lia.
    + exists m', e'. split; [exact E|]. split; [exact Bm'|].
      change (2 ^ 52) with 4503599627370496 in *.
      change (2 ^ 53) with 9007199254740992 in *.
      assert (Q : Zpos (m * 8106479329266893) / 9007199254740992 < Zpos m - 1).
      { apply Z.div_lt_upper_bound; lia. }
      destruct C as [[-> B] | (-> & -> & Top)]; [|lia].
      split; [lia|]. right. split; lia.
Qed.

(** [d * 2] is a normal number above [d]. *)
Lemma backoff_product (m : positive) (e : Z) :
  2 ^ 52 <= Zpos m < 2 ^ 53 -> -52 <= e <= -48 ->
  exists m' e',
    SF64mul (S754_finite false m e) two_sf = S754_finite false m' e'
    /\ 2 ^ 52 <= Zpos m' < 2 ^ 53
    /\ e < e'.
Proof.
  intros Bm Be. unfold SF64mul, SFmul, two_sf. cbn [xorb].
  change (2 ^ 52) with 4503599627370496 in *.
  change (2 ^ 53) with 9007199254740992 in *.
  destruct (round_product (m * 4503599627370496) (e + -51) 52)
    as (m' & e' & E & Bm' & C).
  - change (2 ^ (52 + 52)) with 20282409603651670423947251286016.
    change (2 ^ (53 + 52)) with 40564819207303340847894502572032. lia.
  - lia.
  - lia.
  - exists m', e'. split; [exact E|]. split; [exact Bm'|].
    destruct C as [[-> _] | (-> & _)]; lia.
Qed.

Local Open Scope float_scope.

Lemma Prim2SF_ceiling_expr : Prim2SF (MAX_DELAY * 10) = ceiling_sf.
Proof. vm_compute. reflexivity. Qed.
Lemma Prim2SF_MIN : Prim2SF MIN_DELAY = floor_sf.
Proof. vm_compute. reflexivity. Qed.

Ltac to_spec :=
  rewrite ?ltb_spec, ?leb_spec, ?mul_spec, ?Prim2SF_FLOOR, ?Prim2SF_CEILING,
    ?Prim2SF_DECAY, ?Prim2SF_BACKOFF, ?Prim2SF_ceiling_expr, ?Prim2SF_MIN in *.

Lemma in_range_FLOOR : in_range FLOOR.
Proof. split; vm_compute; reflexivity. Qed.
Lemma in_range_CEILING : in_range CEILING.
Proof. split; vm_compute; reflexivity. Qed.

Lemma at_ceiling (d : float) :
  in_range d -> (d <? CEILING) = false -> d = CEILING.
Proof.
  intros R F. destruct (in_range_between d R) as (m & e & E & Bm & Lo & Hi).
  rewrite ltb_spec, E, Prim2SF_CEILING in F. unfold ceiling_sf in F.
  assert (F' : ~ (e < -48 \/ e = -48 /\ Zpos m < 8444249301319680)%Z).
  { intros X. apply SFltb_finite in X. congruence. }
  apply Prim2SF_inj. rewrite E, Prim2SF_CEILING. unfold ceiling_sf.
  assert (e = (-48)%Z) by lia. assert (m = 8444249301319680%positive) by lia.
  now subst.
Qed.

Lemma at_floor (d : float) :
  in_range d -> (FLOOR <? d) = false -> d = FLOOR.
Proof.
  intros R F. destruct (in_range_between d R) as (m & e & E & Bm & Lo & Hi).
  rewrite ltb_spec, E, Prim2SF_FLOOR in F. unfold floor_sf in F.
  assert (F' : ~ (-52 < e \/ -52 = e /\ 6755399441055744 < Zpos m)%Z).
  { intros X. apply SFltb_finite in X. congruence. }
  apply Prim2SF_inj. rewrite E, Prim2SF_FLOOR. unfold floor_sf.
  assert (e = (-52)%Z) by lia. assert (m = 6755399441055744%positive) by lia.
  now subst.
Qed.

Lemma failure_facts (d : float) :
  in_range d ->
  ((d <? CEILING) = true -> (d <? failure d) = true)
  /\ in_range (failure d).
Proof.
  intros R. destruct (in_range_between d R) as (m & e & E & Bm & Lo & Hi).
  destruct (backoff_product m e Bm ltac:(lia)) as (m' & e' & E' & Bm' & Up).
  unfold failure, py_min.
  assert (T : (d * BACKOFF_FACTOR <? MAX_DELAY * 10)
              = SFltb (S754_finite false m' e') ceiling_sf).
  { to_spec. now rewrite E, E'. }
  rewrite T. unfold ceiling_sf in *.
  destruct (SFltb (S754_finite false m' e') _) eqn:C.
  - apply SFltb_finite in C. split; [|split].
    + intros _. rewrite ltb_spec, mul_spec, E, Prim2SF_BACKOFF, E'.
      apply SFltb_finite. lia.
    + rewrite leb_spec, mul_spec, E, Prim2SF_BACKOFF, E', Prim2SF_FLOOR.
      apply SFleb_finite. lia.
    + rewrite leb_spec, mul_spec, E, Prim2SF_BACKOFF, E', Prim2SF_CEILING.
      apply SFleb_finite. lia.
  - split; [intros L; exact L | apply in_range_CEILING].
Qed.

Lemma success_facts (d : float) :
  in_range d ->
  ((FLOOR <? d) = true -> (success d <? d) = true)
  /\ in_range (success d).
Proof.
  intros R. destruct (in_range_between d R) as (m & e & E & Bm & Lo & Hi).
  destruct (decay_product m e Bm ltac:(lia)) as (m' & e' & E' & Bm' & Dn & Lt).
  unfold success, py_max.
  assert (T : (MIN_DELAY <? d * DECAY)
              = SFltb floor_sf (S754_finite false m' e')).
  { to_spec. now rewrite E, E'. }
  rewrite T. unfold floor_sf in *.
  destruct (SFltb _ (S754_finite false m' e')) eqn:C.
  - apply SFltb_finite in C. split; [|split].
    + intros _. rewrite ltb_spec, mul_spec, E, Prim2SF_DECAY, E'.
      apply SFltb_finite. lia.
    + rewrite leb_spec, mul_spec, E, Prim2SF_DECAY, E', Prim2SF_FLOOR.
      apply SFleb_finite. lia.
    + rewrite leb_spec, mul_spec, E, Prim2SF_DECAY, E', Prim2SF_CEILING.
      apply SFleb_finite. lia.
  - split; [intros L; exact L | apply in_range_FLOOR].
Qed.

Lemma after_calls_in_range (calls : list call) (d : float) :
  in_range d -> in_range (after_calls calls d).
Proof.
  revert d; induction calls as [|c calls IH]; intros d R; [exact R|].
  cbn [after_calls fold_left]. apply IH. destruct c; cbn [apply_call].
  - apply (success_facts d R).
  - apply (failure_facts d R).
Qed.

(** C2. For every delay between the floor (1.5) and the ceiling
    (10 * 3.0 = 30): [failure] strictly increases it unless it is at the
    ceiling, where it stays; [success] strictly decreases it unless it is
    at the floor, where it stays; both leave it between floor and ceiling;
    and after any sequence of calls from the initial delay it is between
    floor and ceiling. The delay is a binary64 float and the products are
    rounded as IEEE 754 says. *)
Theorem delay_moves_within_bounds :
  (forall d, in_range d ->
     ((d <? CEILING) = true -> (d <? failure d) = true)
     /\ ((d <? CEILING) = false -> d = CEILING /\ failure d = CEILING)
     /\ ((FLOOR <? d) = true -> (success d <? d) = true)
     /\ ((FLOOR <? d) = false -> d = FLOOR /\ success d = FLOOR)
     /\ in_range (success d) /\ in_range (failure d))
  /\ (forall calls, in_range (after_calls calls init)).
Proof.
  split.
  - intros d R. destruct (failure_facts d R) as [F1 F2].
    destruct (success_facts d R) as [S1 S2].
    split; [exact F1|]. split.
    { intros F. pose proof (at_ceiling d R F) as ->. split; reflexivity. }
    split; [exact S1|]. split.
    { intros F. pose proof (at_floor d R F) as ->. split; reflexivity. }
    split; assumption.
  - intros calls. apply after_calls_in_range. apply in_range_FLOOR.
Qed.

(** The delay 2.0, and two failures followed by a success. *)
Lemma delay_moves_within_bounds_witness :
  (2 <? failure 2) = true /\ (success 2 <? 2) = true
  /\ in_range (success 2) /\ in_range (failure 2)
  /\ in_range (after_calls (OnFailure :: OnFailure :: OnSuccess :: nil) init).
Proof.
  assert (R : in_range 2) by (split; reflexivity).
  destruct (proj1 delay_moves_within_bounds 2 R) as (F & _ & S & _ & Rs & Rf).
  split; [apply F; reflexivity|]. split; [apply S; reflexivity|].
  split; [exact Rs|]. split; [exact Rf|].
  apply (proj2 delay_moves_within_bounds).
Defined.

End RateLimiterSpec.

(* ===================================================================== *)
(** * Theory: cleaned text and the raw-text fallback of the wall *)
(* ===================================================================== *)

Module TextSpec.
Import PyStr PyStrFacts Soup Records Extract Scraper Notions MoreNotions.
Local Open Scope N_scope.

(** [lstrip] drops a prefix of whitespace and stops at a character that is
    not whitespace. *)
Lemma lstrip_suffix (s : str) :
  exists pre, s = pre ++ lstrip s /\ forallb is_space pre = true.
Proof.
  induction s as [|c t (pre & E & F)]; [now exists []|].
  simpl. destruct (is_space c) eqn:C.
  - exists (c :: pre). simpl. rewrite C, F. split; [now f_equal | reflexivity].
  - now exists [].
Qed.

Lemma lstrip_starts_clean (s : str) : starts_clean (lstrip s) = true.
Proof.
  induction s as [|c t IH]; [reflexivity|]. simpl.
  destruct (is_space c) eqn:C; [exact IH|]. simpl. now rewrite C.
Qed.

Lemma lstrip_clean (s : str) : starts_clean s = true -> lstrip s = s.
Proof.
  destruct s as [|c t]; [reflexivity|]. simpl.
  now destruct (is_space c).
Qed.

Lemma rstrip_prefix (s : str) :
  exists post, s = rstrip s ++ post /\ forallb is_space post = true.
Proof.
  unfold rstrip. destruct (lstrip_suffix (rev s)) as (pre & E & F).
  exists (rev pre). split.
  - rewrite <- rev_app_distr, <- E. now rewrite rev_involutive.
  - rewrite forallb_forall in *. intros x Hx. apply F. now apply in_rev.
Qed.

Lemma single_spaced_tail (c : N) (t : str) :
  single_spaced (c :: t) = true -> single_spaced t = true.
Proof. simpl. intros H. now apply andb_true_iff in H. Qed.

Lemma single_spaced_suffix (pre s : str) :
  single_spaced (pre ++ s) = true -> single_spaced s = true.
Proof.
  induction pre as [|c pre IH]; [trivial|].
  intros H. apply IH. now apply single_spaced_tail in H.
Qed.

Lemma single_spaced_prefix (s post : str) :
  single_spaced (s ++ post) = true -> single_spaced s = true.
Proof.
  induction s as [|c t IH]; [reflexivity|].
  simpl. intros H. apply andb_true_iff in H. destruct H as [H1 H2].
  rewrite (IH H2), andb_true_r.
  destruct (is_space c); [|reflexivity].
  apply andb_true_iff in H1. destruct H1 as [E H1]. rewrite E. simpl.
  destruct t as [|c' t']; [reflexivity | exact H1].
Qed.

(** [re.sub(r'\s+', ' ', s)] leaves single spaces only, except that the
    result may start with one when [s] starts with whitespace. *)
Lemma collapse_from_spaced (s : str) (in_run : bool) :
  single_spaced (collapse_from in_run s) = true
  /\ (in_run = true -> starts_clean (collapse_from in_run s) = true).
Proof.
  revert in_run; induction s as [|c t IH]; intros in_run; [now split|].
  simpl. destruct (is_space c) eqn:C.
  - destruct (IH true) as [S1 S2]. specialize (S2 eq_refl).
    destruct in_run.
    + split; [exact S1 | now intros _].
    + split; [|discriminate]. simpl. rewrite S1, andb_true_r.
      unfold starts_clean in S2.
      destruct (collapse_from true t); [reflexivity | exact S2].
  - destruct (IH false) as [S1 _]. split.
    + simpl. now rewrite C, S1.
    + intros _. simpl. now rewrite C.
Qed.

Lemma collapse_ws_spaced (s : str) : single_spaced (collapse_ws s) = true.
Proof. apply collapse_from_spaced. Qed.

Lemma rstrip_starts_clean (s : str) :
  starts_clean s = true -> starts_clean (rstrip s) = true.
Proof.
  intros H. destruct (rstrip_prefix s) as (post & E & F).
  destruct (rstrip s) as [|c t] eqn:R; [reflexivity|].
  rewrite E in H. exact H.
Qed.

(** [strip] gives a string without whitespace at its ends, and keeps single
    spacing. *)
Lemma strip_trimmed (s : str) : trimmed (strip s) = true.
Proof.
  unfold trimmed, strip. apply andb_true_iff. split.
  - apply rstrip_starts_clean, lstrip_starts_clean.
  - unfold rstrip. rewrite rev_involutive. apply lstrip_starts_clean.
Qed.

Lemma strip_spaced (s : str) :
  single_spaced s = true -> single_spaced (strip s) = true.
Proof.
  intros H. unfold strip.
  destruct (lstrip_suffix s) as (pre & E & _).
  destruct (rstrip_prefix (lstrip s)) as (post & E' & _).
  rewrite E in H. apply single_spaced_suffix in H.
  rewrite E' in H. now apply single_spaced_prefix in H.
Qed.

Lemma collapse_from_fixed (s : str) (in_run : bool) :
  single_spaced s = true ->
  (in_run = true -> starts_clean s = true) ->
  collapse_from in_run s = s.
Proof.
  revert in_run; induction s as [|c t IH]; intros in_run S C; [reflexivity|].
  simpl in *. apply andb_true_iff in S. destruct S as [S1 S2].
  destruct (is_space c) eqn:Sp.
  - destruct in_run; [specialize (C eq_refl); discriminate|].
    apply andb_true_iff in S1. destruct S1 as [E N].
    apply N.eqb_eq in E. subst c. f_equal. apply IH; [exact S2|].
    intros _. destruct t; [reflexivity | exact N].
  - f_equal. apply IH; [exact S2 | discriminate].
Qed.

Lemma strip_fixed (s : str) : trimmed s = true -> strip s = s.
Proof.
  unfold trimmed, strip, rstrip. intros H. apply andb_true_iff in H.
  destruct H as [H1 H2]. rewrite (lstrip_clean _ H1), (lstrip_clean _ H2).
  apply rev_involutive.
Qed.

Lemma clean_text_trimmed {P : Platform} (element : node) :
  starts_clean (clean_text element) = true.
Proof.
  unfold clean_text, strip. apply rstrip_starts_clean, lstrip_starts_clean.
Qed.

(** X1. The text [clean_text] returns has no whitespace at its ends and only
    single spaces inside, whatever the element and whatever [unescape]
    does; cleaning such a text again changes nothing. *)
Theorem clean_text_normal {P : Platform} (element : node) :
  trimmed (clean_text element) = true
  /\ single_spaced (clean_text element) = true
  /\ strip (collapse_ws (clean_text element)) = clean_text element.
Proof.
  assert (T : trimmed (clean_text element) = true) by apply strip_trimmed.
  assert (S : single_spaced (clean_text element) = true)
    by apply strip_spaced, collapse_ws_spaced.
  split; [exact T | split; [exact S|]].
  unfold collapse_ws. rewrite collapse_from_fixed; [now apply strip_fixed | exact S |].
  discriminate.
Qed.

(** The words of [split]. *)
Lemma split_from_words (s word : str) :
  forallb (fun c => negb (is_space c)) word = true ->
  Forall is_word (split_from word s).
Proof.
  revert word; induction s as [|c t IH]; intros word W; simpl.
  - destruct word; [constructor|]. constructor; [|constructor].
    split; [discriminate | exact W].
  - destruct (is_space c) eqn:C.
    + destruct word as [|x word]; simpl; [now apply IH|].
      constructor; [split; [discriminate | exact W] | now apply IH].
    + apply IH. rewrite forallb_app, W. simpl. now rewrite C.
Qed.

Lemma split_words (s : str) : Forall is_word (split s).
Proof. now apply split_from_words. Qed.

Lemma join_nonempty (sep : str) (ws : list str) :
  ws <> [] -> Forall is_word ws -> join sep ws <> [].
Proof.
  destruct ws as [|w rest]; [congruence|]. intros _ F.
  inversion F as [|? ? [Hw _] _]; subst. simpl.
  destruct rest; [exact Hw|]. destruct w; [congruence | discriminate].
Qed.

End TextSpec.

Module FallbackSpec.
Import PyStr PyStrFacts Soup Records Extract Scraper Notions MoreNotions TextSpec.

Lemma Forall_firstn {A} (Q : A -> Prop) (n : nat) (l : list A) :
  Forall Q l -> Forall Q (firstn n l).
Proof.
  intros H. rewrite Forall_forall in *. intros x Hx. apply H.
  now apply firstn_In in Hx.
Qed.

Lemma Forall_skipn {A} (Q : A -> Prop) (n : nat) (l : list A) :
  Forall Q l -> Forall Q (skipn n l).
Proof.
  intros H. rewrite <- (firstn_skipn n l) in H. now apply Forall_app in H.
Qed.

Section WithPlatform.
Context {P : Platform}.

(** What one part of the split text contributes. *)
Lemma raw_group_sound (part : str) : Forall raw_group_ok (raw_group part).
Proof.
  unfold raw_group. destruct (nonempty (strip part)) eqn:Ne; [|constructor].
  cbn [negb]. pose proof (split_words (strip part)) as W.
  destruct (5 <=? length (split (strip part)))%nat eqn:L.
  - apply Nat.leb_le in L. constructor; [|constructor].
    unfold raw_group_ok. split; [|split].
    + rewrite length_firstn. lia.
    + now apply Forall_firstn.
    + apply join_nonempty; [|now apply Forall_skipn].
      intros E. apply (f_equal (@length str)) in E.
      rewrite length_skipn in E. cbn [length] in E. lia.
  - apply Nat.leb_gt in L.
    destruct (split (strip part)) eqn:S; [constructor|].
    constructor; [|constructor]. unfold raw_group_ok. split.
    + destruct (strip part); discriminate.
    + rewrite S. exact L.
Qed.

End WithPlatform.

(** X6. The raw-text fallback of the wall gives groups of exactly four items,
    each a word, with a connection that is not empty; a part of fewer than
    five words is kept as raw text, and an empty part gives nothing. *)
Theorem parse_wall_raw_text_groups (text : str) :
  Forall raw_group_ok (parse_wall_raw_text text).
Proof.
  unfold parse_wall_raw_text. apply Forall_flat_map.
  apply Forall_forall. intros part _. apply raw_group_sound.
Qed.

End FallbackSpec.

(* ===================================================================== *)
(** * Theory: the missing vowels round *)
(* ===================================================================== *)

Module VowelSpec.
Import PyStr PyStrFacts Soup Records Extract Scraper Notions MoreNotions TextSpec FallbackSpec.

(** The inner loops stop at the end of the words or at a word that fails
    the test. *)
Lemma span_words_spec (p : str -> bool) (ws : list str) :
  ws = fst (span_words p ws) ++ snd (span_words p ws)
  /\ match snd (span_words p ws) with
     | [] => True
     | w :: _ => p w = false
     end.
Proof.
  induction ws as [|w t [E H]]; [now split|]. simpl.
  destruct (p w) eqn:Pw.
  - destruct (span_words p t) as [run rest]. simpl in *. split; [now f_equal | exact H].
  - now split.
Qed.

Lemma span_words_length (p : str -> bool) (ws : list str) :
  length (snd (span_words p ws)) <= length ws.
Proof.
  destruct (span_words_spec p ws) as [E _].
  rewrite E at 2. rewrite length_app. lia.
Qed.

Lemma span_words_Forall (Q : str -> Prop) (p : str -> bool) (ws : list str) :
  Forall Q ws ->
  Forall Q (fst (span_words p ws)) /\ Forall Q (snd (span_words p ws)).
Proof.
  intros F. destruct (span_words_spec p ws) as [E _]. rewrite E in F.
  now apply Forall_app in F.
Qed.

Section WithPlatform.
Context {P : Platform}.

(** The loop, one round at a time. *)
Lemma vowel_words_round (fuel : nat) (word : str) (rest : list str) (a : vowel_acc) :
  vowel_words (S fuel) (word :: rest) a
  = vowel_words fuel (fst (vowel_round word rest a)) (snd (vowel_round word rest a)).
Proof.
  cbn [vowel_words]. unfold vowel_round.
  destruct (has_vowels word && negb (is_consonant_clue word)).
  - destruct (span_words has_vowels rest) as [more rest'].
    destruct rest' as [|next rest'']; [reflexivity|].
    destruct (negb (has_vowels next)); reflexivity.
  - destruct (span_words _ rest) as [more rest']. reflexivity.
Qed.

Lemma vowel_round_length (word : str) (rest : list str) (a : vowel_acc) :
  length (fst (vowel_round word rest a)) <= length rest.
Proof.
  unfold vowel_round.
  destruct (has_vowels word && negb (is_consonant_clue word)).
  - pose proof (span_words_length has_vowels rest) as L.
    destruct (span_words has_vowels rest) as [more rest']. simpl in L.
    destruct rest' as [|next rest'']; [simpl; lia|].
    destruct (negb (has_vowels next)); exact L.
  - match goal with |- context [span_words ?p rest] =>
      pose proof (span_words_length p rest) as L;
      destruct (span_words p rest) as [more rest'] end.
    exact L.
Qed.

(** The bound on the rounds is never what stops the loop: with as many
    rounds as words, or more, the result is the same. *)
Lemma vowel_words_fuel (n : nat) :
  forall fuel fuel' words a,
    length words <= n -> length words <= fuel -> length words <= fuel' ->
    vowel_words fuel words a = vowel_words fuel' words a.
Proof.
  induction n as [|n IH]; intros fuel fuel' words a Ln L L'.
  - destruct words; [|simpl in Ln; lia]. now destruct fuel, fuel'.
  - destruct words as [|word rest]; [now destruct fuel, fuel'|].
    destruct fuel as [|fuel]; [simpl in L; lia|].
    destruct fuel' as [|fuel']; [simpl in L'; lia|].
    rewrite !vowel_words_round.
    pose proof (vowel_round_length word rest a) as R. simpl in *.
    apply IH; lia.
Qed.

Lemma vowel_words_nil (fuel : nat) (a : vowel_acc) : vowel_words fuel [] a = a.
Proof. now destruct fuel. Qed.

Lemma vowel_round_words (word : str) (rest : list str) (a : vowel_acc) :
  Forall is_word rest -> Forall is_word (fst (vowel_round word rest a)).
Proof.
  intros F. unfold vowel_round.
  destruct (has_vowels word && negb (is_consonant_clue word)).
  - destruct (span_words_Forall has_vowels F) as [_ R].
    destruct (span_words has_vowels rest) as [more rest']. simpl in R.
    destruct rest' as [|next rest'']; [constructor|].
    destruct (negb (has_vowels next)); exact R.
  - match goal with |- context [span_words ?p rest] =>
      destruct (span_words_Forall p F) as [_ R];
      destruct (span_words p rest) as [more rest'] end.
    exact R.
Qed.

(** A property of the variables that every round keeps holds when the loop
    ends. *)
Lemma vowel_words_keeps (Inv : vowel_acc -> Prop) :
  (forall word rest a,
     is_word word -> Forall is_word rest -> Inv a ->
     Inv (snd (vowel_round word rest a))) ->
  forall fuel words a,
    Forall is_word words -> Inv a -> Inv (vowel_words fuel words a).
Proof.
  intros Step. induction fuel as [|fuel IH]; intros words a F I; [exact I|].
  destruct words as [|word rest]; [exact I|].
  rewrite vowel_words_round. inversion F; subst.
  apply IH; [now apply vowel_round_words | now apply Step].
Qed.

Lemma phrase_nonempty (word : str) (more : list str) :
  is_word word -> join (py " ") (word :: more) <> [].
Proof.
  intros [Hw _]. simpl. destruct more; [exact Hw|].
  destruct word; [congruence | discriminate].
Qed.

Lemma flush_started (a : vowel_acc) : started a = true -> flush a <> [].
Proof.
  unfold started, flush. intros S.
  destruct (nonempty (current_category a) || nonempty (current_clues a)) eqn:E.
  - intros H. now apply app_eq_nil in H.
  - apply orb_false_iff in E. destruct E as [E1 E2].
    rewrite <- orb_assoc, E1, E2, !orb_false_r in S.
    now destruct (categories a).
Qed.

Lemma vowel_round_started (word : str) (rest : list str) (a : vowel_acc) :
  is_word word -> started (snd (vowel_round word rest a)) = true.
Proof.
  intros W. unfold vowel_round, started.
  destruct (has_vowels word && negb (is_consonant_clue word)).
  - destruct (span_words has_vowels rest) as [more rest'].
    pose proof (phrase_nonempty more W) as Ph.
    destruct (match rest' with [] => false | next :: _ => negb (has_vowels next) end);
      cbn [snd categories current_category current_clues].
    + destruct (join (py " ") (word :: more)); [congruence|].
      simpl. now rewrite orb_true_r.
    + destruct (current_clues a) as [|c cs]; simpl.
      * now rewrite !orb_true_r.
      * destruct cs; simpl; now rewrite !orb_true_r.
  - destruct (span_words _ rest) as [more rest'].
    cbn [snd categories current_category current_clues].
    destruct (current_clues a); simpl; now rewrite !orb_true_r.
Qed.

Lemma flush_categories (a : vowel_acc) :
  forallb is_category (categories a) = true ->
  forallb is_category (flush a) = true.
Proof.
  unfold flush. intros H.
  destruct (nonempty (current_category a) || nonempty (current_clues a));
    [|exact H].
  rewrite forallb_app, H. reflexivity.
Qed.

Lemma vowel_round_categories (word : str) (rest : list str) (a : vowel_acc) :
  forallb is_category (categories a) = true ->
  forallb is_category (categories (snd (vowel_round word rest a))) = true.
Proof.
  intros H. unfold vowel_round.
  destruct (has_vowels word && negb (is_consonant_clue word)).
  - destruct (span_words has_vowels rest) as [more rest'].
    destruct (match rest' with [] => false | next :: _ => negb (has_vowels next) end);
      cbn [snd categories]; [now apply flush_categories | exact H].
  - destruct (span_words _ rest) as [more rest']. exact H.
Qed.

End WithPlatform.

Lemma all_clues_app (x y : list vowel_category) :
  all_clues (x ++ y) = all_clues x ++ all_clues y.
Proof. apply flat_map_app. Qed.

Lemma all_clues_flush (a : vowel_acc) :
  all_clues (flush a) = all_clues (categories a) ++ current_clues a.
Proof.
  unfold flush.
  destruct (nonempty (current_category a) || nonempty (current_clues a)) eqn:E.
  - rewrite all_clues_app. simpl. now rewrite app_nil_r.
  - apply orb_false_iff in E. destruct E as [_ E].
    destruct (current_clues a); [now rewrite app_nil_r | discriminate].
Qed.

Lemma removelast_set_last_answer (phrase : str) (clues : list vowel_clue) :
  removelast (set_last_answer phrase clues) = removelast clues.
Proof.
  induction clues as [|c cs IH]; [reflexivity|].
  destruct cs as [|c' cs']; [reflexivity|].
  change (set_last_answer phrase (c :: c' :: cs'))
    with (c :: set_last_answer phrase (c' :: cs')).
  change (removelast (c :: c' :: cs')) with (c :: removelast (c' :: cs')).
  rewrite <- IH. simpl. destruct cs'; reflexivity.
Qed.

Lemma Forall_removelast {A} (Q : A -> Prop) (l : list A) :
  Forall Q l -> Forall Q (removelast l).
Proof.
  induction l as [|x l IH]; [trivial|]. intros F. inversion F; subst.
  destruct l; [constructor|]. constructor; [assumption | now apply IH].
Qed.

Section Answers.
Context {P : Platform}.

(** A round gives an answer to a clue only when it reads the last words. *)
Lemma vowel_round_open (word : str) (rest : list str) (a : vowel_acc) :
  all_open a ->
  all_open (snd (vowel_round word rest a))
  \/ (fst (vowel_round word rest a) = [] /\ open_but_last (snd (vowel_round word rest a))).
Proof.
  intros [C O]. unfold vowel_round.
  destruct (has_vowels word && negb (is_consonant_clue word)).
  - pose proof (span_words_spec has_vowels rest) as [_ Stop].
    destruct (span_words has_vowels rest) as [more rest']. cbn [snd] in Stop.
    destruct rest' as [|next rest''].
    + right. split; [reflexivity|]. split; [exact C|].
      cbn [snd current_clues]. destruct (nonempty (current_clues a)) eqn:Ne.
      * rewrite removelast_set_last_answer. now apply Forall_removelast.
      * rewrite removelast_last. exact O.
    + rewrite Stop. left. split; cbn [snd categories current_clues negb];
        [|constructor].
      rewrite all_clues_flush. apply Forall_app. now split.
  - destruct (span_words _ rest) as [more rest']. left.
    split; [exact C|]. cbn [snd current_clues]. apply Forall_app.
    split; [exact O|]. constructor; [|constructor]. split; [reflexivity | discriminate].
Qed.

Lemma vowel_words_open (fuel : nat) (words : list str) (a : vowel_acc) :
  all_open a -> open_but_last (vowel_words fuel words a).
Proof.
  revert words a; induction fuel as [|fuel IH]; intros words a [C O].
  - split; [exact C | now apply Forall_removelast].
  - destruct words as [|word rest].
    + split; [exact C | now apply Forall_removelast].
    + rewrite vowel_words_round.
      destruct (@vowel_round_open word rest a (conj C O)) as [A | [E L]].
      * now apply IH.
      * rewrite E, vowel_words_nil. exact L.
Qed.

End Answers.

(** X9. In the raw-text parser a phrase with vowels is taken as the answer of a
    clue only when it ends the text (a phrase followed by more words
    starts a category): in what the parser returns every clue but the
    last has its puzzle text and an empty answer. *)
Theorem raw_answer_only_at_end (text : str) :
  Forall open_clue (removelast (all_clues (parse_vowels_raw_text text))).
Proof.
  unfold parse_vowels_raw_text.
  set (a := vowel_words (length (split text)) (split text) (VowelAcc [] [] [])).
  assert (L : open_but_last a).
  { apply vowel_words_open. split; constructor. }
  destruct (nonempty (flush a)); [|constructor].
  rewrite all_clues_flush. destruct L as [C O].
  destruct (current_clues a) as [|c cs] eqn:E.
  - rewrite app_nil_r. now apply Forall_removelast.
  - rewrite removelast_app by discriminate. apply Forall_app. now split.
Qed.

(** A text with a word gives categories, and at least one. *)
Lemma raw_text_with_words (text : str) :
  split text <> [] ->
  parse_vowels_raw_text text <> []
  /\ forallb is_category (parse_vowels_raw_text text) = true.
Proof.
  unfold parse_vowels_raw_text.
  intros Ne. pose proof (split_words text) as F.
  set (a := vowel_words (length (split text)) (split text) (VowelAcc [] [] [])).
  assert (S : started a = true).
  { unfold a. destruct (split text) as [|word rest]; [congruence|].
    cbn [length]. rewrite vowel_words_round. inversion F; subst.
    apply (vowel_words_keeps (fun a => started a = true)).
    - intros w r b Hw _ _. now apply vowel_round_started.
    - now apply vowel_round_words.
    - now apply vowel_round_started. }
  assert (C : forallb is_category (flush a) = true).
  { apply flush_categories. unfold a.
    apply (vowel_words_keeps (fun a => forallb is_category (categories a) = true));
      [|exact F | reflexivity].
    intros w r b _ _. apply vowel_round_categories. }
  pose proof (flush_started a S) as N.
  destruct (flush a); [congruence|]. cbn [nonempty]. split; [discriminate | exact C].
Qed.

(** X10. The raw-text parser of the missing vowels keeps the whole text as one
    raw record exactly when the text has no word; as soon as there is a
    word it returns categories, at least one, and no raw record. *)
Theorem parse_vowels_raw_text_fallback (text : str) :
  (split text = [] -> parse_vowels_raw_text text = [RawCategory text])
  /\ (split text <> [] ->
      parse_vowels_raw_text text <> []
      /\ forallb is_category (parse_vowels_raw_text text) = true).
Proof.
  split.
  - unfold parse_vowels_raw_text. intros ->. reflexivity.
  - apply raw_text_with_words.
Qed.

Lemma parse_vowels_raw_text_fallback_witness :
  parse_vowels_raw_text (py "")
  = [RawCategory (py "")]
  /\ forallb is_category (parse_vowels_raw_text (py "CT cat")) = true.
Proof.
  split.
  - apply (proj1 (parse_vowels_raw_text_fallback (py ""))). reflexivity.
  - apply (proj2 (parse_vowels_raw_text_fallback (py "CT cat"))).
    vm_compute. discriminate.
Defined.

Section Filled.
Context {P : Platform}.

Lemma flush_filled (a : vowel_acc) :
  all_filled a -> Forall category_filled (flush a).
Proof.
  intros [C O]. unfold flush.
  destruct (nonempty (current_category a) || nonempty (current_clues a)) eqn:E;
    [|exact C].
  apply Forall_app. split; [exact C|]. constructor; [|constructor].
  split; [|exact O]. apply orb_true_iff in E.
  destruct E as [E | E]; [left | right]; intros H; rewrite H in E; discriminate.
Qed.

Lemma set_last_answer_filled (phrase : str) (clues : list vowel_clue) :
  phrase <> [] -> Forall clue_filled clues ->
  Forall clue_filled (set_last_answer phrase clues).
Proof.
  intros Ph. induction clues as [|c cs IH]; [trivial|]. intros F.
  inversion F; subst. destruct cs as [|c' cs'].
  - constructor; [|constructor]. now right.
  - change (set_last_answer phrase (c :: c' :: cs'))
      with (c :: set_last_answer phrase (c' :: cs')).
    constructor; [assumption | now apply IH].
Qed.

Lemma vowel_round_filled (word : str) (rest : list str) (a : vowel_acc) :
  is_word word -> all_filled a -> all_filled (snd (vowel_round word rest a)).
Proof.
  intros W [C O]. unfold vowel_round.
  destruct (has_vowels word && negb (is_consonant_clue word)).
  - destruct (span_words has_vowels rest) as [more rest'].
    pose proof (phrase_nonempty more W) as Ph.
    destruct (match rest' with [] => false | next :: _ => negb (has_vowels next) end).
    + split; [now apply flush_filled | constructor].
    + split; [exact C|]. cbn [snd current_clues].
      destruct (nonempty (current_clues a)).
      * now apply set_last_answer_filled.
      * apply Forall_app. split; [exact O|]. constructor; [now right | constructor].
  - destruct (span_words _ rest) as [more rest'].
    pose proof (phrase_nonempty more W) as Ph.
    split; [exact C|]. cbn [snd current_clues].
    apply Forall_app. split; [exact O|]. constructor; [|constructor].
    left. eexists. split; [reflexivity | exact Ph].
Qed.

Lemma vowel_child_filled (a : vowel_acc) (child : node) :
  all_filled a -> all_filled (vowel_child a child).
Proof.
  intros [C O]. unfold vowel_child.
  destruct (negb (is_tag child)); [now split|].
  destruct (str_in (py "category") (classes child)).
  { split; [now apply flush_filled | constructor]. }
  destruct (str_in (py "missing-vowels") (classes child)); [|now split].
  destruct (find (div_class "card") child) as [card|]; [|now split].
  match goal with |- context [if nonempty ?q || nonempty ?r then _ else _] =>
    destruct (nonempty q) eqn:Q; [|destruct (nonempty r) eqn:R] end;
    cbn [orb]; try now split.
  - split; [exact C|]. apply Forall_app. split; [exact O|].
    constructor; [|constructor]. left. eexists. split; [reflexivity|].
    intros H. rewrite H in Q. discriminate.
  - split; [exact C|]. apply Forall_app. split; [exact O|].
    constructor; [|constructor]. right. cbn [vc_answer].
    intros H. rewrite H in R. discriminate.
Qed.

Lemma vowel_child_categories (a : vowel_acc) (child : node) :
  forallb is_category (categories a) = true ->
  forallb is_category (categories (vowel_child a child)) = true.
Proof.
  intros H. unfold vowel_child.
  destruct (negb (is_tag child)); [exact H|].
  destruct (str_in (py "category") (classes child)); [now apply flush_categories|].
  destruct (str_in (py "missing-vowels") (classes child)); [|exact H].
  destruct (find (div_class "card") child); [|exact H].
  match goal with |- context [if ?b then _ else _] => destruct b end; exact H.
Qed.

Lemma fold_left_keeps {A B} (Inv : A -> Prop) (f : A -> B -> A) (l : list B) (a : A) :
  (forall a b, Inv a -> Inv (f a b)) -> Inv a -> Inv (fold_left f l a).
Proof.
  intros Step. revert a; induction l as [|b l IH]; intros a I; [exact I|].
  simpl. apply IH. now apply Step.
Qed.

Lemma split_nonempty (s : str) :
  s <> [] -> starts_clean s = true -> split s <> [].
Proof.
  destruct s as [|c t]; [congruence|]. intros _ C. simpl in C.
  unfold split. simpl. destruct (is_space c); [discriminate|].
  simpl. generalize [c] (@nil_cons N c []). clear.
  induction t as [|x t IH]; intros word Hw; simpl.
  - destruct word; [congruence | discriminate].
  - destruct (is_space x).
    + destruct word; [congruence | discriminate].
    + apply IH. now destruct word.
Qed.

End Filled.

(** X7. Whatever the page, [parse_vowels_round] records no empty category and
    no empty clue: a category has a name or a clue, a clue has a puzzle
    text or an answer. *)
Theorem parse_vowels_round_filled {P : Platform} (soup : node) :
  Forall category_filled (parse_vowels_round soup).
Proof.
  unfold parse_vowels_round.
  destruct (find_round_header _ _ soup) as [round_header|]; [|constructor].
  destruct (find (div_class "vowel-round") soup) as [vowel_div|].
  - apply flush_filled. apply fold_left_keeps.
    + intros a b. apply vowel_child_filled.
    + split; constructor.
  - destruct (next_sibling is_tag (after round_header)) as [content|]; [|constructor].
    destruct (nonempty (clean_text (here content))) eqn:Ne; [|constructor].
    unfold parse_vowels_raw_text.
    match goal with |- context [flush ?x] => set (a := x) end.
    assert (F : Forall category_filled (flush a)).
    { apply flush_filled. unfold a.
      apply (vowel_words_keeps all_filled).
      - intros w r b Hw _. now apply vowel_round_filled.
      - apply split_words.
      - split; constructor. }
    destruct (nonempty (flush a)); [exact F|].
    constructor; [|constructor]. simpl. intros H. rewrite H in Ne. discriminate.
Qed.

(** X8. [parse_vowels_round] never returns the raw-text record: the text it
    hands to the raw-text parser is clean and not empty, so it has a word. *)
Theorem parse_vowels_round_never_raw {P : Platform} (soup : node) :
  forallb is_category (parse_vowels_round soup) = true.
Proof.
  unfold parse_vowels_round.
  destruct (find_round_header _ _ soup) as [round_header|]; [|reflexivity].
  destruct (find (div_class "vowel-round") soup) as [vowel_div|].
  - apply flush_categories.
    apply (fold_left_keeps (fun a => forallb is_category (categories a) = true)).
    + intros a b. apply vowel_child_categories.
    + reflexivity.
  - destruct (next_sibling is_tag (after round_header)) as [content|]; [|reflexivity].
    destruct (nonempty (clean_text (here content))) eqn:Ne; [|reflexivity].
    apply raw_text_with_words. apply split_nonempty.
    + intros H. rewrite H in Ne. discriminate.
    + apply clean_text_trimmed.
Qed.

End VowelSpec.

(* ===================================================================== *)
(** * Theory: clues, rounds and the episode list *)
(* ===================================================================== *)

Module PageSpec.
Import PyStr PyStrFacts Soup Records Extract Scraper Notions MoreNotions.
Import RunSpec TextSpec FallbackSpec VowelSpec.

(** What [find] returns passes the filter. *)
Lemma find_passes (p : node -> bool) (n : node) (l : located) :
  find p n = Some l -> p (here l) = true.
Proof. unfold find. intros H. now apply find_some in H. Qed.

Lemma flat_map_length_le {A B} (f : A -> list B) (l : list A) :
  (forall a, length (f a) <= 1) -> length (flat_map f l) <= length l.
Proof.
  intros H. induction l as [|a l IH]; [reflexivity|].
  simpl. rewrite length_app. specialize (H a). lia.
Qed.

Section WithPlatform.
Context {P : Platform}.

Lemma clean_text_nonempty (element : node) :
  nonempty (clean_text element) = true -> clean_text element <> [].
Proof. intros H E. rewrite E in H. discriminate. Qed.

(** A clue cell gives at most one clue, and a sound one. *)
Lemma clue_of_cell_sound (clue_div : node) :
  Forall clue_sound (clue_of_cell clue_div) /\ length (clue_of_cell clue_div) <= 1.
Proof.
  unfold clue_of_cell.
  destruct (find mp3_link clue_div) as [audio_link|] eqn:A.
  { split; [|simpl; lia]. constructor; [|constructor].
    apply find_passes in A. unfold mp3_link in A.
    apply andb_true_iff in A. destruct A as [_ A].
    unfold clue_sound, get_or_empty.
    destruct (get (py "href") (here audio_link)); [exact A | discriminate]. }
  destruct (find (named (py "img")) clue_div) as [img|].
  { split; [|simpl; lia]. constructor; [exact I | constructor]. }
  destruct (find (div_class "card") clue_div) as [card|].
  { destruct (find (div_class "back") (here card)) as [back|]; [|split; [constructor | simpl; lia]].
    destruct (nonempty (clean_text (here back))) eqn:Ne; [|split; [constructor | simpl; lia]].
    split; [|simpl; lia]. constructor; [|constructor]. now apply clean_text_nonempty. }
  destruct (nonempty (clean_text clue_div)) eqn:Ne; cbn [andb];
    [|split; [constructor | simpl; lia]].
  destruct (negb (str_in (clean_text clue_div) PLACEHOLDERS));
    [|split; [constructor | simpl; lia]].
  split; [|simpl; lia]. constructor; [|constructor]. now apply clean_text_nonempty.
Qed.

(** The questions of a connection round: one per sub-heading at most,
    with sound clues. *)
Lemma connection_questions_sound (sibs : list node) :
  Forall (fun q => Forall clue_sound (q_clues q)) (connection_questions sibs)
  /\ length (connection_questions sibs) <= count_h3 (until_next_round sibs).
Proof.
  unfold count_h3.
  induction sibs as [|current rest [F L]]; [split; [constructor | reflexivity]|].
  cbn [connection_questions until_next_round].
  destruct (negb (is_tag current)) eqn:T.
  { assert (N : next_round current = false) by now destruct current.
    rewrite N. cbn [filter]. split; [exact F|].
    destruct (named (py "h3") current); simpl; lia. }
  destruct (next_round current); [split; [constructor | simpl; lia]|].
  cbn [filter].
  destruct (named (py "h3") current); [|now split].
  destruct (or_else _ _) as [grid|].
  - split; [|simpl; lia]. constructor; [|exact F]. cbn [q_clues].
    unfold extract_clues. apply Forall_flat_map. apply Forall_forall.
    intros cell _. apply clue_of_cell_sound.
  - split; [exact F | simpl; lia].
Qed.

(** The items of a group of a wall are not empty. *)
Lemma group_items_nonempty (wall_container : node) (n : N) :
  Forall (fun item => item <> []) (group_items wall_container n).
Proof.
  unfold group_items. apply Forall_flat_map. apply Forall_forall.
  intros cell _. destruct (find (div_class "clue") (here cell)) as [clue_div|];
    [|constructor].
  destruct (nonempty (clean_text (here clue_div))) eqn:Ne; [|constructor].
  constructor; [now apply clean_text_nonempty | constructor].
Qed.

Lemma wall_group_of_sound (wall_container : node) (n : N) :
  Forall group_sound (wall_group_of wall_container n).
Proof.
  unfold wall_group_of.
  destruct (nonempty (group_items wall_container n)) eqn:I; cbn [orb].
  - constructor; [|constructor]. split; [apply group_items_nonempty|].
    left. intros H. rewrite H in I. discriminate.
  - destruct (nonempty (group_connection wall_container n)) eqn:C; [|constructor].
    constructor; [|constructor]. split; [apply group_items_nonempty|].
    right. intros H. rewrite H in C. discriminate.
Qed.

Lemma raw_group_ok_sound (g : wall_group) : raw_group_ok g -> group_sound g.
Proof.
  destruct g as [items connection | text]; simpl.
  - intros (L & W & C). split; [|now right].
    eapply Forall_impl; [|exact W]. now intros w [Hw _].
  - now intros [H _].
Qed.

Lemma wall_questions_sound (sibs : list node) :
  Forall (fun w => Forall group_sound (w_groups w)) (wall_questions sibs)
  /\ length (wall_questions sibs) <= count_h3 (until_next_round sibs).
Proof.
  unfold count_h3.
  induction sibs as [|current rest [F L]]; [split; [constructor | reflexivity]|].
  cbn [wall_questions until_next_round].
  destruct (negb (is_tag current)) eqn:T.
  { assert (N : next_round current = false) by now destruct current.
    rewrite N. cbn [filter]. split; [exact F|].
    destruct (named (py "h3") current); simpl; lia. }
  destruct (next_round current); [split; [constructor | simpl; lia]|].
  cbn [filter].
  destruct (named (py "h3") current); [|now split].
  destruct (next_sibling (div_class "question") rest) as [question_div|].
  - split; [|simpl; lia]. constructor; [|exact F]. cbn [w_groups].
    destruct (find (div_class "wall-container") (here question_div)) as [wc|].
    + apply Forall_flat_map. apply Forall_forall. intros n _.
      apply wall_group_of_sound.
    + destruct (nonempty (clean_text (here question_div))); [|constructor].
      unfold parse_wall_raw_text. apply Forall_flat_map.
      apply Forall_forall. intros part _.
      eapply Forall_impl; [|apply raw_group_sound]. apply raw_group_ok_sound.
  - split; [exact F | simpl; lia].
Qed.

(** The loop of [get_episode_urls] keeps links under a series header
    only. *)
Lemma listing_entries_sound (elements : list located) (current_series : option str)
    (entries : list stub) :
  (forall t, current_series = Some t -> startswith (py "Series") t = true) ->
  listing_entries BASE_URL current_series elements = Returned entries ->
  Forall stub_sound entries
  /\ length entries
     <= length (filter (fun l => named (py "a") (here l)) elements).
Proof.
  revert current_series entries; induction elements as [|element rest IH];
    intros current_series entries S.
  { cbn [listing_entries]. intros E. injection E as <-.
    split; [constructor | reflexivity]. }
  cbn [listing_entries filter].
  destruct (named (py "h2") (here element)) eqn:H2.
  { assert (A : named (py "a") (here element) = false).
    { destruct (here element) as [| |name attrs cs]; try reflexivity.
      simpl in *. apply str_eqb_eq in H2. now subst. }
    rewrite A.
    destruct (startswith (py "Series") (get_text_strip (here element))) eqn:St.
    - apply IH. intros t E. inversion E; subst. exact St.
    - now apply IH. }
  destruct current_series as [series_text|].
  2:{ intros E. destruct (IH None entries S E) as [F L]. split; [exact F|].
      destruct (named (py "a") (here element)); simpl; lia. }
  destruct (named (py "a") (here element)); cbn [andb]; [|now apply IH].
  destruct (nonempty series_text);
    [|intros E; destruct (IH _ entries S E) as [F L];
      split; [exact F | simpl; lia]].
  destruct (contains (py "/episode/") (get_or_empty (py "href") (here element)))
    eqn:C;
    [|intros E; destruct (IH _ entries S E) as [F L];
      split; [exact F | simpl; lia]].
  destruct (match search_number (py "Episode") (get_text_strip (here element)) with
            | Some ds => and_then (int_of_digits ds) (fun n => Returned (Some n))
            | None => Returned None
            end) as [ep_num|]; cbn [and_then]; [|discriminate].
  destruct (urljoin BASE_URL (get_or_empty (py "href") (here element)))
    as [address|] eqn:U; cbn [and_then]; [|discriminate].
  destruct (listing_entries BASE_URL (Some series_text) rest) as [more|] eqn:R;
    cbn [and_then]; [|discriminate].
  intros E. injection E as <-.
  destruct (IH _ more S R) as [F L].
  split; [|simpl; lia]. constructor; [|exact F].
  split; [now apply S|]. split.
  - eexists. split; [exact U | exact C].
  - apply strip_trimmed.
Qed.

End WithPlatform.

(** X2. Every clue [extract_clues] returns holds something: a text clue
    is not empty, an audio clue has an address that ends in [.mp3] (or in
    [.mp3] and a final newline, as [$] allows); and a clue cell gives one
    clue at most, so there are no more clues than cells. *)
Theorem extract_clues_sound {P : Platform} (container : node) :
  Forall clue_sound (extract_clues container)
  /\ length (extract_clues container)
     <= length (find_all (div_class "clue") container).
Proof.
  unfold extract_clues. split.
  - apply Forall_flat_map. apply Forall_forall. intros cell _.
    apply clue_of_cell_sound.
  - apply flat_map_length_le. intros cell. apply clue_of_cell_sound.
Qed.

(** X3. A connection round has sound clues only, and no more questions
    than there are sub-headings between its heading and the heading of
    the next round; without a heading of its own it has no question. *)
Theorem parse_connection_round_sound {P : Platform} (soup : node) (round_num : N) :
  Forall (fun q => Forall clue_sound (q_clues q))
         (parse_connection_round soup round_num)
  /\ match find_round_header (py "round" ++ str_of_N round_num)
                             (py "Round " ++ str_of_N round_num) soup with
     | Some round_header =>
         length (parse_connection_round soup round_num)
         <= count_h3 (until_next_round (after round_header))
     | None => parse_connection_round soup round_num = []
     end.
Proof.
  unfold parse_connection_round.
  destruct (find_round_header _ _ soup) as [round_header|].
  - apply connection_questions_sound.
  - split; [constructor | reflexivity].
Qed.

(** X5. The walls of round 3 hold groups with content only: no item of
    a group is empty, a group has an item or a connection, a raw group
    has text; and there are no more walls than sub-headings before the
    next round. *)
Theorem parse_wall_round_sound {P : Platform} (soup : node) :
  Forall (fun w => Forall group_sound (w_groups w)) (parse_wall_round soup)
  /\ match find_round_header (py "round3") (py "Round 3") soup with
     | Some round_header =>
         length (parse_wall_round soup)
         <= count_h3 (until_next_round (after round_header))
     | None => parse_wall_round soup = []
     end.
Proof.
  unfold parse_wall_round.
  destruct (find_round_header _ _ soup) as [round_header|].
  - apply wall_questions_sound.
  - split; [constructor | reflexivity].
Qed.

(** X11. Every entry of the episode list comes from a link whose address
    contains [/episode/] and carries a series that starts with [Series].
    Its URL is what [urljoin] returns for the base URL and the address,
    and its title has no whitespace at its ends. This holds for the list
    of any page and so for the listing of an execution; where [int] or
    [urljoin] raises there is no list and no entry. *)
Theorem listing_under_series {P : Platform} (W : world) (soup : node) :
  Forall stub_sound (returned_or [] (episodes_of_listing BASE_URL soup))
  /\ Forall stub_sound (listing W).
Proof.
  assert (A : forall page,
             Forall stub_sound (returned_or [] (episodes_of_listing BASE_URL page))).
  { intros page. unfold episodes_of_listing.
    match goal with |- context [listing_entries ?b ?c ?e] =>
      destruct (listing_entries b c e) as [entries|] eqn:E end;
      [|constructor].
    cbn [returned_or]. eapply listing_entries_sound; [|exact E].
    intros t H. discriminate. }
  split; [apply A|].
  unfold listing, listed. rewrite get_episode_urls_eq. cbn [fst].
  destruct (fst (fetch_page W EPISODES_URL (new_scraper None None)));
    [apply A | constructor].
Qed.

End PageSpec.

(* ===================================================================== *)
(** * Theory: question labels *)
(* ===================================================================== *)

Module LabelSpec.
Import PyStr PyStrFacts Soup Records Extract Notions MoreNotions ExtractSpec.

Section WithPlatform.
Context {P : Platform}.

(** Each loop gives a name of its list. *)
Lemma greek_match_In (pairs : list (str * str)) (label_text greek : str) :
  greek_match pairs label_text = Some greek -> In greek (map fst pairs).
Proof.
  induction pairs as [|[g s] rest IH]; [discriminate|].
  cbn [greek_match map fst].
  destruct (contains g label_text || contains s label_text).
  - intros E. left. congruence.
  - intros E. right. now apply IH.
Qed.

Lemma index_label_In (label_text l : str) :
  index_label label_text = Some l -> In l (EGYPTIAN_GLYPHS ++ GREEK_LETTERS).
Proof.
  unfold index_label. intros E. apply in_or_app. revert E.
  destruct (glyph_match EGYPTIAN_GLYPHS label_text) as [glyph|] eqn:G.
  - intros E. injection E as <-. left. exact (glyph_match_In _ _ G).
  - destruct (greek_match _ label_text) as [greek|] eqn:K; [|discriminate].
    intros E. injection E as <-. right.
    apply (greek_match_In _ _ K).
Qed.

End WithPlatform.

(** X4. The label of a question is the heading itself or one of the twelve
    index names, and an index name is its own label: resolving a label
    that was resolved before changes nothing. *)
Theorem resolve_label_stable {P : Platform} (label_text : str) :
  (resolve_label label_text = label_text
   \/ In (resolve_label label_text) (EGYPTIAN_GLYPHS ++ GREEK_LETTERS))
  /\ resolve_label (resolve_label label_text) = resolve_label label_text.
Proof.
  assert (K : forall l, In l (EGYPTIAN_GLYPHS ++ GREEK_LETTERS) ->
                        resolve_label l = l).
  { intros l H. cbn in H.
    repeat (destruct H as [<- | H]; [vm_compute; reflexivity|]).
    destruct H. }
  assert (C : resolve_label label_text = label_text
              \/ In (resolve_label label_text) (EGYPTIAN_GLYPHS ++ GREEK_LETTERS)).
  { unfold resolve_label.
    destruct (index_label label_text) as [l|] eqn:I; [|now left].
    destruct (nonempty l); [right | now left].
    exact (index_label_In _ I). }
  split; [exact C|].
  destruct C as [E | H]; [now rewrite E | now apply K].
Qed.

End LabelSpec.

(* ===================================================================== *)
(** * Theory: the outcome of a fetch *)
(* ===================================================================== *)

Module FetchMore.
Import PyStr PyStrFacts Soup Records Extract Scraper Notions MoreNotions FetchSpec.

Lemma retried_not_ok (r : response) (doc : node) :
  retried r = true -> r <> Http 200 doc.
Proof. intros H E. subst. discriminate. Qed.

Lemma rejected_not_ok (r : response) (doc : node) :
  rejected r = true -> r <> Http 200 doc.
Proof. intros H E. subst. discriminate. Qed.

Lemma rejected_not_retried (r : response) :
  rejected r = true -> retried r = false.
Proof.
  destruct r as [c d| |]; simpl; try discriminate.
  destruct (c =? 200)%Z; [discriminate|]. simpl.
  destruct (c =? 429)%Z; [discriminate|].
  now destruct (c >=? 500)%Z.
Qed.

Section WithWorld.
Variable W : world.

(** The loop ends with a document exactly when an answer 200 comes after
    answers that are all tried again, within the attempts. *)
Lemma fetch_attempts_some (n : nat) (u : str) (st : state) (doc : node) :
  fst (fetch_attempts W n u st) = Some doc
  <-> exists k, k < n
        /\ server W (length (requests st) + k) u = Http 200 doc
        /\ forall j, j < k -> retried (server W (length (requests st) + j) u) = true.
Proof.
  revert st; induction n as [|n IH]; intros st.
  - simpl. split; [discriminate | intros (k & Hk & _); lia].
  - destruct (response_cases (server W (length (requests st)) u))
      as [[doc' R] | [R | R]].
    + rewrite (fetch_attempts_ok W _ _ _ R). simpl. split.
      * intros E. inversion E; subst. exists 0. rewrite Nat.add_0_r.
        split; [lia | split; [exact R | intros j Hj; lia]].
      * intros (k & Hk & E & Rt). destruct k as [|k].
        -- rewrite Nat.add_0_r, R in E. now inversion E.
        -- specialize (Rt 0 ltac:(lia)). rewrite Nat.add_0_r, R in Rt. discriminate.
    + rewrite (fetch_attempts_retry W _ _ _ R). rewrite IH. simpl.
      rewrite length_app. simpl. split.
      * intros (k & Hk & E & Rt). exists (S k). split; [lia|]. split.
        -- now replace (length (requests st) + S k)
             with (length (requests st) + 1 + k) by lia.
        -- intros [|j] Hj; [now rewrite Nat.add_0_r|].
           replace (length (requests st) + S j)
             with (length (requests st) + 1 + j) by lia.
           apply Rt. lia.
      * intros (k & Hk & E & Rt). destruct k as [|k].
        -- rewrite Nat.add_0_r in E. now apply retried_not_ok with (doc := doc) in R.
        -- exists k. split; [lia|]. split.
           ++ now replace (length (requests st) + 1 + k)
                with (length (requests st) + S k) by lia.
           ++ intros j Hj.
              replace (length (requests st) + 1 + j)
                with (length (requests st) + S j) by lia.
              apply Rt. lia.
    + rewrite (fetch_attempts_reject W _ _ _ R). simpl. split; [discriminate|].
      intros (k & Hk & E & Rt). destruct k as [|k].
      * rewrite Nat.add_0_r in E. now apply rejected_not_ok with (doc := doc) in R.
      * specialize (Rt 0 ltac:(lia)). rewrite Nat.add_0_r in Rt.
        apply rejected_not_retried in R. congruence.
Qed.

(** The loop asks at least once when it has an attempt. *)
Lemma fetch_attempts_log_pos (n : nat) (u : str) (st : state) :
  exists k, 1 <= k <= S n /\
    only_fetched st (snd (fetch_attempts W (S n) u st)) (repeat u k).
Proof.
  destruct (response_cases (server W (length (requests st)) u))
    as [[doc R] | [R | R]].
  - rewrite (fetch_attempts_ok W _ _ _ R). exists 1. split; [lia|].
    apply only_fetched_set_delay.
  - rewrite (fetch_attempts_retry W _ _ _ R).
    match goal with |- context [fetch_attempts W n u ?s] =>
      destruct (fetch_attempts_log W n u s) as (k & Hk & F) end.
    exists (S k). split; [lia|].
    change (repeat u (S k)) with ([u] ++ repeat u k).
    eapply only_fetched_trans; [apply only_fetched_set_delay | exact F].
  - rewrite (fetch_attempts_reject W _ _ _ R). exists 1. split; [lia|].
    apply only_fetched_set_delay.
Qed.

Lemma fetch_page_log_pos (u : str) (st : state) :
  exists k, 1 <= k <= 5 /\ only_fetched st (snd (fetch_page W u st)) (repeat u k).
Proof. apply (fetch_attempts_log_pos 4). Qed.

End WithWorld.

(** X12. [fetch_page] returns a document exactly when, among the answers to its
    5 attempts, a 200 comes after answers that are all tried again (429, 500
    or more, timeout, connection error); the document is the body of that
    answer. *)
Theorem fetch_page_succeeds_iff (W : world) (u : str) (st : state) (doc : node) :
  fst (fetch_page W u st) = Some doc
  <-> exists k, k < 5
        /\ server W (length (requests st) + k) u = Http 200 doc
        /\ forall j, j < k -> retried (server W (length (requests st) + j) u) = true.
Proof. apply fetch_attempts_some. Qed.

(** The server that answers 429, 500 and then 200. *)
Lemma fetch_page_succeeds_iff_witness :
  fst (fetch_page Fixtures.flaky Fixtures.episode_1 (new_scraper None None))
  = Some Fixtures.one_link.
Proof.
  apply (proj2 (fetch_page_succeeds_iff Fixtures.flaky Fixtures.episode_1
                  (new_scraper None None) Fixtures.one_link)).
  exists 2. split; [lia|]. split; [reflexivity|].
  intros j Hj. destruct j as [|[|j]]; [reflexivity | reflexivity | lia].
Defined.

End FetchMore.

Module OutcomeSpec.
Import PyStr PyStrFacts Soup Records Extract Scraper Fixtures Notions MoreNotions.
Import FetchSpec RunSpec FetchMore.



End OutcomeSpec.

(* ===================================================================== *)
(** * Theory: streaks of failures and successes *)
(* ===================================================================== *)

Module BackoffSpec.
Import RateLimiter RateLimiterSpec.
Local Open Scope Z_scope.
Local Unset Implicit Arguments.

Lemma exponent_in_range (d : float) : in_range d -> -52 <= exponent d <= -48.
Proof.
  intros R. destruct (in_range_between d R) as (m & e & E & _ & Lo & Hi).
  unfold exponent. rewrite E. lia.
Qed.

(** A failure reaches the ceiling or raises the exponent of the delay. *)
Lemma failure_climbs (d : float) :
  in_range d -> failure d = CEILING \/ exponent d < exponent (failure d).
Proof.
  intros R. destruct (in_range_between d R) as (m & e & E & Bm & Lo & Hi).
  destruct (backoff_product m e Bm ltac:(lia)) as (m' & e' & E' & _ & Up).
  unfold failure, py_min.
  destruct (PrimFloat.ltb (PrimFloat.mul d BACKOFF_FACTOR) (PrimFloat.mul MAX_DELAY 10)).
  - right. unfold exponent.
    now rewrite mul_spec, E, Prim2SF_BACKOFF, E'.
  - now left.
Qed.

Lemma iter_failure_in_range (k : nat) (d : float) :
  in_range d -> in_range (Nat.iter k failure d).
Proof.
  intros R. induction k as [|k IH]; [exact R|].
  change (Nat.iter (S k) failure d) with (failure (Nat.iter k failure d)).
  apply (failure_facts _ IH).
Qed.

Lemma iter_failure_climbs (k : nat) (d : float) :
  in_range d ->
  Nat.iter k failure d = CEILING
  \/ exponent d + Z.of_nat k <= exponent (Nat.iter k failure d).
Proof.
  intros R. induction k as [|k IH]; [right; simpl; lia|].
  change (Nat.iter (S k) failure d) with (failure (Nat.iter k failure d)).
  destruct IH as [-> | IH]; [now left|].
  destruct (failure_climbs _ (iter_failure_in_range k d R)) as [C | C];
    [now left | right; lia].
Qed.

(** Five failures in a row take any delay between floor and ceiling to
    the ceiling. *)
Lemma five_failures (d : float) : in_range d -> Nat.iter 5 failure d = CEILING.
Proof.
  intros R. destruct (iter_failure_climbs 5 d R) as [C | C]; [exact C|].
  pose proof (exponent_in_range d R).
  pose proof (exponent_in_range _ (iter_failure_in_range 5 d R)). lia.
Qed.

End BackoffSpec.

Module RecoverySpec.
Import RateLimiter RateLimiterSpec BackoffSpec.
Local Open Scope Z_scope.
Local Unset Implicit Arguments.

(** [d * 0.9], rounded to nearest, is at most one unit in the last place
    above the exact product. *)
Lemma decay_product_bound (m : positive) (e : Z) :
  2 ^ 52 <= Zpos m < 2 ^ 53 -> -52 <= e <= -48 ->
  exists m' e',
    SF64mul (S754_finite false m e) decay_sf = S754_finite false m' e'
    /\ ((e' = e - 1 /\ Zpos m' * 2 ^ 52 <= Zpos m * 8106479329266893 + 2 ^ 53)
        \/ (e' = e /\ Zpos m' * 2 ^ 53 <= Zpos m * 8106479329266893 + 2 ^ 53)).
Proof.
  intros Bm Be. unfold SF64mul, SFmul, decay_sf. cbn [xorb].
  change (2 ^ 52) with 4503599627370496 in *.
  change (2 ^ 53) with 9007199254740992 in *.
  destruct (Z_lt_le_dec (Zpos (m * 8106479329266893)) (2 ^ 105)) as [Small | Large].
  - destruct (round_product (m * 8106479329266893) (e + -53) 52)
      as (m' & e' & E & Bm' & C).
    + change (2 ^ (52 + 52)) with 20282409603651670423947251286016.
      change (2 ^ (53 + 52)) with (2 ^ 105). lia.
    + lia.
    + lia.
    + exists m', e'. split; [exact E|].
      change (2 ^ 52) with 4503599627370496 in *.
      change (2 ^ 53) with 9007199254740992 in *.
      pose proof (Z.mul_div_le (Zpos (m * 8106479329266893)) 4503599627370496
                    ltac:(lia)) as Q.
      rewrite Pos2Z.inj_mul in *.
      destruct C as [[-> B] | (-> & -> & Top)]; [left | right]; split; lia.
  - destruct (round_product (m * 8106479329266893) (e + -53) 53)
      as (m' & e' & E & Bm' & C).
    + change (2 ^ (52 + 53)) with (2 ^ 105).
      change (2 ^ (53 + 53)) with 81129638414606681695789005144064. lia.
    + lia.
    + lia.
    + exists m', e'. split; [exact E|].
      change (2 ^ 52) with 4503599627370496 in *.
      change (2 ^ 53) with 9007199254740992 in *.
      pose proof (Z.mul_div_le (Zpos (m * 8106479329266893)) 9007199254740992
                    ltac:(lia)) as Q.
      assert (Q' : Zpos (m * 8106479329266893) / 9007199254740992 < Zpos m - 1).
      { apply Z.div_lt_upper_bound; lia. }
      rewrite Pos2Z.inj_mul in *.
      destruct C as [[-> B] | (-> & -> & Top)]; [|lia].
      right. split; lia.
Qed.

Lemma scaled_between (d : float) :
  in_range d ->
  exists m e,
    Prim2SF d = S754_finite false m e
    /\ 2 ^ 52 <= Zpos m < 2 ^ 53 /\ -52 <= e <= -48
    /\ scaled d = Zpos m * 2 ^ (e + 53)
    /\ 13510798882111488 <= scaled d <= 270215977642229760.
Proof.
  intros R. destruct (in_range_between d R) as (m & e & E & Bm & Lo & Hi).
  exists m, e. unfold scaled. rewrite E.
  split; [reflexivity|]. split; [exact Bm|]. split; [lia|]. split; [reflexivity|].
  change (2 ^ 52) with 4503599627370496 in *.
  change (2 ^ 53) with 9007199254740992 in *.
  assert (C : e = -52 \/ e = -51 \/ e = -50 \/ e = -49 \/ e = -48) by lia.
  destruct C as [-> | [-> | [-> | [-> | ->]]]]; cbn; lia.
Qed.

(** A success brings the delay to the floor, or multiplies it by a factor
    that is below 0.9 + 2 ^ -52. *)
Lemma success_step (d : float) :
  in_range d ->
  success d = FLOOR
  \/ scaled (success d) * 2 ^ 53 <= scaled d * 8106479329266895.
Proof.
  intros R. destruct (scaled_between d R) as (m & e & E & Bm & Be & S & _).
  destruct (decay_product_bound m e Bm Be) as (m' & e' & E' & C).
  unfold success, py_max.
  destruct (PrimFloat.ltb MIN_DELAY (PrimFloat.mul d DECAY)); [right | now left].
  rewrite S. unfold scaled. rewrite mul_spec, E, Prim2SF_DECAY, E'.
  change (2 ^ 52) with 4503599627370496 in *.
  change (2 ^ 53) with 9007199254740992 in *.
  assert (Pw : 2 ^ (e + 53) = 2 * 2 ^ (e + 52)).
  { replace (e + 53) with (Z.succ (e + 52)) by lia. apply Z.pow_succ_r. lia. }
  assert (Pp : 0 < 2 ^ (e + 52)) by (apply Z.pow_pos_nonneg; lia).
  destruct C as [[-> B] | [-> B]].
  - replace (e - 1 + 53) with (e + 52) by lia. rewrite Pw.
    assert (H : Zpos m' * 9007199254740992 <= Zpos m * 2 * 8106479329266895) by lia.
    apply (Z.mul_le_mono_nonneg_r _ _ (2 ^ (e + 52))) in H; lia.
  - rewrite Pw.
    assert (H : Zpos m' * 9007199254740992 <= Zpos m * 8106479329266895) by lia.
    apply (Z.mul_le_mono_nonneg_r _ _ (2 * 2 ^ (e + 52))) in H; lia.
Qed.

Lemma iter_success_in_range (k : nat) (d : float) :
  in_range d -> in_range (Nat.iter k success d).
Proof.
  intros R. induction k as [|k IH]; [exact R|].
  change (Nat.iter (S k) success d) with (success (Nat.iter k success d)).
  apply (success_facts _ IH).
Qed.

Lemma success_FLOOR : success FLOOR = FLOOR.
Proof. reflexivity. Qed.

Lemma iter_success_decays (k : nat) (d : float) :
  in_range d ->
  Nat.iter k success d = FLOOR
  \/ scaled (Nat.iter k success d) * (2 ^ 53) ^ Z.of_nat k
     <= scaled d * 8106479329266895 ^ Z.of_nat k.
Proof.
  intros R. induction k as [|k IH];
    [right; change (Nat.iter 0 success d) with d; cbn [Z.of_nat];
     rewrite !Z.pow_0_r; lia|].
  change (Nat.iter (S k) success d) with (success (Nat.iter k success d)).
  destruct IH as [-> | IH]; [left; apply success_FLOOR|].
  destruct (success_step _ (iter_success_in_range k d R)) as [C | C];
    [now left | right].
  rewrite Nat2Z.inj_succ, !Z.pow_succ_r by lia.
  set (a := scaled (success (Nat.iter k success d))) in *.
  set (b := scaled (Nat.iter k success d)) in *.
  set (p := (2 ^ 53) ^ Z.of_nat k) in *.
  set (q := 8106479329266895 ^ Z.of_nat k) in *.
  assert (Pp : 0 <= p) by (apply Z.pow_nonneg; lia).
  apply (Z.mul_le_mono_nonneg_r _ _ p) in C; [|exact Pp].
  apply (Z.mul_le_mono_nonneg_r _ _ 8106479329266895) in IH; lia.
Qed.

(** X14. Streaks of the rate limiter. After 29 successes in a row the delay
    is back at [MIN_DELAY], whatever it was between floor and ceiling, and
    28 are not enough from the ceiling; after five failures in a row it is
    at the ceiling of 30 seconds, and four are not enough from the floor.
    The products are those of binary64, rounded to nearest. *)
Theorem delay_recovers :
  (forall d, in_range d -> Nat.iter 29 success d = FLOOR)
  /\ PrimFloat.ltb FLOOR (Nat.iter 28 success CEILING) = true
  /\ (forall d, in_range d -> Nat.iter 5 failure d = CEILING)
  /\ PrimFloat.ltb (Nat.iter 4 failure FLOOR) CEILING = true.
Proof.
  split; [|split; [vm_compute; reflexivity|];
           split; [exact five_failures | vm_compute; reflexivity]].
  intros d R. destruct (iter_success_decays 29 d R) as [C | C]; [exact C|].
  exfalso.
  destruct (scaled_between d R) as (_ & _ & _ & _ & _ & _ & _ & Hi).
  destruct (scaled_between _ (iter_success_in_range 29 d R))
    as (_ & _ & _ & _ & _ & _ & Lo & _).
  set (a := scaled (Nat.iter 29 success d)) in *.
  set (b := scaled d) in *.
  assert (Pp : 0 <= (2 ^ 53) ^ Z.of_nat 29) by (apply Z.pow_nonneg; lia).
  assert (Pq : 0 <= 8106479329266895 ^ Z.of_nat 29) by (apply Z.pow_nonneg; lia).
  apply (Z.mul_le_mono_nonneg_r _ _ ((2 ^ 53) ^ Z.of_nat 29)) in Lo; [|exact Pp].
  apply (Z.mul_le_mono_nonneg_r _ _ (8106479329266895 ^ Z.of_nat 29)) in Hi;
    [|exact Pq].
  assert (N : 270215977642229760 * 8106479329266895 ^ Z.of_nat 29
              < 13510798882111488 * (2 ^ 53) ^ Z.of_nat 29)
    by (vm_compute; reflexivity).
  lia.
Qed.

(** The delay 2.0. *)
Lemma delay_recovers_witness :
  Nat.iter 29 success 2%float = FLOOR /\ Nat.iter 5 failure 2%float = CEILING.
Proof.
  split.
  - apply (proj1 delay_recovers). split; reflexivity.
  - apply (proj1 (proj2 (proj2 delay_recovers))). split; reflexivity.
Defined.

End RecoverySpec.

(* ===================================================================== *)
(** * Theory: a whole execution *)
(* ===================================================================== *)

Module CrawlSpec.
Import PyStr PyStrFacts Soup Records Extract Scraper Notions MoreNotions.
Import FetchSpec RunSpec FetchMore BackoffSpec.

Section WithWorld.
Context {P : Platform}.
Variable W : world.

(** The fetch loop keeps the delay between floor and ceiling. *)
Lemma fetch_attempts_delay (n : nat) (u : str) (st : state) :
  RateLimiter.in_range (delay st) ->
  RateLimiter.in_range (delay (snd (fetch_attempts W n u st))).
Proof.
  revert st; induction n as [|n IH]; intros st R; [exact R|].
  destruct (response_cases (server W (length (requests st)) u))
    as [[doc E] | [E | E]].
  - rewrite (fetch_attempts_ok W _ _ _ E). simpl.
    apply (RateLimiterSpec.success_facts _ R).
  - rewrite (fetch_attempts_retry W _ _ _ E). apply IH. simpl.
    apply (RateLimiterSpec.failure_facts _ R).
  - rewrite (fetch_attempts_reject W _ _ _ E). exact R.
Qed.

(** When every answer is tried again, each attempt is a failure for the
    rate limiter. *)
Lemma fetch_attempts_exhaust_delay (n : nat) (u : str) (st : state) :
  (forall k, k < n -> retried (server W (length (requests st) + k) u) = true) ->
  delay (snd (fetch_attempts W n u st)) = Nat.iter n RateLimiter.failure (delay st).
Proof.
  revert st; induction n as [|n IH]; intros st H; [reflexivity|].
  rewrite fetch_attempts_retry.
  2:{ specialize (H 0). rewrite Nat.add_0_r in H. apply H. lia. }
  rewrite IH.
  - simpl. now rewrite <- Nat.iter_succ_r.
  - intros k Hk. simpl. rewrite length_app. simpl.
    replace (length (requests st) + 1 + k) with (length (requests st) + S k) by lia.
    apply H. lia.
Qed.

(** The bookkeeping of an entry leaves the delay and the log as the fetch
    left them. *)
Lemma booked_frame (ep_info : stub) (st : state) :
  delay (booked W ep_info st) = delay (snd (fetch_page W (s_url ep_info) st))
  /\ requests (booked W ep_info st) = requests (snd (fetch_page W (s_url ep_info) st)).
Proof.
  unfold booked.
  destruct (fst (parse_episode W (s_url ep_info) ep_info st)) as [[e|]|];
    split; reflexivity.
Qed.

Lemma scrape_one_frame (i : nat) (ep_info : stub) (st : state) :
  delay (snd (scrape_one W i ep_info st))
  = delay (snd (fetch_page W (s_url ep_info) st))
  /\ requests (snd (scrape_one W i ep_info st))
     = requests (snd (fetch_page W (s_url ep_info) st)).
Proof.
  rewrite scrape_one_eq. destruct (booked_frame ep_info st) as [D R].
  destruct ((i + 1) mod 10 =? 0)%nat; simpl; now split.
Qed.

Lemma scrape_from_delay (work : list stub) (i : nat) (st : state) :
  RateLimiter.in_range (delay st) ->
  RateLimiter.in_range (delay (snd (scrape_from W i work st))).
Proof.
  revert i st; induction work as [|ep_info rest IH]; intros i st R; [exact R|].
  rewrite scrape_from_cons. apply IH.
  destruct (scrape_one_frame i ep_info st) as [-> _].
  now apply fetch_attempts_delay.
Qed.

(** The log of the loop: each entry of the work list in turn, 1 to 5
    times. *)
Lemma scrape_from_blocks (work : list stub) (i : nat) (st : state) :
  exists times,
    length times = length work
    /\ Forall (fun k => 1 <= k <= 5) times
    /\ requests (snd (scrape_from W i work st))
       = requests st ++ blocks (map s_url work) times.
Proof.
  revert i st; induction work as [|ep_info rest IH]; intros i st.
  - exists []. simpl. unfold blocks. simpl. now rewrite app_nil_r.
  - rewrite scrape_from_cons.
    destruct (IH (S i) (snd (scrape_one W i ep_info st))) as (times & L & F & R).
    destruct (scrape_one_frame i ep_info st) as [_ R1].
    destruct (fetch_page_log_pos W (s_url ep_info) st) as (k & Hk & Fk).
    exists (k :: times). split; [simpl; now rewrite L|].
    split; [now constructor|].
    rewrite R, R1. destruct Fk as (_ & _ & _ & _ & _ & ->).
    unfold blocks. simpl. now rewrite <- app_assoc.
Qed.

(** The loop only appends: to the records, to the completed URLs (the URL
    of each new record, in the same order) and to the failed URLs; and
    every entry of the work list goes to exactly one of the two lists. *)
Lemma scrape_from_growth (work : list stub) (i : nat) (st : state) :
  exists new_episodes new_failed,
    episodes (snd (scrape_from W i work st)) = episodes st ++ new_episodes
    /\ completed (progress_now (snd (scrape_from W i work st)))
       = completed (progress_now st) ++ map url new_episodes
    /\ failed (progress_now (snd (scrape_from W i work st)))
       = failed (progress_now st) ++ new_failed
    /\ Permutation (map url new_episodes ++ new_failed) (map s_url work).
Proof.
  revert i st; induction work as [|ep_info rest IH]; intros i st.
  - exists [], []. simpl. rewrite !app_nil_r. repeat split. constructor.
  - rewrite scrape_from_cons.
    destruct (IH (S i) (snd (scrape_one W i ep_info st)))
      as (ne & nf & E1 & E2 & E3 & Pm).
    rewrite E1, E2, E3. clear E1 E2 E3. rewrite scrape_one_eq.
    destruct (booked_cases W ep_info st) as (k & _ & _ & _ & _ & _ & C).
    assert (S : forall s, episodes (snd (save_progress s)) = episodes s
                          /\ progress_now (snd (save_progress s)) = progress_now s)
      by (intros s; split; reflexivity).
    destruct C as [(e & Ue & _ & Ee & Pe) | (_ & Ee & Pe)].
    + exists (e :: ne), nf.
      destruct ((i + 1) mod 10 =? 0)%nat;
        [destruct (S (booked W ep_info st)) as [-> ->]|];
        rewrite Ee, Pe; simpl; rewrite <- !app_assoc; simpl; rewrite Ue;
        (split; [reflexivity|]); (split; [reflexivity|]); (split; [reflexivity|]);
        now constructor.
    + exists ne, (s_url ep_info :: nf).
      destruct ((i + 1) mod 10 =? 0)%nat;
        [destruct (S (booked W ep_info st)) as [-> ->]|];
        rewrite Ee, Pe; simpl; rewrite <- !app_assoc; simpl;
        (split; [reflexivity|]); (split; [reflexivity|]); (split; [reflexivity|]);
        (apply Permutation_sym; apply Permutation_cons_app;
         now apply Permutation_sym).
Qed.

(** The listing is asked for 1 to 5 times, and nothing else changes. *)
Lemma get_episode_urls_log_pos (st : state) :
  exists k, 1 <= k <= 5 /\
    only_fetched st (snd (get_episode_urls W st)) (repeat EPISODES_URL k).
Proof. rewrite get_episode_urls_eq. apply fetch_page_log_pos. Qed.

Lemma get_episode_urls_delay (st : state) :
  RateLimiter.in_range (delay st) ->
  RateLimiter.in_range (delay (snd (get_episode_urls W st))).
Proof. rewrite get_episode_urls_eq. apply fetch_attempts_delay. Qed.

Lemma work_list_nil (max_episodes : option Z) (resume : bool) (done : list str) :
  work_list max_episodes resume done [] = [].
Proof.
  unfold work_list. destruct resume; simpl;
    (destruct max_episodes as [m|]; [|reflexivity]);
    (destruct (m =? 0)%Z; [reflexivity|]);
    unfold slice_to; destruct (0 <=? m)%Z; apply firstn_nil.
Qed.

(** The work list of [run] is the planned one. *)
Lemma run_work_list (max_episodes : option Z) (resume : bool)
    (pf : option progress) (outf : option (list episode)) :
  work_list max_episodes resume
    (completed (progress_now (snd (get_episode_urls W (loaded resume pf outf)))))
    (listing W)
  = planned W max_episodes resume pf.
Proof.
  destruct (get_episode_urls_log W (loaded resume pf outf))
    as (k & _ & _ & E & _).
  rewrite E. unfold planned, loaded. destruct resume; [|reflexivity].
  simpl. now destruct pf.
Qed.

(** [run] on the state the loop ends in, whether the listing is empty or
    not. *)
Lemma session_loop (max_episodes : option Z) (resume : bool)
    (pf : option progress) (outf : option (list episode)) :
  let st1 := snd (get_episode_urls W (loaded resume pf outf)) in
  let st2 := snd (scrape_from W 0 (planned W max_episodes resume pf) st1) in
  session W max_episodes resume pf outf
  = if nonempty (listing W) then snd (save_progress st2) else st2.
Proof.
  cbv zeta. rewrite session_eq. cbv zeta. rewrite run_work_list.
  destruct (nonempty (listing W)) eqn:Ne; [reflexivity|]. cbn [negb].
  unfold planned. destruct (listing W); [|discriminate].
  now rewrite work_list_nil.
Qed.

(** The log of an execution is the log of its loop, which starts from
    1 to 5 requests for the listing. *)
Lemma session_log (max_episodes : option Z) (resume : bool)
    (pf : option progress) (outf : option (list episode)) :
  let st1 := snd (get_episode_urls W (loaded resume pf outf)) in
  let st2 := snd (scrape_from W 0 (planned W max_episodes resume pf) st1) in
  requests (session W max_episodes resume pf outf) = requests st2
  /\ exists first, 1 <= first <= 5 /\ requests st1 = repeat EPISODES_URL first.
Proof.
  cbv zeta. pose proof (session_loop max_episodes resume pf outf) as E.
  cbv zeta in E. rewrite E. split.
  - now destruct (nonempty (listing W)).
  - destruct (get_episode_urls_log_pos (loaded resume pf outf))
      as (first & Hf & _ & _ & _ & _ & _ & R1).
    exists first. split; [exact Hf|]. rewrite R1.
    unfold loaded. now destruct resume.
Qed.

(** The records and the progress in memory at the end are those of the
    loop, which starts from what was loaded. *)
Lemma session_memory (max_episodes : option Z) (resume : bool)
    (pf : option progress) (outf : option (list episode)) :
  let st1 := snd (get_episode_urls W (loaded resume pf outf)) in
  let st2 := snd (scrape_from W 0 (planned W max_episodes resume pf) st1) in
  episodes (session W max_episodes resume pf outf) = episodes st2
  /\ progress_now (session W max_episodes resume pf outf) = progress_now st2
  /\ episodes st1 = episodes (loaded resume pf outf)
  /\ progress_now st1 = progress_now (loaded resume pf outf).
Proof.
  cbv zeta. pose proof (session_loop max_episodes resume pf outf) as E.
  cbv zeta in E. rewrite E.
  destruct (get_episode_urls_log W (loaded resume pf outf))
    as (k & _ & E1 & E2 & _).
  destruct (nonempty (listing W)); simpl; now repeat split.
Qed.

(** What [load_progress] leaves in memory. *)
Lemma loaded_memory (resume : bool) (pf : option progress)
    (outf : option (list episode)) :
  aligned pf outf ->
  map url (episodes (loaded resume pf outf))
  = completed (progress_now (loaded resume pf outf)).
Proof.
  unfold aligned, loaded. intros A. destruct resume; [|reflexivity].
  destruct pf, outf; simpl in *; exact A.
Qed.

Lemma blocks_length (urls : list str) (times : list nat) :
  length times = length urls ->
  Forall (fun k => 1 <= k <= 5) times ->
  length urls <= length (blocks urls times) <= 5 * length urls.
Proof.
  revert times; induction urls as [|u urls IH]; intros [|k times] L F;
    try discriminate; [simpl; lia|].
  inversion F; subst. simpl in L. injection L as L.
  specialize (IH times L ltac:(assumption)).
  unfold blocks in *. simpl. rewrite length_app, repeat_length. lia.
Qed.




(** [run] raises exactly when [get_episode_urls] does. *)
Lemma run_result (max_episodes : option Z) (resume : bool)
    (pf : option progress) (outf : option (list episode)) :
  fst (run W max_episodes resume (new_scraper pf outf))
  = and_then (listed W) (fun _ => Returned tt).
Proof.
  unfold run, run_ending, bind, gets, ret.
  assert (E : fst (get_episode_urls W (loaded resume pf outf)) = listed W).
  { apply get_episode_urls_listed. unfold loaded. now destruct resume. }
  unfold loaded in E.
  destruct resume; cbn [load_progress modify snd] in *;
    destruct (get_episode_urls W _) as [l st1]; cbn [fst snd] in *; subst l;
    (destruct (listed W) as [l|]; [|reflexivity]); cbn [and_then];
    (destruct (negb (nonempty l)); [reflexivity|]);
    destruct (scrape_from W 0 _ st1) as [[] st2];
    destruct (save_progress st2); reflexivity.
Qed.

Lemma planned_cap (p : positive) (resume : bool) (pf : option progress) :
  length (planned W (Some (Z.pos p)) resume pf) <= Pos.to_nat p.
Proof.
  unfold planned, work_list. simpl. unfold slice_to. simpl.
  rewrite length_firstn. lia.
Qed.

End WithWorld.
End CrawlSpec.

Module ResumeSpec.
Import PyStr Soup RateLimiter Records Extract Scraper Fixtures Notions
       MoreNotions RunSpec CrawlSpec.


(** With the first of two listed episodes completed and a cap of 1, the
    resumed execution asks for the listing and for the second episode:
    the cap has cut the list after the completed entry was taken out. *)
Example capped_resume_requests_second :
  requests (session (P := example_platform) second_only (Some 1%Z) true
                    (Some first_done) None)
  = [EPISODES_URL; py "https://ocdb.cc/episode/2"].
Proof. vm_compute. reflexivity. Qed.

End ResumeSpec.

Module CrawlTheorems.
Import PyStr PyStrFacts Soup Records Extract Scraper Fixtures Notions MoreNotions.
Import FetchSpec RunSpec FetchMore BackoffSpec CrawlSpec.

(** X13. When all five answers to a URL are of the kind that is tried
    again (429, a status from 500 on, a timeout or another request error),
    [fetch_page] gives up after exactly five requests and leaves the delay
    of the rate limiter at its ceiling of 30 seconds, wherever in its range
    the delay was before. *)
Theorem exhausted_fetch_reaches_ceiling (W : world) (u : str) (st : state) :
  RateLimiter.in_range (delay st) ->
  (forall k, k < 5 -> retried (server W (length (requests st) + k) u) = true) ->
  fst (fetch_page W u st) = None
  /\ requests (snd (fetch_page W u st)) = requests st ++ repeat u 5
  /\ delay (snd (fetch_page W u st)) = RateLimiter.CEILING.
Proof.
  intros R H. unfold fetch_page, RateLimiter.MAX_RETRIES.
  destruct (@fetch_attempts_exhaust W 5 u st H) as [V L].
  split; [exact V|]. split; [exact L|].
  rewrite (@fetch_attempts_exhaust_delay W 5 u st H).
  now apply five_failures.
Qed.

Lemma exhausted_fetch_reaches_ceiling_witness :
  fst (fetch_page broken episode_1 (new_scraper None None)) = None
  /\ requests (snd (fetch_page broken episode_1 (new_scraper None None)))
     = repeat episode_1 5
  /\ delay (snd (fetch_page broken episode_1 (new_scraper None None)))
     = RateLimiter.CEILING.
Proof.
  apply (exhausted_fetch_reaches_ceiling broken episode_1 (new_scraper None None)).
  - split; reflexivity.
  - intros k _. reflexivity.
Defined.

(** X15. Whatever the server does and whatever the files hold, the delay of
    the rate limiter at the end of an execution lies between the 1.5
    seconds of [MIN_DELAY] and the ceiling of 30 seconds. *)
Theorem run_delay_in_range {P : Platform} (W : world) (max_episodes : option Z)
    (resume : bool) (pf : option progress) (outf : option (list episode)) :
  RateLimiter.in_range (delay (session W max_episodes resume pf outf)).
Proof.
  pose proof (session_loop W max_episodes resume pf outf) as E. cbv zeta in E.
  assert (R : RateLimiter.in_range
                (delay (snd (scrape_from W 0 (planned W max_episodes resume pf)
                               (snd (get_episode_urls W (loaded resume pf outf))))))).
  { apply scrape_from_delay, get_episode_urls_delay.
    unfold loaded. destruct resume; apply RateLimiterSpec.in_range_FLOOR. }
  rewrite E. destruct (nonempty (listing W)); exact R.
Qed.



(** X18. With a positive cap [p] an execution makes at most [5 * (p + 1)]
    requests and adds at most [p] records to those it loaded. [main] in
    test mode caps at 3 whatever [--max] says: at most 20 requests and 3
    new records. *)
Theorem capped_run_is_bounded {P : Platform} (W : world) (resume : bool)
    (pf : option progress) (outf : option (list episode)) :
  (forall p : positive,
     length (requests (session W (Some (Z.pos p)) resume pf outf))
       <= 5 * (Pos.to_nat p + 1)
     /\ length (episodes (session W (Some (Z.pos p)) resume pf outf))
        <= length (episodes (loaded resume pf outf)) + Pos.to_nat p)
  /\ (forall arg_max : option Z,
        length (requests (main W arg_max (negb resume) true pf outf)) <= 20
        /\ length (episodes (main W arg_max (negb resume) true pf outf))
           <= length (episodes (loaded resume pf outf)) + 3).
Proof.
  assert (B : forall p : positive,
     length (requests (session W (Some (Z.pos p)) resume pf outf))
       <= 5 * (Pos.to_nat p + 1)
     /\ length (episodes (session W (Some (Z.pos p)) resume pf outf))
        <= length (episodes (loaded resume pf outf)) + Pos.to_nat p).
  { intros p. pose proof (planned_cap W p resume pf) as C. split.
    - destruct (session_log W (Some (Z.pos p)) resume pf outf)
        as (E & first & Hf & R1).
      destruct (scrape_from_blocks W (planned W (Some (Z.pos p)) resume pf) 0
                  (snd (get_episode_urls W (loaded resume pf outf))))
        as (times & L & F & R2).
      rewrite E, R2, R1, length_app, repeat_length.
      rewrite <- (length_map s_url) in L, C.
      pose proof (blocks_length _ L F). lia.
    - destruct (session_memory W (Some (Z.pos p)) resume pf outf)
        as (E1 & _ & E3 & _).
      destruct (scrape_from_growth W (planned W (Some (Z.pos p)) resume pf) 0
                  (snd (get_episode_urls W (loaded resume pf outf))))
        as (ne & nf & G1 & _ & _ & Pm).
      rewrite E1, G1, E3, length_app.
      apply Permutation_length in Pm.
      rewrite length_app, !length_map in Pm. lia. }
  split; [exact B|].
  intros arg_max. unfold main. rewrite negb_involutive.
  apply (B 3%positive).
Qed.




(** X21. When no episode list is found (the listing cannot be fetched, or
    holds no entry), the execution writes nothing: no save, both files as
    they were, the memory as loaded, and no request but those for the
    listing. *)
Theorem no_listing_no_change {P : Platform} (W : world)
    (max_episodes : option Z) (resume : bool)
    (pf : option progress) (outf : option (list episode)) :
  listing W = [] ->
  saves (session W max_episodes resume pf outf) = []
  /\ progress_file (session W max_episodes resume pf outf) = pf
  /\ output_file (session W max_episodes resume pf outf) = outf
  /\ episodes (session W max_episodes resume pf outf)
     = episodes (loaded resume pf outf)
  /\ progress_now (session W max_episodes resume pf outf)
     = progress_now (loaded resume pf outf)
  /\ exists k, 1 <= k <= 5
       /\ requests (session W max_episodes resume pf outf) = repeat EPISODES_URL k.
Proof.
  intros L.
  pose proof (session_loop W max_episodes resume pf outf) as E. cbv zeta in E.
  assert (W0 : planned W max_episodes resume pf = []).
  { unfold planned. rewrite L. apply work_list_nil. }
  rewrite W0, L in E. cbn [nonempty scrape_from ret snd] in E. rewrite E.
  destruct (get_episode_urls_log_pos W (loaded resume pf outf))
    as (k & Hk & F1 & F2 & F3 & F4 & F5 & F6).
  assert (L0 : saves (loaded resume pf outf) = []
               /\ progress_file (loaded resume pf outf) = pf
               /\ output_file (loaded resume pf outf) = outf
               /\ requests (loaded resume pf outf) = []).
  { unfold loaded. destruct resume; now repeat split. }
  destruct L0 as (S0 & P0 & O0 & R0).
  rewrite F5, F3, F4, S0, P0, O0.
  split; [reflexivity|]. split; [reflexivity|]. split; [reflexivity|].
  split; [exact F1|]. split; [exact F2|].
  exists k. split; [exact Hk|]. now rewrite F6, R0.
Qed.

Lemma no_listing_no_change_witness :
  let s := @session example_platform missing None true (Some first_done) None in
  saves s = []
  /\ progress_file s = Some first_done
  /\ output_file s = None
  /\ episodes s = episodes (loaded true (Some first_done) None)
  /\ progress_now s = progress_now (loaded true (Some first_done) None)
  /\ exists k, 1 <= k <= 5 /\ requests s = repeat EPISODES_URL k.
Proof.
  apply (@no_listing_no_change example_platform missing None true
           (Some first_done) None).
  reflexivity.
Defined.



(** X23. Resuming when every listed URL is already completed: the
    execution requests the listing and nothing else, and ends with the
    records and the progress it loaded. *)
Theorem resume_of_finished_crawl {P : Platform} (W : world)
    (max_episodes : option Z)
    (pf : option progress) (outf : option (list episode)) :
  forallb (fun ep => str_in (s_url ep) (stored_completed pf)) (listing W) = true ->
  episodes (session W max_episodes true pf outf) = stored_episodes outf
  /\ progress_now (session W max_episodes true pf outf)
     = progress_now (loaded true pf outf)
  /\ exists k, 1 <= k <= 5
       /\ requests (session W max_episodes true pf outf) = repeat EPISODES_URL k.
Proof.
  intros D.
  assert (W0 : planned W max_episodes true pf = []).
  { unfold planned, work_list.
    assert (F : filter (fun ep => negb (str_in (s_url ep) (stored_completed pf)))
                  (listing W) = []).
    { induction (listing W) as [|ep l IH]; [reflexivity|].
      cbn [forallb] in D. apply andb_true_iff in D. destruct D as [D1 D2].
      cbn [filter]. rewrite D1. cbn [negb]. now apply IH. }
    rewrite F. destruct max_episodes as [m|]; [|reflexivity].
    destruct (m =? 0)%Z; [reflexivity|].
    unfold slice_to. destruct (0 <=? m)%Z; apply firstn_nil. }
  destruct (session_memory W max_episodes true pf outf) as (E1 & E2 & E3 & E4).
  destruct (session_log W max_episodes true pf outf) as (E & first & Hf & R1).
  rewrite W0 in *. cbn [scrape_from ret snd] in *.
  rewrite E1, E2, E3, E4, E, R1.
  split; [unfold loaded; now destruct outf|]. split; [reflexivity|].
  now exists first.
Qed.

Lemma resume_of_finished_crawl_witness :
  let s := @session example_platform second_only None true (Some both_done) None in
  episodes s = []
  /\ progress_now s = both_done
  /\ exists k, 1 <= k <= 5 /\ requests s = repeat EPISODES_URL k.
Proof.
  apply (@resume_of_finished_crawl example_platform second_only None
           (Some both_done) None).
  reflexivity.
Defined.




(** X29. When [get_episode_urls] raises, [run] raises: the call is outside
    the [try] of the loop. The listing has been asked for and nothing
    else; nothing is saved, both files are as they were and the memory is
    as it was loaded. The witness is a listing whose second link has a
    number of 4301 digits in its title. *)
Theorem listing_error_ends_run {P : Platform} (W : world)
    (max_episodes : option Z) (resume : bool)
    (pf : option progress) (outf : option (list episode)) :
  listed W = Raised ->
  fst (run W max_episodes resume (new_scraper pf outf)) = Raised
  /\ saves (session W max_episodes resume pf outf) = []
  /\ progress_file (session W max_episodes resume pf outf) = pf
  /\ output_file (session W max_episodes resume pf outf) = outf
  /\ episodes (session W max_episodes resume pf outf)
     = episodes (loaded resume pf outf)
  /\ progress_now (session W max_episodes resume pf outf)
     = progress_now (loaded resume pf outf)
  /\ exists k, 1 <= k <= 5
       /\ requests (session W max_episodes resume pf outf) = repeat EPISODES_URL k.
Proof.
  intros Ld. split; [rewrite run_result, Ld; reflexivity|].
  assert (L : listing W = []) by (unfold listing; now rewrite Ld).
  pose proof (session_loop W max_episodes resume pf outf) as E. cbv zeta in E.
  assert (W0 : planned W max_episodes resume pf = []).
  { unfold planned. rewrite L. apply work_list_nil. }
  rewrite W0, L in E. cbn [nonempty scrape_from ret snd] in E. rewrite E.
  destruct (get_episode_urls_log_pos W (loaded resume pf outf))
    as (k & Hk & F1 & F2 & F3 & F4 & F5 & F6).
  assert (L0 : saves (loaded resume pf outf) = []
               /\ progress_file (loaded resume pf outf) = pf
               /\ output_file (loaded resume pf outf) = outf
               /\ requests (loaded resume pf outf) = []).
  { unfold loaded. destruct resume; now repeat split. }
  destruct L0 as (S0 & P0 & O0 & R0).
  rewrite F5, F3, F4, S0, P0, O0.
  split; [reflexivity|]. split; [reflexivity|]. split; [reflexivity|].
  split; [exact F1|]. split; [exact F2|].
  exists k. split; [exact Hk|]. now rewrite F6, R0.
Qed.

Lemma listing_error_ends_run_witness :
  let s := @session example_platform overlong_listing None true
             (Some first_done) None in
  fst (@run example_platform overlong_listing None true
         (new_scraper (Some first_done) None)) = Raised
  /\ saves s = []
  /\ progress_file s = Some first_done
  /\ output_file s = None
  /\ episodes s = episodes (loaded true (Some first_done) None)
  /\ progress_now s = progress_now (loaded true (Some first_done) None)
  /\ exists k, 1 <= k <= 5 /\ requests s = repeat EPISODES_URL k.
Proof.
  apply (@listing_error_ends_run example_platform overlong_listing None true
           (Some first_done) None).
  vm_compute. reflexivity.
Defined.

End CrawlTheorems.

Module CheckpointSpec.
Import PyStr PyStrFacts Soup Records Extract Scraper Fixtures Notions MoreNotions.
Import FetchSpec RunSpec FetchMore BackoffSpec CrawlSpec.

Section WithWorld.
Context {P : Platform}.
Variable W : world.

(** The bookkeeping of an entry keeps records and completed URLs
    together. *)
Lemma booked_aligned (ep_info : stub) (st : state) :
  map url (episodes st) = completed (progress_now st) ->
  map url (episodes (booked W ep_info st))
  = completed (progress_now (booked W ep_info st))
  /\ exists mid, episodes (booked W ep_info st) = episodes st ++ mid.
Proof.
  intros A.
  destruct (booked_cases W ep_info st) as (k & _ & _ & _ & _ & _ & C).
  destruct C as [(e & Ue & _ & -> & ->) | (_ & -> & ->)].
  - split; [|now exists [e]]. rewrite map_app, A. simpl. now rewrite Ue.
  - split; [exact A|]. exists []. now rewrite app_nil_r.
Qed.

(** The snapshots the loop writes: each holds records that go with its
    completed URLs, that extend the records the loop started from and that
    the records at the end of the loop extend. *)
Lemma scrape_from_snapshots (work : list stub) (i : nat) (st : state) :
  map url (episodes st) = completed (progress_now st) ->
  exists new,
    saves (snd (scrape_from W i work st)) = saves st ++ new
    /\ Forall (fun snap =>
                 map url (snd snap) = completed (fst snap)
                 /\ (exists mid, snd snap = episodes st ++ mid)
                 /\ (exists more,
                       episodes (snd (scrape_from W i work st)) = snd snap ++ more))
              new.
Proof.
  revert i st; induction work as [|ep_info rest IH]; intros i st A.
  - exists []. simpl. rewrite app_nil_r. split; [reflexivity | constructor].
  - rewrite scrape_from_cons.
    destruct (booked_aligned ep_info st A) as [Ab [mid Eb]].
    destruct (booked_cases W ep_info st) as (k & _ & _ & Sb & _).
    assert (M : episodes (snd (scrape_one W i ep_info st))
                = episodes (booked W ep_info st)
                /\ progress_now (snd (scrape_one W i ep_info st))
                   = progress_now (booked W ep_info st)).
    { rewrite scrape_one_eq. destruct ((i + 1) mod 10 =? 0)%nat; now split. }
    destruct M as [M1 M2].
    destruct (IH (S i) (snd (scrape_one W i ep_info st))) as (new & Sv & F);
      [now rewrite M1, M2|].
    assert (F' : Forall (fun snap =>
                 map url (snd snap) = completed (fst snap)
                 /\ (exists mid, snd snap = episodes st ++ mid)
                 /\ (exists more,
                       episodes (snd (scrape_from W (S i) rest
                                        (snd (scrape_one W i ep_info st))))
                       = snd snap ++ more)) new).
    { eapply Forall_impl; [|exact F]. cbv beta.
      intros snap (H1 & (m1 & H2) & H3). split; [exact H1|]. split; [|exact H3].
      exists (mid ++ m1). now rewrite H2, M1, Eb, app_assoc. }
    destruct (scrape_from_growth W rest (S i) (snd (scrape_one W i ep_info st)))
      as (ne & _ & G & _).
    assert (H : exists head,
               saves (snd (scrape_one W i ep_info st)) = saves st ++ head
               /\ (head = []
                   \/ head = [(progress_now (booked W ep_info st),
                               episodes (booked W ep_info st))])).
    { rewrite scrape_one_eq. destruct ((i + 1) mod 10 =? 0)%nat.
      - eexists. rewrite save_progress_eq. cbn [snd saves]. rewrite Sb.
        split; [reflexivity | now right].
      - exists []. rewrite Sb, app_nil_r. split; [reflexivity | now left]. }
    destruct H as (head & Sh & Ch).
    exists (head ++ new). split; [now rewrite Sv, Sh, app_assoc|].
    apply Forall_app. split; [|exact F'].
    destruct Ch as [-> | ->]; constructor; [|constructor]. cbn [fst snd].
    split; [exact Ab|]. split; [now exists mid|].
    exists ne. now rewrite G, M1.
Qed.

End WithWorld.

(** X26. Every snapshot [save_progress] writes during an execution is
    consistent when the files it started from were: the URLs of its
    records are its completed URLs, one by one and in order; its records
    extend the records that were loaded, and the records at the end of the
    execution extend them. The witness is a listing of twelve episodes,
    with a save after the tenth. *)
Theorem snapshots_are_consistent {P : Platform} (W : world)
    (max_episodes : option Z) (resume : bool)
    (pf : option progress) (outf : option (list episode)) :
  aligned pf outf ->
  Forall (fun snap =>
            map url (snd snap) = completed (fst snap)
            /\ (exists mid, snd snap = episodes (loaded resume pf outf) ++ mid)
            /\ (exists more,
                  episodes (session W max_episodes resume pf outf)
                  = snd snap ++ more))
         (saves (session W max_episodes resume pf outf)).
Proof.
  intros A.
  pose proof (session_loop W max_episodes resume pf outf) as E. cbv zeta in E.
  destruct (get_episode_urls_log W (loaded resume pf outf))
    as (k & _ & E1 & E2 & _ & _ & E5 & _).
  assert (S0 : saves (loaded resume pf outf) = [])
    by (unfold loaded; now destruct resume).
  destruct (scrape_from_snapshots W (planned W max_episodes resume pf) 0
              (snd (get_episode_urls W (loaded resume pf outf))))
    as (new & Sv & F).
  { rewrite E1, E2. now apply loaded_memory. }
  rewrite E5, S0, E1 in *. cbn [app] in Sv.
  rewrite E. destruct (nonempty (listing W)).
  - rewrite save_progress_eq. cbn [snd saves episodes]. rewrite Sv.
    apply Forall_app. split; [exact F|].
    constructor; [|constructor]. cbn [fst snd].
    destruct (scrape_from_growth W (planned W max_episodes resume pf) 0
                (snd (get_episode_urls W (loaded resume pf outf))))
      as (ne & nf & G1 & G2 & _ & _).
    split; [|split].
    + rewrite G1, G2, E1, E2, map_app. now rewrite (loaded_memory resume A).
    + exists ne. now rewrite G1, E1.
    + exists []. now rewrite app_nil_r.
  - rewrite Sv. exact F.
Qed.

Lemma snapshots_are_consistent_witness :
  Forall (fun snap =>
            map url (snd snap) = completed (fst snap)
            /\ (exists mid, snd snap = episodes (loaded true None None) ++ mid)
            /\ (exists more,
                  episodes (@session example_platform first_rejected None true None None)
                  = snd snap ++ more))
         (saves (@session example_platform first_rejected None true None None)).
Proof.
  apply (@snapshots_are_consistent example_platform first_rejected None true None None).
  reflexivity.
Defined.

End CheckpointSpec.

Module FreshSpec.
Import PyStr PyStrFacts Soup Records Extract Scraper Fixtures Notions MoreNotions.
Import FetchSpec RunSpec FetchMore CrawlSpec.

Section WithWorld.
Context {P : Platform}.
Variable W : world.




End WithWorld.


End FreshSpec.
